(** * SourceContext: a shallow embedding of the per-file analysis unit

    The development follows [SourceContext] of the grammar back end:
    the reference mesh between contexts ([addAsReferenceTo],
    [getReferenceCount]), the process-wide table of built-in symbols, the
    parse / semantic-analysis cycle, the extraction of an automaton graph
    ([getATNGraph]) and the front door of sentence generation
    ([generateSentence]).

    Objects of the host language are identified by a number standing for
    their identity; arrays are lists, [Map]s are [gmap]s and a [Set] is the
    duplicate-free list of its elements in insertion order. *)

From Stdlib Require Import ZArith Lia.
From stdpp Require Import gmap strings list fin_maps pretty.

Local Open Scope Z_scope.

(** [Array.prototype.indexOf]: position of the first occurrence, [-1] when
    there is none. *)
Fixpoint indexOf {A} `{EqDecision A} (l : list A) (x : A) : Z :=
  match l with
  | [] => -1
  | y :: l' =>
      if decide (y = x) then 0
      else let i := indexOf l' x in if decide (-1 < i) then i + 1 else -1
  end.

Lemma indexOf_ge {A} `{EqDecision A} (l : list A) (x : A) : -1 <= indexOf l x.
Proof.
  induction l as [|y l IH]; simpl; [lia|].
  destruct (decide (y = x)); [lia|]. case_decide; lia.
Qed.

Lemma indexOf_found {A} `{EqDecision A} (l : list A) (x : A) :
  -1 < indexOf l x <-> x ∈ l.
Proof.
  induction l as [|y l IH]; simpl.
  - split; [lia | by intros ?%elem_of_nil].
  - destruct (decide (y = x)) as [->|Hne].
    + split; [intros _; left | lia].
    + rewrite elem_of_cons. case_decide as Hi.
      * split; [intros _; right; by apply IH | lia].
      * split; [lia | intros [?|Hin]; [congruence | by apply IH in Hin]].
Qed.

(** * The reference mesh *)

Module Mesh.

(** A context is named by its identity. *)
Definition ctx := nat.

(** The part of the heap the mesh operations touch: for every context its
    [references] array (the contexts referencing it) and the dependency set
    of its symbol table.  A context that was never written has both empty. *)
Record mesh := {
  references : gmap ctx (list ctx);
  dependencies : gmap ctx (list ctx);
}.

Definition empty_mesh : mesh := {| references := ∅; dependencies := ∅ |}.

Definition refs (m : mesh) (c : ctx) : list ctx := default [] (references m !! c).
Definition deps (m : mesh) (c : ctx) : list ctx := default [] (dependencies m !! c).

(** Modelled from the spec: [SymbolTable.addDependencies], which lives in the
    symbol-table class and not in this file; the spec asks that adding a
    dependency edge be idempotent (the edges form a set). *)
Definition addDependencies (m : mesh) (c : ctx) (table : ctx) : mesh :=
  if decide (table ∈ deps m c) then m
  else {| references := references m;
          dependencies := <[c := deps m c ++ [table]]> (dependencies m) |}.

(** [context.references.push(this)]. *)
Definition pushReference (m : mesh) (context this : ctx) : mesh :=
  {| references := <[context := refs m context ++ [this]]> (references m);
     dependencies := dependencies m |}.

(** The [while (pipeline.length > 0)] loop of [addAsReferenceTo].  The loop
    has no bound of its own, so the embedding counts iterations: [None] means
    that [fuel] iterations were not enough.  [Some true] is the early
    [return] (already in the list), [Some false] the normal exit.  The
    pipeline holds contexts only, so the test [!current] never fires. *)
Fixpoint walk (fuel : nat) (m : mesh) (this : ctx) (pipeline : list ctx) : option bool :=
  match fuel with
  | O => None
  | S fuel' =>
      match pipeline with
      | [] => Some false
      | current :: rest =>
          if decide (-1 < indexOf (refs m current) this) then Some true
          else walk fuel' m this (rest ++ refs m current)
      end
  end.

(** [this.addAsReferenceTo(context)]. *)
Definition addAsReferenceTo (fuel : nat) (m : mesh) (this context : ctx) : option mesh :=
  match walk fuel m this [context] with
  | None => None
  | Some true => Some m
  | Some false => Some (addDependencies (pushReference m context this) this context)
  end.

(** [getReferenceCount]: the count of the context's own symbol table plus the
    counts of the contexts referencing it, obtained by recursive calls.  The
    recursion has no bound of its own either; [fuel] bounds its depth. *)
Section ReferenceCount.

(** What [this.symbolTable.getReferenceCount(symbol)] returns for a context
    once its semantic analysis has run. *)
Variable localCount : ctx -> string -> nat.

Fixpoint getReferenceCount (fuel : nat) (m : mesh) (this : ctx) (symbol : string)
  : option nat :=
  match fuel with
  | O => None
  | S fuel' =>
      foldl (fun result reference =>
               match result, getReferenceCount fuel' m reference symbol with
               | Some r, Some n => Some (r + n)%nat
               | _, _ => None
               end)
            (Some (localCount this symbol)) (refs m this)
  end.

End ReferenceCount.

(** Three contexts: a parser grammar [P], its lexer grammar [L], and a third
    grammar [G]. *)
Definition P : ctx := 0%nat.
Definition L : ctx := 1%nat.
Definition G : ctx := 2%nat.

(** The mesh after [P.addAsReferenceTo(L)] and then [L.addAsReferenceTo(P)],
    starting from contexts that reference nothing. *)
Definition mutual : option mesh :=
  m1 ← addAsReferenceTo 2 empty_mesh P L; addAsReferenceTo 2 m1 L P.

Definition mutual_mesh : mesh :=
  {| references := <[P := [L]]> (<[L := [P]]> ∅);
     dependencies := <[L := [P]]> (<[P := [L]]> ∅) |}.

(** A lexer grammar [0], two parser grammars [1] and [2] that depend on it,
    and a grammar [3] that depends on both: the mesh after the four calls. *)
Definition diamond : option mesh :=
  m1 ← addAsReferenceTo 5 empty_mesh 3%nat 1%nat;
  m2 ← addAsReferenceTo 5 m1 3%nat 2%nat;
  m3 ← addAsReferenceTo 5 m2 1%nat 0%nat;
  addAsReferenceTo 5 m3 2%nat 0%nat.

(** ** Properties of the walk *)

Lemma refs_pushReference_eq m context this :
  refs (pushReference m context this) context = refs m context ++ [this].
Proof. unfold refs at 1, pushReference; simpl. by rewrite lookup_insert_eq. Qed.

Lemma refs_pushReference_ne m context this c :
  c ≠ context -> refs (pushReference m context this) c = refs m c.
Proof. intros. unfold refs, pushReference; simpl. by rewrite lookup_insert_ne. Qed.

Lemma refs_addDependencies m c table c' : refs (addDependencies m c table) c' = refs m c'.
Proof. unfold addDependencies. by case_decide. Qed.

Lemma walk_fuel_mono fuel m this pipeline b :
  walk fuel m this pipeline = Some b ->
  forall fuel', (fuel <= fuel')%nat -> walk fuel' m this pipeline = Some b.
Proof.
  revert pipeline. induction fuel as [|fuel IH]; intros pipeline Hw fuel' Hle; [done|].
  destruct fuel' as [|fuel']; [lia|]. simpl in *.
  destruct pipeline as [|current rest]; [done|].
  case_decide; [done|]. apply IH; [done | lia].
Qed.

(** The two calls that build [mutual_mesh] both return. *)
Lemma mutual_eq : mutual = Some mutual_mesh.
Proof. vm_compute. reflexivity. Qed.

(** A call that returns leaves a mesh on which the same call returns at once
    and changes nothing. *)
Lemma addAsReferenceTo_repeat fuel m this context m' :
  addAsReferenceTo fuel m this context = Some m' ->
  addAsReferenceTo fuel m' this context = Some m'.
Proof.
  unfold addAsReferenceTo. destruct (walk fuel m this [context]) as [[|]|] eqn:Hw; [| |done].
  - intros [= <-]. by rewrite Hw.
  - intros [= <-]. destruct fuel as [|fuel]; [done|]. simpl.
    rewrite refs_addDependencies, refs_pushReference_eq.
    rewrite decide_True; [done|].
    apply indexOf_found, elem_of_app. right. by apply list_elem_of_singleton.
Qed.

(** The walk only pushes a context that is not yet in the array, so an array
    without duplicates stays without duplicates. *)
Lemma addAsReferenceTo_NoDup fuel m this context m' :
  addAsReferenceTo fuel m this context = Some m' ->
  (forall c, NoDup (refs m c)) -> forall c, NoDup (refs m' c).
Proof.
  unfold addAsReferenceTo. destruct (walk fuel m this [context]) as [[|]|] eqn:Hw; [| |done].
  - by intros [= <-].
  - intros [= <-] Hnd c. rewrite refs_addDependencies.
    destruct (decide (c = context)) as [->|Hne].
    + rewrite refs_pushReference_eq. apply NoDup_app. split; [done|].
      split; [|apply NoDup_singleton].
      intros x Hx ->%list_elem_of_singleton.
      destruct fuel as [|fuel]; [done|]. simpl in Hw.
      case_decide as Hi; [done|]. by apply Hi, indexOf_found.
    + by rewrite refs_pushReference_ne.
Qed.

(** On the mutually referencing pair the walk started for a third context
    keeps a worklist that is never empty: it alternates between the two. *)
Lemma walk_mutual_None fuel pipeline :
  pipeline ≠ [] -> Forall (fun c => c = P \/ c = L) pipeline ->
  walk fuel mutual_mesh G pipeline = None.
Proof.
  revert pipeline. induction fuel as [|fuel IH]; intros pipeline Hne Hall; [done|].
  simpl. destruct pipeline as [|current rest]; [done|].
  apply Forall_cons in Hall as [Hc Hrest].
  assert (Hrefs : exists c, refs mutual_mesh current = [c] /\ (c = P \/ c = L)).
  { destruct Hc as [-> | ->]; [exists L | exists P]; split; auto. }
  destruct Hrefs as (c & -> & Hc').
  rewrite decide_False by (destruct Hc' as [-> | ->]; by vm_compute).
  apply IH; [by destruct rest|]. apply Forall_app. split; [done|].
  apply Forall_cons; split; [done | by apply Forall_nil].
Qed.

(** C1 (the code at the failing input).  After [P.addAsReferenceTo(L)] and
    [L.addAsReferenceTo(P)] have both returned, the two contexts reference
    each other, and on that mesh [G.addAsReferenceTo(P)] never leaves its
    loop: no number of iterations is enough. *)
Theorem addAsReferenceTo_loops_on_mutual_pair :
  mutual = Some mutual_mesh /\
  forall fuel, addAsReferenceTo fuel mutual_mesh G P = None.
Proof.
  split; [apply mutual_eq|]. intros fuel. unfold addAsReferenceTo.
  rewrite walk_mutual_None; [done | done |].
  apply Forall_cons; split; [by left | by apply Forall_nil].
Qed.

(** ** Properties of the count *)

Section ReferenceCountFacts.

Variable localCount : ctx -> string -> nat.



Lemma getReferenceCount_mutual_None fuel symbol :
  getReferenceCount localCount fuel mutual_mesh P symbol = None /\
  getReferenceCount localCount fuel mutual_mesh L symbol = None.
Proof.
  induction fuel as [|fuel [IHP IHL]]; [done|].
  split; simpl.
  - change (refs mutual_mesh P) with [L]. simpl. by rewrite IHL.
  - change (refs mutual_mesh L) with [P]. simpl. by rewrite IHP.
Qed.

End ReferenceCountFacts.

(** On the diamond every call returns; with one local reference in each of
    the four contexts the count for the lexer grammar is five: the grammar at
    the top is counted along both paths. *)
Lemma getReferenceCount_counts_along_every_path :
  (m ← diamond; getReferenceCount (fun _ _ => 1%nat) 3 m 0%nat "x") = Some 5%nat.
Proof. vm_compute. reflexivity. Qed.

(** C2 (the code at the failing input).  On the mesh left by
    [P.addAsReferenceTo(L)] and [L.addAsReferenceTo(P)] the recursion of
    [P.getReferenceCount(symbol)] never comes back, whatever the local
    counts are: no recursion depth is enough. *)
Theorem getReferenceCount_recurses_forever_on_mutual_pair :
  mutual = Some mutual_mesh /\
  forall localCount fuel symbol,
    getReferenceCount localCount fuel mutual_mesh P symbol = None.
Proof.
  split; [apply mutual_eq|]. intros. apply getReferenceCount_mutual_None.
Qed.

End Mesh.

(** * The process-wide table of built-in symbols *)

Module GlobalSymbols.

Local Open Scope string_scope.

(** The symbol classes the constructor instantiates. *)
Inductive SymbolClass := BuiltInChannelSymbol | BuiltInTokenSymbol | BuiltInModeSymbol.

Record Symbol := { symbolClass : SymbolClass; name : string }.

Record ContextSymbolTable := {
  tableName : string;
  allowDuplicateSymbols : bool;
  symbols : list Symbol;
}.

(** Modelled from the spec: [resolve] of the symbol-table class, which is not
    in this file.  A name is looked up in the table itself first and then in
    its dependencies; the global table has no dependencies, so only the local
    lookup is left. *)
Definition resolve (t : ContextSymbolTable) (n : string) : option Symbol :=
  snd <$> list_find (fun s => name s = n) (symbols t).

(** Modelled from the spec: [addNewSymbolOfType] of the symbol-table class,
    which is not in this file.  A definition is appended in insertion order;
    a table that does not allow duplicates rejects a second definition of a
    name with the DuplicateSymbol condition, here [None]. *)
Definition addNewSymbolOfType (t : ContextSymbolTable) (c : SymbolClass) (n : string)
  : option ContextSymbolTable :=
  if negb (allowDuplicateSymbols t) && bool_decide (is_Some (resolve t n)) then None
  else Some {| tableName := tableName t;
               allowDuplicateSymbols := allowDuplicateSymbols t;
               symbols := symbols t ++ [{| symbolClass := c; name := n |}] |}.

(** [private static globalSymbols] as the class initialiser leaves it. *)
Definition globalSymbols : ContextSymbolTable :=
  {| tableName := "Global Symbols"; allowDuplicateSymbols := false; symbols := [] |}.

Section Constructor.

(** [path.basename(fileName, path.extname(fileName))] of the host's path
    library. *)
Variable baseNameWithoutExtension : string -> string.

(** The fields the constructor writes. *)
Record SourceContext := {
  fileName : string;
  sourceId : string;
  symbolTable : ContextSymbolTable;
}.

(** [new SourceContext(fileName)], run against the current static table.  It
    returns the new context and the static table, or [None] when adding a
    built-in raised. *)
Definition new_SourceContext (g : ContextSymbolTable) (file : string)
  : option (SourceContext * ContextSymbolTable) :=
  let id := baseNameWithoutExtension file in
  let this := {| fileName := file; sourceId := id;
                 symbolTable := {| tableName := id; allowDuplicateSymbols := true;
                                   symbols := [] |} |} in
  match resolve g "EOF" with
  | Some _ => Some (this, g)
  | None =>
      g1 ← addNewSymbolOfType g BuiltInChannelSymbol "DEFAULT_TOKEN_CHANNEL";
      g2 ← addNewSymbolOfType g1 BuiltInChannelSymbol "HIDDEN";
      g3 ← addNewSymbolOfType g2 BuiltInTokenSymbol "EOF";
      g4 ← addNewSymbolOfType g3 BuiltInModeSymbol "DEFAULT_MODE";
      Some (this, g4)
  end.

(** A process lifetime: contexts are constructed one after the other for the
    given files; the static table is threaded through. *)
Fixpoint construct_all (g : ContextSymbolTable) (files : list string)
  : option (list SourceContext * ContextSymbolTable) :=
  match files with
  | [] => Some ([], g)
  | file :: files' =>
      '(c, g1) ← new_SourceContext g file;
      '(cs, g2) ← construct_all g1 files';
      Some (c :: cs, g2)
  end.

(** How many definitions of a name a table holds. *)
Definition definitions (t : ContextSymbolTable) (n : string) : nat :=
  length (filter (fun s => name s = n) (symbols t)).

Definition builtins : list Symbol :=
  [ {| symbolClass := BuiltInChannelSymbol; name := "DEFAULT_TOKEN_CHANNEL" |};
    {| symbolClass := BuiltInChannelSymbol; name := "HIDDEN" |};
    {| symbolClass := BuiltInTokenSymbol; name := "EOF" |};
    {| symbolClass := BuiltInModeSymbol; name := "DEFAULT_MODE" |} ].

Definition initialized : ContextSymbolTable :=
  {| tableName := "Global Symbols"; allowDuplicateSymbols := false; symbols := builtins |}.

Lemma new_SourceContext_first file :
  snd <$> new_SourceContext globalSymbols file = Some initialized.
Proof. reflexivity. Qed.

Lemma new_SourceContext_later file :
  snd <$> new_SourceContext initialized file = Some initialized.
Proof. reflexivity. Qed.

Lemma construct_all_initialized files :
  snd <$> construct_all initialized files = Some initialized.
Proof.
  induction files as [|file files IH]; [done|].
  simpl. destruct (construct_all initialized files) as [[cs g2]|]; [|done].
  simpl in *. by injection IH as ->.
Qed.

(** C8.  Whatever the number of contexts constructed in a process (at least
    one), every construction returns, the static table then holds exactly the
    four built-ins, each defined once, and [resolve] finds each of them. *)
Theorem builtins_defined_exactly_once file files :
  exists contexts g,
    construct_all globalSymbols (file :: files) = Some (contexts, g) /\
    length contexts = S (length files) /\
    symbols g = builtins /\
    Forall (fun n => definitions g n = 1%nat /\ is_Some (resolve g n))
           ["DEFAULT_TOKEN_CHANNEL"; "HIDDEN"; "EOF"; "DEFAULT_MODE"].
Proof.
  assert (Hlen : forall g fs cs g', construct_all g fs = Some (cs, g') ->
                                    length cs = length fs).
  { intros g fs. revert g. induction fs as [|f fs IH]; intros g cs g'; simpl.
    - by intros [= <- _].
    - destruct (new_SourceContext g f) as [[c g1]|]; [|done]. simpl.
      destruct (construct_all g1 fs) as [[cs' g2]|] eqn:Hrec; [|done]. simpl.
      intros [= <- _]. simpl. f_equal. by eapply IH. }
  pose proof (construct_all_initialized files) as Hrest.
  destruct (construct_all initialized files) as [[cs g2]|] eqn:Hc; [|done].
  simpl in Hrest. injection Hrest as ->.
  eexists _, initialized. split.
  - cbn [construct_all]. change (new_SourceContext globalSymbols file)
      with (Some ({| fileName := file; sourceId := baseNameWithoutExtension file;
                     symbolTable := {| tableName := baseNameWithoutExtension file;
                                       allowDuplicateSymbols := true; symbols := [] |} |},
                  initialized)).
    simpl. rewrite Hc. reflexivity.
  - split; [simpl; f_equal; by eapply Hlen|]. split; [done|].
    repeat (apply Forall_cons; split; [split; [reflexivity | by eexists]|]).
    by apply Forall_nil.
Qed.

End Constructor.

End GlobalSymbols.

(** * The parse and semantic-analysis cycle *)

Module Context.

Local Open Scope string_scope.
Local Open Scope list_scope.

Inductive GrammarType := Unknown | Parser | Lexer | Combined.

Inductive ErrorStrategy := BailErrorStrategy | DefaultErrorStrategy.

Inductive PredictionMode := SLL | LL.

(** What can be thrown inside [parse] and the analysis. *)
Inductive Exception :=
| ParseCancellationException
| TypeError
| OtherError (message : string).

(** [e instanceof ParseCancellationException]. *)
Definition isParseCancellation (e : Exception) : bool :=
  match e with ParseCancellationException => true | _ => false end.

(** The symbol tables a table can depend on. *)
Inductive TableRef := GlobalSymbols | TableOf (sourceId : string).

Global Instance TableRef_eq_dec : EqDecision TableRef.
Proof. solve_decision. Defined.

Record CommonTokenStream := { source : string; index : nat }.

(** [tokenStream.seek(0)]. *)
Definition seek (i : nat) (ts : CommonTokenStream) : CommonTokenStream :=
  {| source := source ts; index := i |}.

Record ANTLRv4Parser := { errorHandler : ErrorStrategy; predictionMode : PredictionMode }.

Record ContextDetails := {
  type : GrammarType;
  unreferencedRules : list string;
  imports : list string;
}.

Section WithCollaborators.

(** The parse tree, the symbols, the diagnostic entries and the interpreter
    data are produced by the generated parser, the listeners and the data
    reader; their content is not inspected here. *)
Variables (Tree Symbol DiagnosticEntry InterpreterData : Type).

Record ContextSymbolTable := {
  symbols : list Symbol;
  tableDependencies : list TableRef;
  tableTree : option Tree;
}.

(** Modelled from the spec: [clear] of the symbol-table class, which is not in
    this file; the table is emptied before every rebuild, symbols and
    dependency edges alike. *)
Definition clear (t : ContextSymbolTable) : ContextSymbolTable :=
  {| symbols := []; tableDependencies := []; tableTree := tableTree t |}.

(** Modelled from the spec: [addDependencies] of the symbol-table class, which
    is not in this file; adding an edge is idempotent. *)
Definition addDependencies (d : TableRef) (t : ContextSymbolTable) : ContextSymbolTable :=
  {| symbols := symbols t;
     tableDependencies :=
       if decide (d ∈ tableDependencies t) then tableDependencies t
       else tableDependencies t ++ [d];
     tableTree := tableTree t |}.

Definition set_tableTree (v : option Tree) (t : ContextSymbolTable) : ContextSymbolTable :=
  {| symbols := symbols t; tableDependencies := tableDependencies t; tableTree := v |}.

Definition addSymbols (new : list Symbol) (t : ContextSymbolTable) : ContextSymbolTable :=
  {| symbols := symbols t ++ new; tableDependencies := tableDependencies t;
     tableTree := tableTree t |}.

Record SourceContext := {
  fileName : string;
  symbolTable : ContextSymbolTable;
  info : ContextDetails;
  diagnostics : list DiagnosticEntry;
  rrdScripts : option (gmap string string);
  semanticAnalysisDone : bool;
  tokenStream : CommonTokenStream;
  parser : option ANTLRv4Parser;
  grammarLexerData : option InterpreterData;
  grammarLexerRuleMap : gmap string nat;
  grammarParserData : option InterpreterData;
  grammarParserRuleMap : gmap string nat;
  tree : option Tree;
}.

(** Assignment to a single field. *)
Definition set_symbolTable (v : ContextSymbolTable) (s : SourceContext) : SourceContext :=
  {| fileName := fileName s; symbolTable := v; info := info s; diagnostics := diagnostics s;
     rrdScripts := rrdScripts s; semanticAnalysisDone := semanticAnalysisDone s; tokenStream :=
     tokenStream s; parser := parser s; grammarLexerData := grammarLexerData s;
     grammarLexerRuleMap := grammarLexerRuleMap s; grammarParserData := grammarParserData s;
     grammarParserRuleMap := grammarParserRuleMap s; tree := tree s |}.
Definition set_info (v : ContextDetails) (s : SourceContext) : SourceContext :=
  {| fileName := fileName s; symbolTable := symbolTable s; info := v; diagnostics := diagnostics
     s; rrdScripts := rrdScripts s; semanticAnalysisDone := semanticAnalysisDone s; tokenStream
     := tokenStream s; parser := parser s; grammarLexerData := grammarLexerData s;
     grammarLexerRuleMap := grammarLexerRuleMap s; grammarParserData := grammarParserData s;
     grammarParserRuleMap := grammarParserRuleMap s; tree := tree s |}.
Definition set_diagnostics (v : list DiagnosticEntry) (s : SourceContext) : SourceContext :=
  {| fileName := fileName s; symbolTable := symbolTable s; info := info s; diagnostics := v;
     rrdScripts := rrdScripts s; semanticAnalysisDone := semanticAnalysisDone s; tokenStream :=
     tokenStream s; parser := parser s; grammarLexerData := grammarLexerData s;
     grammarLexerRuleMap := grammarLexerRuleMap s; grammarParserData := grammarParserData s;
     grammarParserRuleMap := grammarParserRuleMap s; tree := tree s |}.
Definition set_rrdScripts (v : option (gmap string string)) (s : SourceContext) : SourceContext :=
  {| fileName := fileName s; symbolTable := symbolTable s; info := info s; diagnostics :=
     diagnostics s; rrdScripts := v; semanticAnalysisDone := semanticAnalysisDone s; tokenStream
     := tokenStream s; parser := parser s; grammarLexerData := grammarLexerData s;
     grammarLexerRuleMap := grammarLexerRuleMap s; grammarParserData := grammarParserData s;
     grammarParserRuleMap := grammarParserRuleMap s; tree := tree s |}.
Definition set_semanticAnalysisDone (v : bool) (s : SourceContext) : SourceContext :=
  {| fileName := fileName s; symbolTable := symbolTable s; info := info s; diagnostics :=
     diagnostics s; rrdScripts := rrdScripts s; semanticAnalysisDone := v; tokenStream :=
     tokenStream s; parser := parser s; grammarLexerData := grammarLexerData s;
     grammarLexerRuleMap := grammarLexerRuleMap s; grammarParserData := grammarParserData s;
     grammarParserRuleMap := grammarParserRuleMap s; tree := tree s |}.
Definition set_tokenStream (v : CommonTokenStream) (s : SourceContext) : SourceContext :=
  {| fileName := fileName s; symbolTable := symbolTable s; info := info s; diagnostics :=
     diagnostics s; rrdScripts := rrdScripts s; semanticAnalysisDone := semanticAnalysisDone s;
     tokenStream := v; parser := parser s; grammarLexerData := grammarLexerData s;
     grammarLexerRuleMap := grammarLexerRuleMap s; grammarParserData := grammarParserData s;
     grammarParserRuleMap := grammarParserRuleMap s; tree := tree s |}.
Definition set_parser (v : option ANTLRv4Parser) (s : SourceContext) : SourceContext :=
  {| fileName := fileName s; symbolTable := symbolTable s; info := info s; diagnostics :=
     diagnostics s; rrdScripts := rrdScripts s; semanticAnalysisDone := semanticAnalysisDone s;
     tokenStream := tokenStream s; parser := v; grammarLexerData := grammarLexerData s;
     grammarLexerRuleMap := grammarLexerRuleMap s; grammarParserData := grammarParserData s;
     grammarParserRuleMap := grammarParserRuleMap s; tree := tree s |}.
Definition set_grammarLexerData (v : option InterpreterData) (s : SourceContext) : SourceContext :=
  {| fileName := fileName s; symbolTable := symbolTable s; info := info s; diagnostics :=
     diagnostics s; rrdScripts := rrdScripts s; semanticAnalysisDone := semanticAnalysisDone s;
     tokenStream := tokenStream s; parser := parser s; grammarLexerData := v;
     grammarLexerRuleMap := grammarLexerRuleMap s; grammarParserData := grammarParserData s;
     grammarParserRuleMap := grammarParserRuleMap s; tree := tree s |}.
Definition set_grammarLexerRuleMap (v : gmap string nat) (s : SourceContext) : SourceContext :=
  {| fileName := fileName s; symbolTable := symbolTable s; info := info s; diagnostics :=
     diagnostics s; rrdScripts := rrdScripts s; semanticAnalysisDone := semanticAnalysisDone s;
     tokenStream := tokenStream s; parser := parser s; grammarLexerData := grammarLexerData s;
     grammarLexerRuleMap := v; grammarParserData := grammarParserData s; grammarParserRuleMap :=
     grammarParserRuleMap s; tree := tree s |}.
Definition set_grammarParserData (v : option InterpreterData) (s : SourceContext) : SourceContext :=
  {| fileName := fileName s; symbolTable := symbolTable s; info := info s; diagnostics :=
     diagnostics s; rrdScripts := rrdScripts s; semanticAnalysisDone := semanticAnalysisDone s;
     tokenStream := tokenStream s; parser := parser s; grammarLexerData := grammarLexerData s;
     grammarLexerRuleMap := grammarLexerRuleMap s; grammarParserData := v; grammarParserRuleMap
     := grammarParserRuleMap s; tree := tree s |}.
Definition set_grammarParserRuleMap (v : gmap string nat) (s : SourceContext) : SourceContext :=
  {| fileName := fileName s; symbolTable := symbolTable s; info := info s; diagnostics :=
     diagnostics s; rrdScripts := rrdScripts s; semanticAnalysisDone := semanticAnalysisDone s;
     tokenStream := tokenStream s; parser := parser s; grammarLexerData := grammarLexerData s;
     grammarLexerRuleMap := grammarLexerRuleMap s; grammarParserData := grammarParserData s;
     grammarParserRuleMap := v; tree := tree s |}.
Definition set_tree (v : option Tree) (s : SourceContext) : SourceContext :=
  {| fileName := fileName s; symbolTable := symbolTable s; info := info s; diagnostics :=
     diagnostics s; rrdScripts := rrdScripts s; semanticAnalysisDone := semanticAnalysisDone s;
     tokenStream := tokenStream s; parser := parser s; grammarLexerData := grammarLexerData s;
     grammarLexerRuleMap := grammarLexerRuleMap s; grammarParserData := grammarParserData s;
     grammarParserRuleMap := grammarParserRuleMap s; tree := v |}.

Definition set_type (v : GrammarType) (d : ContextDetails) : ContextDetails :=
  {| type := v; unreferencedRules := unreferencedRules d; imports := imports d |}.

Definition set_unreferencedRules (v : list string) (d : ContextDetails) : ContextDetails :=
  {| type := type d; unreferencedRules := v; imports := imports d |}.

Definition set_imports (v : list string) (d : ContextDetails) : ContextDetails :=
  {| type := type d; unreferencedRules := unreferencedRules d; imports := v |}.

(** ** The collaborators *)

(** The hidden state of the parser runtime. *)
Variable Runtime : Type.

(** One run of the generated parser: what it returned or threw, the entries
    its error listeners pushed onto [diagnostics], and where it left the token
    stream. *)
Record ParseRun := {
  outcome : Exception + Tree;
  reported : list DiagnosticEntry;
  position : nat;
}.

(** [this.parser.grammarSpec()]. *)
Variable grammarSpec : ANTLRv4Parser -> CommonTokenStream -> Runtime -> ParseRun * Runtime.

Variable childCount : Tree -> nat.

(** [tree.grammarType()] with [LEXER()] and [PARSER()] tested for presence;
    [None] when the access throws. *)
Variable grammarType : Tree -> option (bool * bool).

(** The walk of the [DetailsListener]: the symbols it defines and the imports
    it pushes. *)
Variable detailsListener : Tree -> list Symbol * list string.

Variable getUnreferencedSymbols : ContextSymbolTable -> list string.

(** The walk of the [SemanticListener]: the entries it pushes onto
    [diagnostics] and the symbol table with its reference counts. *)
Variable semanticListener :
  Tree -> ContextSymbolTable -> list DiagnosticEntry * ContextSymbolTable.

(** The [RuleVisitor]: one script per rule. *)
Variable ruleVisitor : Tree -> gmap string string.

(** The body of [getReferenceGraph] after the analysis: a view of the table. *)
Variable ReferenceGraph : Type.
Variable referenceGraphOf : ContextSymbolTable -> ReferenceGraph.

(** File system, path library and interpreter-data reader. *)
Variable path_basename : string -> string -> string.
Variable path_dirname : string -> string.
Variable path_join : string -> string -> string.
Variable existsSync : string -> bool.
Variable parseFile : string -> InterpreterData.
Variable ruleNames : InterpreterData -> list string.

(** ** [setText] *)

Definition setText (text : string) (s : SourceContext) : SourceContext :=
  set_tokenStream {| source := text; index := 0 |} s.

(** ** [parse] *)

Definition fastParser : ANTLRv4Parser :=
  {| errorHandler := BailErrorStrategy; predictionMode := SLL |}.

Definition generalParser : ANTLRv4Parser :=
  {| errorHandler := DefaultErrorStrategy; predictionMode := LL |}.

(** One call of [grammarSpec] with its effects on the context. *)
Definition runParser (p : ANTLRv4Parser) (s : SourceContext) (r : Runtime)
  : (Exception + Tree) * SourceContext * Runtime :=
  let '(run, r') := grammarSpec p (tokenStream s) r in
  (outcome run,
   set_tokenStream (seek (position run) (tokenStream s))
     (set_diagnostics (diagnostics s ++ reported run) s),
   r').

(** The part of [parse] after the [try] block. *)
Definition afterParse (t : Tree) (s : SourceContext) : list string * SourceContext :=
  let s := set_tree (Some t) s in
  let s :=
    if decide (0 < childCount t)%nat then
      match grammarType t with
      | Some (lexer, parser) =>
          set_info (set_type (if lexer then Lexer else if parser then Parser else Combined)
                             (info s)) s
      | None => s
      end
    else s in
  let s := set_symbolTable (set_tableTree (Some t) (symbolTable s)) s in
  let '(defined, imported) := detailsListener t in
  let s := set_symbolTable (addSymbols defined (symbolTable s)) s in
  let s := set_info (set_imports (imports (info s) ++ imported) (info s)) s in
  let s := set_info (set_unreferencedRules (getUnreferencedSymbols (symbolTable s)) (info s)) s in
  (imports (info s), s).

Definition parse (s : SourceContext) (r : Runtime)
  : (Exception + list string) * SourceContext * Runtime :=
  let s := set_tokenStream (seek 0 (tokenStream s)) s in
  let s := set_parser (Some fastParser) s in
  let s := set_tree None s in
  let s := set_info (set_type Unknown (info s)) s in
  let s := set_info (set_imports [] (info s)) s in
  let s := set_grammarLexerData None s in
  let s := set_grammarLexerRuleMap ∅ s in
  let s := set_grammarParserData None s in
  let s := set_grammarLexerRuleMap ∅ s in
  let s := set_semanticAnalysisDone false s in
  let s := set_diagnostics [] s in
  let s := set_symbolTable (addDependencies GlobalSymbols (clear (symbolTable s))) s in
  match runParser fastParser s r with
  | (inr t, s, r) => let '(result, s) := afterParse t s in (inr result, s, r)
  | (inl e, s, r) =>
      if isParseCancellation e then
        let s := set_tokenStream (seek 0 (tokenStream s)) s in
        let s := set_parser (Some generalParser) s in
        match runParser generalParser s r with
        | (inr t, s, r) => let '(result, s) := afterParse t s in (inr result, s, r)
        | (inl e', s, r) => (inl e', s, r)
        end
      else (inl e, s, r)
  end.

(** ** [setupInterpreters] *)

Definition endsWith (s suffix : string) : bool :=
  bool_decide (String.length suffix <= String.length s)%nat &&
  bool_decide (String.substring (String.length s - String.length suffix) (String.length suffix) s
               = suffix).

(** A map from the rule names to their positions, later entries winning. *)
Definition ruleIndexMap (names : list string) : gmap string nat :=
  foldl (fun m '(i, n) => <[n := i]> m) ∅ (imap pair names).

(** The names of the lexer and the parser interpreter-data files. *)
Definition interpreterFiles (outputDir : option string) (s : SourceContext) : string * string :=
  let baseName :=
    if endsWith (fileName s) ".g4" then path_basename (fileName s) ".g4"
    else path_basename (fileName s) ".g" in
  let grammarPath :=
    match outputDir with
    | Some d => if decide (d = "") then path_dirname (fileName s) else d
    | None => path_dirname (fileName s)
    end in
  match type (info s) with
  | Combined =>
      let stripped :=
        if endsWith baseName "Parser"
        then String.substring 0 (String.length baseName - String.length "Parser") baseName
        else baseName in
      ((path_join grammarPath stripped ++ "Lexer.interp")%string,
       (path_join grammarPath baseName ++ ".interp")%string)
  | Lexer => ((path_join grammarPath baseName ++ ".interp")%string, "")
  | Parser => ("", (path_join grammarPath baseName ++ ".interp")%string)
  | Unknown => ("", "")
  end.

Definition setupInterpreters (outputDir : option string) (s : SourceContext) : SourceContext :=
  let '(lexerFile, parserFile) := interpreterFiles outputDir s in
  let s :=
    if existsSync lexerFile then
      let data := parseFile lexerFile in
      set_grammarLexerRuleMap (ruleIndexMap (ruleNames data)) (set_grammarLexerData (Some data) s)
    else set_grammarLexerRuleMap ∅ (set_grammarLexerData None s) in
  if existsSync parserFile then
    let data := parseFile parserFile in
    set_grammarParserRuleMap (ruleIndexMap (ruleNames data)) (set_grammarParserData (Some data) s)
  else set_grammarParserRuleMap ∅ (set_grammarParserData None s).

(** ** The semantic pass and its three clients *)

Definition runSemanticAnalysisIfNeeded (s : SourceContext) : option Exception * SourceContext :=
  if semanticAnalysisDone s then (None, s)
  else
    let s := set_semanticAnalysisDone true s in
    let s := set_rrdScripts (Some ∅) s in
    match tree s with
    | None => (Some TypeError, s)
    | Some t =>
        let '(found, table) := semanticListener t (symbolTable s) in
        let s := set_symbolTable table (set_diagnostics (diagnostics s ++ found) s) in
        (None, set_rrdScripts (Some (ruleVisitor t)) s)
    end.

Definition getDiagnostics (s : SourceContext)
  : (Exception + list DiagnosticEntry) * SourceContext :=
  match runSemanticAnalysisIfNeeded s with
  | (Some e, s) => (inl e, s)
  | (None, s) => (inr (diagnostics s), s)
  end.

Definition getReferenceGraph (s : SourceContext) : (Exception + ReferenceGraph) * SourceContext :=
  match runSemanticAnalysisIfNeeded s with
  | (Some e, s) => (inl e, s)
  | (None, s) => (inr (referenceGraphOf (symbolTable s)), s)
  end.

Definition getRRDScript (ruleName : string) (s : SourceContext)
  : (Exception + option string) * SourceContext :=
  match runSemanticAnalysisIfNeeded s with
  | (Some e, s) => (inl e, s)
  | (None, s) => (inr (rrdScripts s ≫= (.!! ruleName)), s)
  end.

(** The requests that trigger the semantic pass, and the other operations on
    a context that are not [parse]. *)
Inductive Request :=
| GetDiagnostics
| GetReferenceGraph
| GetRRDScript (ruleName : string).

Inductive Operation :=
| Ask (q : Request)
| SetText (text : string)
| SetupInterpreters (outputDir : option string).

Definition serve (q : Request) (s : SourceContext) : SourceContext :=
  match q with
  | GetDiagnostics => snd (getDiagnostics s)
  | GetReferenceGraph => snd (getReferenceGraph s)
  | GetRRDScript ruleName => snd (getRRDScript ruleName s)
  end.

Definition perform (o : Operation) (s : SourceContext) : SourceContext :=
  match o with
  | Ask q => serve q s
  | SetText text => setText text s
  | SetupInterpreters outputDir => setupInterpreters outputDir s
  end.

(** ** Facts about [parse] *)

Lemma afterParse_frame t s :
  let s' := snd (afterParse t s) in
  fst (afterParse t s) = (imports (info s) ++ snd (detailsListener t)) /\
  tree s' = Some t /\
  diagnostics s' = diagnostics s /\
  semanticAnalysisDone s' = semanticAnalysisDone s /\
  grammarLexerData s' = grammarLexerData s /\
  grammarParserData s' = grammarParserData s /\
  grammarLexerRuleMap s' = grammarLexerRuleMap s /\
  symbols (symbolTable s') = (symbols (symbolTable s) ++ fst (detailsListener t)) /\
  tableDependencies (symbolTable s') = tableDependencies (symbolTable s).
Proof.
  unfold afterParse. destruct (detailsListener t) as [defined imported].
  case_decide; [destruct (grammarType t) as [[lexer parser]|]|]; simpl; auto 10.
Qed.

(** The state [parse] has written when it reaches the [try] block. *)
Definition beforeTry (s : SourceContext) : SourceContext :=
  set_symbolTable (addDependencies GlobalSymbols (clear (symbolTable s)))
    (set_diagnostics []
       (set_semanticAnalysisDone false
          (set_grammarLexerRuleMap ∅
             (set_grammarParserData None
                (set_grammarLexerRuleMap ∅
                   (set_grammarLexerData None
                      (set_info (set_imports [] (set_type Unknown (info s)))
                         (set_tree None
                            (set_parser (Some fastParser)
                               (set_tokenStream (seek 0 (tokenStream s)) s)))))))))).

(** What [parse] leaves in the fields it rebuilds, in terms of the parser runs
    alone. *)
Definition rebuilt (text : string) (r : Runtime)
  : (Exception + Tree) * list DiagnosticEntry :=
  let ts := {| source := text; index := 0 |} in
  let '(run1, r1) := grammarSpec fastParser ts r in
  match outcome run1 with
  | inr t => (inr t, reported run1)
  | inl e =>
      if isParseCancellation e then
        let '(run2, r2) := grammarSpec generalParser ts r1 in
        (outcome run2, (reported run1 ++ reported run2))
      else (inl e, reported run1)
  end.

Lemma parse_rebuilt s r :
  let '(result, s', _) := parse s r in
  let '(out, ds) := rebuilt (source (tokenStream s)) r in
  diagnostics s' = ds /\
  semanticAnalysisDone s' = false /\
  grammarLexerData s' = None /\
  grammarParserData s' = None /\
  grammarLexerRuleMap s' = ∅ /\
  tableDependencies (symbolTable s') = [GlobalSymbols] /\
  match out with
  | inr t => tree s' = Some t /\ symbols (symbolTable s') = fst (detailsListener t) /\
             result = inr (snd (detailsListener t))
  | inl e => tree s' = None /\ symbols (symbolTable s') = [] /\ result = inl e
  end.
Proof.
  unfold parse, rebuilt, runParser, seek. simpl.
  destruct (grammarSpec fastParser _ r) as [run1 r1]. destruct (outcome run1) as [e|t].
  - destruct (isParseCancellation e); [|simpl; auto 10].
    simpl. destruct (grammarSpec generalParser _ r1) as [run2 r2].
    destruct (outcome run2) as [e2|t2]; [simpl; auto 10|].
    match goal with |- context [afterParse t2 ?s0] =>
      pose proof (afterParse_frame t2 s0) as H; destruct (afterParse t2 s0) as [res s']
    end.
    simpl in H. destruct H as (-> & ? & -> & -> & -> & -> & -> & -> & ->). eauto 12.
  - match goal with |- context [afterParse t ?s0] =>
      pose proof (afterParse_frame t s0) as H; destruct (afterParse t s0) as [res s']
    end.
    simpl in H. destruct H as (-> & ? & -> & -> & -> & -> & -> & -> & ->).
    eauto 12.
Qed.

Lemma runSemanticAnalysisIfNeeded_done s :
  semanticAnalysisDone s = true -> runSemanticAnalysisIfNeeded s = (None, s).
Proof. intros H. unfold runSemanticAnalysisIfNeeded. by rewrite H. Qed.

Lemma serve_done q s : semanticAnalysisDone s = true -> serve q s = s.
Proof.
  intros H. destruct q; simpl;
    unfold getDiagnostics, getReferenceGraph, getRRDScript;
    by rewrite runSemanticAnalysisIfNeeded_done.
Qed.

Lemma serve_runs q s : serve q s = snd (runSemanticAnalysisIfNeeded s).
Proof.
  destruct q; simpl; unfold getDiagnostics, getReferenceGraph, getRRDScript;
    by destruct (runSemanticAnalysisIfNeeded s) as [[e|] s'].
Qed.

Lemma setupInterpreters_frame outputDir s :
  semanticAnalysisDone (setupInterpreters outputDir s) = semanticAnalysisDone s /\
  diagnostics (setupInterpreters outputDir s) = diagnostics s.
Proof.
  unfold setupInterpreters. destruct (interpreterFiles outputDir s) as [lexerFile parserFile].
  destruct (existsSync lexerFile), (existsSync parserFile); by simpl.
Qed.

Lemma perform_done o s :
  semanticAnalysisDone s = true ->
  semanticAnalysisDone (perform o s) = true /\ diagnostics (perform o s) = diagnostics s.
Proof.
  intros H. destruct o as [q|text|outputDir]; simpl.
  - by rewrite serve_done.
  - done.
  - destruct (setupInterpreters_frame outputDir s) as [-> ->]. done.
Qed.

(** C3 (amended).  Whatever the context held before, [parse] leaves a context
    whose two interpreter-data blocks are undefined, whose lexer rule map is
    empty, whose analysis flag is down, and whose diagnostics, symbols and
    table dependencies are those of this parse alone: they are the same from
    any other context holding the same text.  The data blocks come back only
    through [setupInterpreters], which loads what the files give. *)
Theorem parse_discards_previous_state s r :
  let '(result, s', _) := parse s r in
  grammarLexerData s' = None /\
  grammarParserData s' = None /\
  grammarLexerRuleMap s' = ∅ /\
  semanticAnalysisDone s' = false /\
  (forall s0, source (tokenStream s0) = source (tokenStream s) ->
     let '(result0, s0', _) := parse s0 r in
     result0 = result /\
     diagnostics s0' = diagnostics s' /\
     symbols (symbolTable s0') = symbols (symbolTable s') /\
     tableDependencies (symbolTable s0') = tableDependencies (symbolTable s')) /\
  (forall q, grammarLexerData (serve q s') = None /\ grammarParserData (serve q s') = None) /\
  (forall outputDir,
     let '(lexerFile, parserFile) := interpreterFiles outputDir s' in
     grammarLexerData (setupInterpreters outputDir s') =
       (if existsSync lexerFile then Some (parseFile lexerFile) else None) /\
     grammarParserData (setupInterpreters outputDir s') =
       (if existsSync parserFile then Some (parseFile parserFile) else None)).
Proof.
  pose proof (parse_rebuilt s r) as H.
  destruct (parse s r) as [[result s'] r'].
  destruct (rebuilt (source (tokenStream s)) r) as [out ds] eqn:Hout.
  destruct H as (Hd & Hdone & Hl & Hp & Hm & Hdeps & Hrest).
  repeat (split; [done|]). split; [|split].
  - intros s0 Hsrc. pose proof (parse_rebuilt s0 r) as H0.
    destruct (parse s0 r) as [[result0 s0'] r0'].
    rewrite Hsrc, Hout in H0.
    destruct H0 as (Hd0 & _ & _ & _ & _ & Hdeps0 & Hrest0).
    rewrite Hd, Hd0, Hdeps, Hdeps0.
    destruct out as [e|t].
    + destruct Hrest as (_ & -> & ->), Hrest0 as (_ & -> & ->). done.
    + destruct Hrest as (_ & -> & ->), Hrest0 as (_ & -> & ->). done.
  - intros q. rewrite serve_runs. unfold runSemanticAnalysisIfNeeded. rewrite Hdone.
    simpl. destruct (tree s') as [t|]; [|done].
    destruct (semanticListener t (symbolTable s')) as [found table]. done.
  - intros outputDir. unfold setupInterpreters.
    destruct (interpreterFiles outputDir s') as [lexerFile parserFile].
    destruct (existsSync lexerFile), (existsSync parserFile); done.
Qed.

(** C9.  After a [parse] that returned, the analysis flag is down; the first
    request among [getDiagnostics], [getReferenceGraph] and [getRRDScript]
    runs the semantic walk, which raises the flag and appends its findings to
    the diagnostics of the parse; every later request, and every other
    operation short of [parse], leaves flag and diagnostics as they are; a new
    [parse] lowers the flag and starts the diagnostics afresh. *)
Theorem semantic_analysis_once_per_parse s r imported s1 r1 q qs :
  parse s r = (inr imported, s1, r1) ->
  let s2 := serve q s1 in
  semanticAnalysisDone s1 = false /\
  diagnostics s1 = snd (rebuilt (source (tokenStream s)) r) /\
  (exists t, tree s1 = Some t /\
     diagnostics s2 = (diagnostics s1 ++ fst (semanticListener t (symbolTable s1))) /\
     rrdScripts s2 = Some (ruleVisitor t)) /\
  semanticAnalysisDone s2 = true /\
  foldl (fun s' q' => serve q' s') s2 qs = s2 /\
  getDiagnostics s2 = (inr (diagnostics s2), s2) /\
  (forall o, semanticAnalysisDone (perform o s2) = true /\
             diagnostics (perform o s2) = diagnostics s2) /\
  (forall r', let '(_, s3, _) := parse s2 r' in
              semanticAnalysisDone s3 = false /\
              diagnostics s3 = snd (rebuilt (source (tokenStream s2)) r')).
Proof.
  intros Hparse s2. pose proof (parse_rebuilt s r) as H. rewrite Hparse in H.
  destruct (rebuilt (source (tokenStream s)) r) as [out ds].
  destruct H as (Hd & Hdone & _ & _ & _ & _ & Hrest).
  destruct out as [e|t]; [by destruct Hrest as (_ & _ & ?)|].
  destruct Hrest as (Htree & _ & _).
  assert (Hs2 : s2 = snd (runSemanticAnalysisIfNeeded s1)) by apply serve_runs.
  unfold runSemanticAnalysisIfNeeded in Hs2. rewrite Hdone in Hs2. simpl in Hs2.
  rewrite Htree in Hs2.
  destruct (semanticListener t (symbolTable s1)) as [found table] eqn:Hwalk.
  simpl in Hs2.
  assert (Hdone2 : semanticAnalysisDone s2 = true) by by rewrite Hs2.
  split; [done|]. split; [done|]. split.
  { exists t. rewrite Hs2, Hwalk. done. }
  split; [done|]. split.
  { induction qs as [|q' qs IH]; [done|]. simpl. by rewrite serve_done. }
  split.
  { unfold getDiagnostics. by rewrite runSemanticAnalysisIfNeeded_done. }
  split.
  { intros o. by apply perform_done. }
  intros r'. pose proof (parse_rebuilt s2 r') as H.
  destruct (parse s2 r') as [[result3 s3] r3].
  destruct (rebuilt (source (tokenStream s2)) r') as [out3 ds3].
  destruct H as (? & ? & _). done.
Qed.

End WithCollaborators.

Arguments symbols {Tree Symbol}.
Arguments tableDependencies {Tree Symbol}.
Arguments tableTree {Tree Symbol}.
Arguments outcome {Tree DiagnosticEntry}.
Arguments reported {Tree DiagnosticEntry}.
Arguments position {Tree DiagnosticEntry}.
Arguments fileName {Tree Symbol DiagnosticEntry InterpreterData}.
Arguments symbolTable {Tree Symbol DiagnosticEntry InterpreterData}.
Arguments info {Tree Symbol DiagnosticEntry InterpreterData}.
Arguments diagnostics {Tree Symbol DiagnosticEntry InterpreterData}.
Arguments rrdScripts {Tree Symbol DiagnosticEntry InterpreterData}.
Arguments semanticAnalysisDone {Tree Symbol DiagnosticEntry InterpreterData}.
Arguments tokenStream {Tree Symbol DiagnosticEntry InterpreterData}.
Arguments parser {Tree Symbol DiagnosticEntry InterpreterData}.
Arguments grammarLexerData {Tree Symbol DiagnosticEntry InterpreterData}.
Arguments grammarLexerRuleMap {Tree Symbol DiagnosticEntry InterpreterData}.
Arguments grammarParserData {Tree Symbol DiagnosticEntry InterpreterData}.
Arguments grammarParserRuleMap {Tree Symbol DiagnosticEntry InterpreterData}.
Arguments tree {Tree Symbol DiagnosticEntry InterpreterData}.

(** ** The two parse attempts, observed through a recording runtime *)

Section Retry.

Variables (Tree Symbol DiagnosticEntry InterpreterData : Type).

(** What the generated parser answers for a configuration and a token stream. *)
Variable answer : ANTLRv4Parser -> CommonTokenStream -> ParseRun Tree DiagnosticEntry.

Variable childCount : Tree -> nat.
Variable grammarType : Tree -> option (bool * bool).
Variable detailsListener : Tree -> list Symbol * list string.
Variable getUnreferencedSymbols : ContextSymbolTable Tree Symbol -> list string.





End Retry.

(** ** A small grammar file, for concrete runs *)

Module Example.

(** Every parse returns a tree without syntax errors; the structural walk
    defines one rule; the semantic walk reports one finding. *)
Definition answer (p : ANTLRv4Parser) (ts : CommonTokenStream) : ParseRun unit string :=
  {| outcome := inr tt; reported := []; position := String.length (source ts) |}.

Definition parse_it (s : SourceContext unit string string (list string)) :=
  parse unit string string (list string) unit (fun p ts r => (answer p ts, r))
        (fun _ => 1%nat) (fun _ => Some (false, false))
        (fun _ => (["r"], [])) (fun _ => ["r"]) s tt.

Definition serve_it (q : Request) (s : SourceContext unit string string (list string)) :=
  serve unit string string (list string)
        (fun _ table => (["unknown symbol"], table)) (fun _ => ∅)
        unit (fun _ => tt) q s.

(** A context whose lexer interpreter data has been loaded. *)
Definition loaded : SourceContext unit string string (list string) :=
  {| fileName := "T.g4";
     symbolTable := {| symbols := ["old"]; tableDependencies := [GlobalSymbols];
                       tableTree := Some tt |};
     info := {| type := Combined; unreferencedRules := []; imports := [] |};
     diagnostics := ["stale"];
     rrdScripts := None;
     semanticAnalysisDone := true;
     tokenStream := {| source := "grammar T; r: 'a' 'b' ;"; index := 0 |};
     parser := None;
     grammarLexerData := Some ["A"; "B"];
     grammarLexerRuleMap := {[ "A" := 0%nat; "B" := 1%nat ]};
     grammarParserData := Some ["r"];
     grammarParserRuleMap := {[ "r" := 0%nat ]};
     tree := Some tt |}.

End Example.

(** C3 (counterexample).  A context with loaded lexer and parser interpreter
    data has neither after [parse]: the data does not survive the call. *)
Lemma parse_drops_interpreter_data :
  let s' := snd (fst (Example.parse_it Example.loaded)) in
  grammarLexerData Example.loaded = Some ["A"; "B"] /\
  grammarParserData Example.loaded = Some ["r"] /\
  grammarLexerData s' <> grammarLexerData Example.loaded /\
  grammarParserData s' <> grammarParserData Example.loaded.
Proof. cbv. repeat split; congruence. Qed.

(** The run of [parse] on the example returns, so the analysis cycle of C9
    applies to it: no diagnostics after the parse, the finding of the walk
    after the first request, and the flag up. *)
Lemma semantic_analysis_once_per_parse_witness :
  let s1 := snd (fst (Example.parse_it Example.loaded)) in
  let s2 := Example.serve_it GetDiagnostics s1 in
  Example.parse_it Example.loaded = (inr [], s1, tt) /\
  diagnostics s1 = [] /\
  diagnostics s2 = ["unknown symbol"] /\
  semanticAnalysisDone s2 = true.
Proof.
  assert (Hparse : Example.parse_it Example.loaded
                   = (inr [], snd (fst (Example.parse_it Example.loaded)), tt))
    by (cbv; reflexivity).
  pose proof (semantic_analysis_once_per_parse
                unit string string (list string) unit
                (fun p ts r => (Example.answer p ts, r))
                (fun _ => 1%nat) (fun _ => Some (false, false))
                (fun _ => (["r"], [])) (fun _ => ["r"])
                (fun _ table => (["unknown symbol"], table)) (fun _ => ∅)
                unit (fun _ => tt) (fun _ _ => "") (fun _ => "") (fun _ _ => "")
                (fun _ => false) (fun _ => []) (fun d => d)
                Example.loaded tt _ _ _ GetDiagnostics [GetReferenceGraph] Hparse) as H.
  cbv zeta in H. destruct H as (_ & Hd1 & (t & _ & Hd2 & _) & Hup & _).
  split; [exact Hparse|]. split; [exact Hd1|]. split; [exact Hd2|]. exact Hup.
Defined.

End Context.

(** * The automaton graph of a rule *)

Module ATN.

Import Context.

Local Open Scope string_scope.
Local Open Scope list_scope.

Inductive ATNStateType :=
| INVALID_TYPE | BASIC | RULE_START | BLOCK_START | PLUS_BLOCK_START | STAR_BLOCK_START
| TOKEN_START | RULE_STOP | BLOCK_END | STAR_LOOP_BACK | STAR_LOOP_ENTRY | PLUS_LOOP_BACK
| LOOP_END.

Global Instance ATNStateType_eq_dec : EqDecision ATNStateType.
Proof. solve_decision. Defined.

(** The numeric value of the enumeration, as stored in a node. *)
Definition stateTypeTag (t : ATNStateType) : Z :=
  match t with
  | INVALID_TYPE => 0 | BASIC => 1 | RULE_START => 2 | BLOCK_START => 3
  | PLUS_BLOCK_START => 4 | STAR_BLOCK_START => 5 | TOKEN_START => 6 | RULE_STOP => 7
  | BLOCK_END => 8 | STAR_LOOP_BACK => 9 | STAR_LOOP_ENTRY => 10 | PLUS_LOOP_BACK => 11
  | LOOP_END => 12
  end.

Inductive TransitionType :=
| EPSILON | RANGE | RULE | PREDICATE | ATOM | ACTION | SET | NOT_SET | WILDCARD | PRECEDENCE.

(** An interval set is the list of its closed intervals. *)
Definition IntervalSet : Type := list (Z * Z).

(** The transition classes.  A reference to a state is the state's number. *)
Inductive Transition :=
| EpsilonTransition (target : nat)
| RangeTransition (target : nat) (from to : Z)
| RuleTransition (ruleStart : nat) (ruleIndex : nat) (precedence : Z) (followState : nat)
| PredicateTransition (target : nat) (ruleIndex predIndex : Z) (isCtxDependent : bool)
| AtomTransition (target : nat) (label : Z)
| ActionTransition (target : nat) (ruleIndex actionIndex : Z) (isCtxDependent : bool)
| SetTransition (target : nat) (set : IntervalSet)
| NotSetTransition (target : nat) (set : IntervalSet)
| WildcardTransition (target : nat)
| PrecedencePredicateTransition (target : nat) (precedence : Z).

Definition target (t : Transition) : nat :=
  match t with
  | EpsilonTransition n | RangeTransition n _ _ | RuleTransition n _ _ _
  | PredicateTransition n _ _ _ | AtomTransition n _ | ActionTransition n _ _ _
  | SetTransition n _ | NotSetTransition n _ | WildcardTransition n
  | PrecedencePredicateTransition n _ => n
  end.

Definition serializationType (t : Transition) : TransitionType :=
  match t with
  | EpsilonTransition _ => EPSILON
  | RangeTransition _ _ _ => RANGE
  | RuleTransition _ _ _ _ => RULE
  | PredicateTransition _ _ _ _ => PREDICATE
  | AtomTransition _ _ => ATOM
  | ActionTransition _ _ _ _ => ACTION
  | SetTransition _ _ => SET
  | NotSetTransition _ _ => NOT_SET
  | WildcardTransition _ => WILDCARD
  | PrecedencePredicateTransition _ _ => PRECEDENCE
  end.

Definition isEpsilon (t : Transition) : bool :=
  match t with
  | EpsilonTransition _ | RuleTransition _ _ _ _ | PredicateTransition _ _ _ _
  | ActionTransition _ _ _ _ | PrecedencePredicateTransition _ _ => true
  | _ => false
  end.

(** [transition.label]; [None] is the host's [undefined]. *)
Definition label (t : Transition) : option IntervalSet :=
  match t with
  | RangeTransition _ from to => Some [(from, to)]
  | AtomTransition _ l => Some [(l, l)]
  | SetTransition _ s | NotSetTransition _ s => Some s
  | _ => None
  end.

(** [(transition as RuleTransition).followState]: only a rule transition has
    the property. *)
Definition followState (t : Transition) : option nat :=
  match t with
  | RuleTransition _ _ _ f => Some f
  | _ => None
  end.

Record ATNState := {
  stateType : ATNStateType;
  ruleIndex : nat;
  transitions : list Transition;
}.

Record ATN := {
  states : list ATNState;
  ruleToStartState : list nat;
  ruleToStopState : list nat;
}.

Record ATNNode := { id : Z; name : option string; type : Z }.

Record ATNLink := {
  source : nat;
  linkTarget : nat;
  linkType : TransitionType;
  labels : list string;
}.

Record ATNGraphData := { links : list ATNLink; nodes : list ATNNode }.

(** ** Rendering of labels *)

Definition hexDigit (d : Z) : Ascii.ascii :=
  Ascii.ascii_of_nat (Z.to_nat (if decide (d < 10) then 48 + d else 55 + d)).

Fixpoint toHex (fuel : nat) (n : Z) (acc : string) : string :=
  match fuel with
  | O => acc
  | S fuel' =>
      let acc' := String (hexDigit (n mod 16)) acc in
      if decide (n / 16 = 0) then acc' else toHex fuel' (n / 16) acc'
  end.

(** [char.toString(16).toUpperCase()] for a non-negative code point. *)
Definition toStringHexUpper (n : Z) : string := toHex (S (Z.to_nat (Z.log2 n))) n "".

Definition characterRepresentation (char : Z) : string :=
  if decide (char < 0) then "EOF"
  else if decide ((33 <= char /\ char <= 127) \/ (161 <= char /\ char <= 255))
       then ("'" ++ String (Ascii.ascii_of_nat (Z.to_nat char)) "" ++ "'")%string
       else ("\u" ++ toStringHexUpper char)%string.

Definition intervalSetToStrings (set : IntervalSet) : list string :=
  map (fun '(a, b) =>
         if decide (a = b) then characterRepresentation a
         else (characterRepresentation a ++ " - " ++ characterRepresentation b)%string)
      set.

(** [IntervalSet.toArray]: every member, interval after interval. *)
Definition toArray (set : IntervalSet) : list Z :=
  flat_map (fun '(a, b) => seqZ a (b - a + 1)) set.

Section Extraction.

(** The vocabulary of the antlr runtime. *)
Variable Vocabulary : Type.
Variable getDisplayName : Vocabulary -> Z -> string.

Record InterpreterData := {
  atn : ATN;
  ruleNames : list string;
  vocabulary : Vocabulary;
}.

(** [String.prototype.toUpperCase] of the host. *)
Variable toUpperCase : string -> string.

(** The traversal for one rule: the automaton, its rule names and vocabulary,
    the kind of rule and the stop state of the rule. *)
Section Traversal.

Variable data : InterpreterData.
Variable isLexerRule : bool.
Variable stopState : option nat.

(** The state object behind a reference. *)
Definition stateAt (n : nat) : ATNState :=
  default {| stateType := INVALID_TYPE; ruleIndex := 0; transitions := [] |}
          (states (atn data) !! n).

Definition getTransitions (n : nat) : list Transition := transitions (stateAt n).

(** The locals of [getATNGraph] that the loop and [ensureATNNode] update. *)
Record Locals := {
  seenStates : list nat;
  pipeline : list nat;
  result : ATNGraphData;
  stateToIndex : gmap Z nat;
  currentRuleIndex : Z;
}.

Definition pushNode (n : ATNNode) (x : Locals) : Locals :=
  {| seenStates := seenStates x; pipeline := pipeline x;
     result := {| links := links (result x); nodes := nodes (result x) ++ [n] |};
     stateToIndex := stateToIndex x; currentRuleIndex := currentRuleIndex x |}.

Definition pushLink (l : ATNLink) (x : Locals) : Locals :=
  {| seenStates := seenStates x; pipeline := pipeline x;
     result := {| links := links (result x) ++ [l]; nodes := nodes (result x) |};
     stateToIndex := stateToIndex x; currentRuleIndex := currentRuleIndex x |}.

Definition setIndex (k : Z) (i : nat) (x : Locals) : Locals :=
  {| seenStates := seenStates x; pipeline := pipeline x; result := result x;
     stateToIndex := <[k := i]> (stateToIndex x); currentRuleIndex := currentRuleIndex x |}.

Definition decrementRuleIndex (x : Locals) : Locals :=
  {| seenStates := seenStates x; pipeline := pipeline x; result := result x;
     stateToIndex := stateToIndex x; currentRuleIndex := currentRuleIndex x - 1 |}.

Definition setPipeline (p : list nat) (x : Locals) : Locals :=
  {| seenStates := seenStates x; pipeline := p; result := result x;
     stateToIndex := stateToIndex x; currentRuleIndex := currentRuleIndex x |}.

(** [seenStates.add(nextState); pipeline.push(nextState)]. *)
Definition enqueue (n : nat) (x : Locals) : Locals :=
  {| seenStates := seenStates x ++ [n]; pipeline := pipeline x ++ [n]; result := result x;
     stateToIndex := stateToIndex x; currentRuleIndex := currentRuleIndex x |}.

(** The fake node added when [transitions] is a single transition into a rule
    start state. *)
Definition ruleCall (state : nat) : option Transition :=
  match getTransitions state with
  | [t] => if decide (stateType (stateAt (target t)) = RULE_START) then Some t else None
  | _ => None
  end.

Definition ensureATNNode (id' : Z) (state : nat) (x : Locals) : nat * Locals :=
  match stateToIndex x !! id' with
  | Some index => (index, x)
  | None =>
      let index := length (nodes (result x)) in
      let x := setIndex id' index x in
      let x := pushNode {| id := id'; name := Some (pretty id');
                           type := stateTypeTag (stateType (stateAt state)) |} x in
      let x :=
        match ruleCall state with
        | Some t =>
            let marker := Z.of_nat state * Z.of_nat (target t) in
            let x := setIndex marker (length (nodes (result x))) x in
            let x := pushNode {| id := currentRuleIndex x;
                                 name := ruleNames data !! ruleIndex (stateAt (target t));
                                 type := 13 |} x in
            decrementRuleIndex x
        | None => x
        end in
      (index, x)
  end.

(** The labels of a link, by kind of transition. *)
Definition linkLabels (transition : Transition) : list string :=
  match transition with
  | ActionTransition _ _ actionIndex _ =>
      let index := if decide (actionIndex = 65535) then -1 else actionIndex in
      if isLexerRule then [("<lexer action " ++ pretty index ++ ">")%string]
      else [("<parser action " ++ pretty index ++ ">")%string]
  | PredicateTransition _ _ predIndex _ => [("<predicate " ++ pretty predIndex ++ ">")%string]
  | PrecedencePredicateTransition _ precedence =>
      [("<precedence predicate " ++ pretty precedence ++ ">")%string]
  | _ =>
      if isEpsilon transition then ["ε"]
      else match label transition with
           | Some set =>
               if isLexerRule then intervalSetToStrings set
               else map (getDisplayName (vocabulary data)) (toArray set)
           | None => []
           end
  end.

(** The body of the [for] loop for one transition of [state]. *)
Definition followTransition (state : nat) (sourceIndex : nat) (x : Locals)
    (transition : Transition) : Exception + Locals :=
  if decide (Some state = stopState) then inr x
  else
    let transitsToRule :=
      bool_decide (stateType (stateAt (target transition)) = RULE_START) in
    let marker :=
      Z.of_nat (target transition) * (if transitsToRule then Z.of_nat state else 1) in
    let '(targetIndex, x) := ensureATNNode marker (target transition) x in
    let link := {| source := sourceIndex; linkTarget := targetIndex;
                   linkType := serializationType transition;
                   labels := linkLabels transition |} in
    let x := pushLink link x in
    let next :=
      if transitsToRule then
        match followState transition with
        | Some nextState =>
            let '(returnIndex, x) := ensureATNNode (Z.of_nat nextState) nextState x in
            let nodeLink := {| source := targetIndex; linkTarget := returnIndex;
                               linkType := RULE; labels := ["ε"] |} in
            inr (nextState, pushLink nodeLink x)
        | None => inl TypeError
        end
      else inr (target transition, x) in
    match next with
    | inl e => inl e
    | inr (nextState, x) =>
        if decide (nextState ∈ seenStates x) then inr x else inr (enqueue nextState x)
    end.

Fixpoint forTransitions (state : nat) (sourceIndex : nat) (ts : list Transition) (x : Locals)
  : Exception + Locals :=
  match ts with
  | [] => inr x
  | transition :: ts' =>
      match followTransition state sourceIndex x transition with
      | inl e => inl e
      | inr x' => forTransitions state sourceIndex ts' x'
      end
  end.

(** One iteration of the [while] loop, for the state at the head of the
    pipeline. *)
Definition expand (state : nat) (x : Locals) : Exception + Locals :=
  let '(sourceIndex, x) := ensureATNNode (Z.of_nat state) state x in
  forTransitions state sourceIndex (getTransitions state) x.

(** The [while (pipeline.length > 0)] loop; [None] when [fuel] iterations were
    not enough. *)
Fixpoint traverse (fuel : nat) (x : Locals) : option (Exception + Locals) :=
  match fuel with
  | O => None
  | S fuel' =>
      match pipeline x with
      | [] => Some (inr x)
      | state :: rest =>
          match expand state (setPipeline rest x) with
          | inl e => Some (inl e)
          | inr x' => traverse fuel' x'
          end
      end
  end.

(** The states expanded by the loop, in order. *)
Fixpoint expansions (fuel : nat) (x : Locals) : list nat :=
  match fuel with
  | O => []
  | S fuel' =>
      match pipeline x with
      | [] => []
      | state :: rest =>
          state :: match expand state (setPipeline rest x) with
                   | inl e => []
                   | inr x' => expansions fuel' x'
                   end
      end
  end.

Definition initial (startState : nat) : Locals :=
  {| seenStates := [startState]; pipeline := [startState];
     result := {| links := []; nodes := [] |};
     stateToIndex := ∅; currentRuleIndex := -1 |}.

(** The references to states that occur in the automaton.  Together with the
    start state they bound what the loop can ever enqueue. *)
Definition mentioned : list nat :=
  flat_map (fun st => flat_map (fun t => target t :: option_list (followState t))
                               (transitions st))
           (states (atn data)).

Definition enough : nat := S (S (length mentioned)).

End Traversal.

(** ** [getATNGraph] *)

Section GetATNGraph.

Variables (Tree Symbol DiagnosticEntry : Type).

Local Abbreviation SourceContext := (Context.SourceContext Tree Symbol DiagnosticEntry InterpreterData).

(** [rule[0] === rule[0].toUpperCase()]; reading a property of [undefined]
    throws. *)
Definition isLexerRuleName (rule : string) : Exception + bool :=
  match rule with
  | EmptyString => inl TypeError
  | String c _ => inr (bool_decide (String c "" = toUpperCase (String c "")))
  end.

(** The part of [getATNGraph] before the traversal: the kind of rule, the
    data to use and the index of the rule, or [undefined]. *)
Definition selectRule (this : SourceContext) (rule : string)
  : Exception + option (bool * InterpreterData * nat) :=
  match isLexerRuleName rule with
  | inl e => inl e
  | inr isLexerRule =>
      match (if isLexerRule then grammarLexerData this else grammarParserData this) with
      | None => inr None
      | Some data =>
          let ruleIndexMap :=
            if isLexerRule then grammarLexerRuleMap this else grammarParserRuleMap this in
          match ruleIndexMap !! rule with
          | None => inr None
          | Some ruleIndex => inr (Some (isLexerRule, data, ruleIndex))
          end
      end
  end.

(** The traversal with the final locals; [getATNGraph] returns their
    [result]. *)
Definition runGraph (fuel : nat) (this : SourceContext) (rule : string)
  : option (Exception + option Locals) :=
  match selectRule this rule with
  | inl e => Some (inl e)
  | inr None => Some (inr None)
  | inr (Some (isLexerRule, data, ruleIndex)) =>
      match ruleToStartState (atn data) !! ruleIndex with
      | None => Some (inl TypeError)
      | Some startState =>
          let stopState := ruleToStopState (atn data) !! ruleIndex in
          match traverse data isLexerRule stopState fuel (initial startState) with
          | None => None
          | Some (inl e) => Some (inl e)
          | Some (inr x) => Some (inr (Some x))
          end
      end
  end.

(** [getATNGraph].  The outer [None] stands for a traversal that needs more
    iterations than [enough] allows. *)
Definition getATNGraph (this : SourceContext) (rule : string)
  : option (Exception + option ATNGraphData) :=
  let fuel :=
    match selectRule this rule with
    | inr (Some (_, data, _)) => enough data
    | _ => 1%nat
    end in
  match runGraph fuel this rule with
  | None => None
  | Some (inl e) => Some (inl e)
  | Some (inr None) => Some (inr None)
  | Some (inr (Some x)) => Some (inr (Some (result x)))
  end.

End GetATNGraph.

(** ** What the traversal is measured against *)

Section TraversalFacts.

Variable data : InterpreterData.
Variable isLexerRule : bool.
Variable stopState : option nat.

Local Abbreviation stateAt := (stateAt data).
Local Abbreviation getTransitions := (getTransitions data).
Local Abbreviation ensureATNNode := (ensureATNNode data).
Local Abbreviation followTransition := (followTransition data isLexerRule stopState).
Local Abbreviation forTransitions := (forTransitions data isLexerRule stopState).
Local Abbreviation expand := (expand data isLexerRule stopState).
Local Abbreviation traverse := (traverse data isLexerRule stopState).
Local Abbreviation expansions := (expansions data isLexerRule stopState).

(** The state the traversal continues with after a transition: the follow
    state for a transition into a rule start state, the target otherwise. *)
Definition nextStateOf (t : Transition) : option nat :=
  if decide (stateType (stateAt (target t)) = RULE_START) then followState t
  else Some (target t).

(** The states reachable from the start state of the rule without leaving
    the stop state. *)
Inductive reachable (startState : nat) : nat -> Prop :=
| reachable_start : reachable startState startState
| reachable_next s t n :
    reachable startState s -> Some s <> stopState ->
    t ∈ getTransitions s -> nextStateOf t = Some n ->
    reachable startState n.

(** The nodes that stand for a rule (tag 13) and the others. *)
Definition synthetic (g : ATNGraphData) : list ATNNode :=
  filter (fun n => type n = 13) (nodes g).

Definition regular (g : ATNGraphData) : list ATNNode :=
  filter (fun n => type n <> 13) (nodes g).

(** Every state with a transition into a rule start state has no other
    transition. *)
Definition singleCall (st : ATNState) : bool :=
  forallb (fun t => bool_decide (stateType (stateAt (target t)) <> RULE_START)
                    || bool_decide (length (transitions st) = 1%nat))
          (transitions st).

Definition callSitesAreSingle : bool := forallb singleCall (states (atn data)).

(** *** [ensureATNNode] *)

Lemma stateTypeTag_regular ty : stateTypeTag ty <> 13.
Proof. by destruct ty. Qed.

Lemma ensureATNNode_frame id' state x :
  let x' := snd (ensureATNNode id' state x) in
  seenStates x' = seenStates x /\ pipeline x' = pipeline x /\
  links (result x') = links (result x).
Proof.
  unfold ensureATNNode. destruct (stateToIndex x !! id'); [done|].
  destruct (ruleCall data state); done.
Qed.

Lemma ensureATNNode_known id' state x index :
  stateToIndex x !! id' = Some index -> ensureATNNode id' state x = (index, x).
Proof. intros H. unfold ensureATNNode. by rewrite H. Qed.

Lemma ensureATNNode_dom id' state x k :
  is_Some (stateToIndex x !! k) \/ k = id' ->
  is_Some (stateToIndex (snd (ensureATNNode id' state x)) !! k).
Proof.
  unfold ensureATNNode. destruct (stateToIndex x !! id') as [i|] eqn:Hid.
  - simpl. intros [?| ->]; [done | by rewrite Hid].
  - simpl. intros Hk.
    assert (is_Some (<[id' := length (nodes (result x))]> (stateToIndex x) !! k)) as Hk'.
    { destruct (decide (k = id')) as [->|Hne]; [by rewrite lookup_insert_eq|].
      rewrite lookup_insert_ne by done. by destruct Hk. }
    destruct (ruleCall data state) as [t|]; simpl; [|done].
    destruct (decide (k = Z.of_nat state * Z.of_nat (target t))) as [->|Hne];
      [by rewrite lookup_insert_eq | by rewrite lookup_insert_ne].
Qed.

(** A fresh identifier gets a node carrying it and the state's type; when the
    state's only transition enters a rule, a node with tag 13 and the name of
    that rule follows, registered under the product of the two state
    numbers. *)
Lemma ensureATNNode_fresh id' state x :
  stateToIndex x !! id' = None ->
  let own := {| id := id'; name := Some (pretty id');
                type := stateTypeTag (stateType (stateAt state)) |} in
  let x' := snd (ensureATNNode id' state x) in
  fst (ensureATNNode id' state x) = length (nodes (result x)) /\
  match ruleCall data state with
  | Some t =>
      nodes (result x') =
        nodes (result x) ++
          [own; {| id := currentRuleIndex x;
                   name := ruleNames data !! ruleIndex (stateAt (target t));
                   type := 13 |}] /\
      stateToIndex x' =
        <[Z.of_nat state * Z.of_nat (target t) := S (length (nodes (result x)))]>
          (<[id' := length (nodes (result x))]> (stateToIndex x)) /\
      currentRuleIndex x' = currentRuleIndex x - 1
  | None =>
      nodes (result x') = nodes (result x) ++ [own] /\
      stateToIndex x' = <[id' := length (nodes (result x))]> (stateToIndex x) /\
      currentRuleIndex x' = currentRuleIndex x
  end.
Proof.
  intros H. unfold ensureATNNode. rewrite H.
  destruct (ruleCall data state) as [t|]; simpl; [|done].
  split; [done|]. rewrite <- app_assoc. simpl. rewrite length_app. simpl.
  replace (length (nodes (result x)) + 1)%nat with (S (length (nodes (result x)))) by lia.
  done.
Qed.

Lemma regular_app g1 l :
  regular {| links := g1; nodes := l |} = filter (fun n => type n <> 13) l.
Proof. done. Qed.

Lemma nodes_split (g : ATNGraphData) :
  length (nodes g) = (length (regular g) + length (synthetic g))%nat.
Proof.
  unfold regular, synthetic. induction (nodes g) as [|n l IH]; [done|].
  rewrite !filter_cons. destruct (decide (type n = 13)) as [He|Hne].
  - rewrite decide_False by (intros H; by apply H). simpl. lia.
  - rewrite decide_True by done. simpl. lia.
Qed.

(** *** The worklist *)

(** A transition either leaves the worklist alone or appends the state the
    traversal continues with, which was not seen before; nothing is appended
    for the stop state. *)
Lemma followTransition_queue state sourceIndex x t x' :
  followTransition state sourceIndex x t = inr x' ->
  (seenStates x' = seenStates x /\ pipeline x' = pipeline x) \/
  (exists n, Some state <> stopState /\ nextStateOf t = Some n /\ (n ∉ seenStates x) /\
             seenStates x' = seenStates x ++ [n] /\ pipeline x' = pipeline x ++ [n]).
Proof.
  unfold followTransition. case_decide as Hstop; [intros [= <-]; by left|].
  match goal with |- context [ensureATNNode ?m ?s x] =>
    pose proof (ensureATNNode_frame m s x) as H1;
    destruct (ensureATNNode m s x) as [targetIndex x1] end.
  simpl in H1. destruct H1 as (Hs1 & Hp1 & _).
  case_bool_decide as Hrule.
  - destruct (followState t) as [nextState|] eqn:Hfollow; [|intros ?; discriminate].
    match goal with |- context [ensureATNNode ?m ?s ?y] =>
      pose proof (ensureATNNode_frame m s y) as H2;
      destruct (ensureATNNode m s y) as [returnIndex x2] end.
    simpl in H2. destruct H2 as (Hs2 & Hp2 & _).
    case_decide as Hseen; intros [= <-]; simpl in *.
    + left. by rewrite Hs2, Hp2, Hs1, Hp1.
    + right. exists nextState. rewrite Hs2, Hp2, Hs1, Hp1 in *.
      unfold nextStateOf. by rewrite decide_True.
  - case_decide as Hseen; intros [= <-]; simpl in *.
    + left. by rewrite Hs1, Hp1.
    + right. exists (target t). rewrite Hs1, Hp1 in *.
      unfold nextStateOf. by rewrite decide_False.
Qed.

Lemma forTransitions_queue state sourceIndex ts x x' :
  forTransitions state sourceIndex ts x = inr x' ->
  exists new,
    seenStates x' = seenStates x ++ new /\ pipeline x' = pipeline x ++ new /\
    (NoDup (seenStates x) -> NoDup (seenStates x')) /\
    Forall (fun n => Some state <> stopState /\
                     exists t, t ∈ ts /\ nextStateOf t = Some n) new.
Proof.
  revert x. induction ts as [|t ts IH]; intros x; simpl.
  - intros [= <-]. exists []. rewrite !app_nil_r. by repeat split.
  - destruct (followTransition state sourceIndex x t) as [e|x1] eqn:Hstep; [done|].
    intros (new & Hs & Hp & Hnd & Hnew)%IH.
    assert (Hweak : Forall (fun n => Some state <> stopState /\
                       exists t0, t0 ∈ t :: ts /\ nextStateOf t0 = Some n) new).
    { eapply Forall_impl; [exact Hnew|]. intros n (? & t0 & ? & ?).
      split; [done|]. exists t0. split; [by right | done]. }
    apply followTransition_queue in Hstep as [[Hs1 Hp1] | (n & Hstop & Hn & Hfresh & Hs1 & Hp1)].
    + exists new. split; [by rewrite Hs, Hs1|]. split; [by rewrite Hp, Hp1|].
      split; [|done]. intros ?. apply Hnd. by rewrite Hs1.
    + exists (n :: new). split; [by rewrite Hs, Hs1, <- app_assoc|].
      split; [by rewrite Hp, Hp1, <- app_assoc|]. split.
      * intros Hx. apply Hnd. rewrite Hs1. apply NoDup_app. repeat split; [done| |].
        -- intros y Hy ->%list_elem_of_singleton. done.
        -- apply NoDup_singleton.
      * apply Forall_cons. split; [|done]. split; [done|]. exists t. split; [by left | done].
Qed.

Lemma expand_queue state x x' :
  expand state x = inr x' ->
  exists new,
    seenStates x' = seenStates x ++ new /\ pipeline x' = pipeline x ++ new /\
    (NoDup (seenStates x) -> NoDup (seenStates x')) /\
    Forall (fun n => Some state <> stopState /\
                     exists t, t ∈ getTransitions state /\ nextStateOf t = Some n) new.
Proof.
  unfold expand.
  pose proof (ensureATNNode_frame (Z.of_nat state) state x) as H1.
  destruct (ensureATNNode (Z.of_nat state) state x) as [sourceIndex x1].
  simpl in H1. destruct H1 as (<- & <- & _). apply forTransitions_queue.
Qed.

(** The stop state is expanded without any effect beyond its own node. *)
Lemma expand_stop state x :
  Some state = stopState ->
  expand state x = inr (snd (ensureATNNode (Z.of_nat state) state x)).
Proof.
  intros Hstop. unfold expand.
  destruct (ensureATNNode (Z.of_nat state) state x) as [sourceIndex x1]. simpl.
  induction (getTransitions state) as [|t ts IH]; [done|].
  simpl. unfold followTransition at 1. by rewrite decide_True.
Qed.

Lemma nextStateOf_mentioned s t n :
  t ∈ getTransitions s -> nextStateOf t = Some n -> n ∈ mentioned data.
Proof.
  unfold getTransitions, stateAt, mentioned. intros Ht Hn.
  destruct (states (atn data) !! s) as [st|] eqn:Hst; simpl in Ht;
    [|by apply elem_of_nil in Ht].
  apply list_elem_of_In, in_flat_map. exists st. split.
  { apply list_elem_of_In. by eapply list_elem_of_lookup_2. }
  apply in_flat_map. exists t. split; [by apply list_elem_of_In|].
  apply list_elem_of_In. unfold nextStateOf in Hn. case_decide.
  - right. rewrite Hn. simpl. by left.
  - injection Hn as <-. by left.
Qed.

(** *** Termination of the loop *)

(** At the head of the loop: the seen states are pairwise distinct, are all
    referred to by the automaton (or are the start state), and the pipeline
    is the part of them that is still to be expanded. *)
Definition loopInvariant (startState : nat) (x : Locals) : Prop :=
  NoDup (seenStates x) /\
  (forall n, n ∈ seenStates x -> n ∈ startState :: mentioned data) /\
  exists past, seenStates x = past ++ pipeline x.

Lemma loopInvariant_initial startState : loopInvariant startState (initial startState).
Proof.
  split; [apply NoDup_singleton|]. split.
  - intros n ->%list_elem_of_singleton. by left.
  - by exists [].
Qed.

Lemma loopInvariant_expand startState state rest x x' :
  loopInvariant startState x -> pipeline x = state :: rest ->
  expand state (setPipeline rest x) = inr x' ->
  loopInvariant startState x' /\
  (length (pipeline x') + length (seenStates x) = length rest + length (seenStates x'))%nat.
Proof.
  intros (Hnd & Hsub & past & Hdone) Hp (new & Hs & Hp' & Hnd' & Hnew)%expand_queue.
  simpl in *. split; [split; [by apply Hnd'| split]|].
  - intros n. rewrite Hs. intros [?|Hin]%elem_of_app; [by apply Hsub|].
    rewrite Forall_forall in Hnew. destruct (Hnew n Hin) as (_ & t & Ht & Hn).
    right. by eapply nextStateOf_mentioned.
  - exists (past ++ [state]). rewrite Hs, Hp', Hdone, Hp, <- !app_assoc. done.
  - rewrite Hs, Hp', !length_app. lia.
Qed.

Lemma traverse_terminates startState fuel x :
  loopInvariant startState x ->
  (S (length (mentioned data)) + length (pipeline x) < fuel + length (seenStates x))%nat ->
  exists r, traverse fuel x = Some r.
Proof.
  revert x. induction fuel as [|fuel IH]; intros x Hinv Hfuel.
  - exfalso. destruct Hinv as (Hnd & Hsub & _).
    assert (length (seenStates x) <= length (startState :: mentioned data))%nat.
    { apply submseteq_length, NoDup_submseteq; done. }
    simpl in *. lia.
  - simpl. destruct (pipeline x) as [|state rest] eqn:Hp; [by eexists|].
    destruct (expand state (setPipeline rest x)) as [e|x'] eqn:Hexp; [by eexists|].
    destruct (loopInvariant_expand _ _ _ _ _ Hinv Hp Hexp) as [Hinv' Hlen].
    apply IH; [done|]. simpl in Hfuel. lia.
Qed.

(** When the loop ends normally, the pipeline is empty and the seen states
    are the states seen before followed by the states expanded since. *)
Lemma traverse_expansions fuel x past xf :
  seenStates x = past ++ pipeline x ->
  traverse fuel x = Some (inr xf) ->
  pipeline xf = [] /\ seenStates xf = past ++ expansions fuel x.
Proof.
  revert x past. induction fuel as [|fuel IH]; intros x past Hdone; [done|].
  simpl. destruct (pipeline x) as [|state rest] eqn:Hp.
  - intros [= <-]. by rewrite Hp.
  - destruct (expand state (setPipeline rest x)) as [e|x'] eqn:Hexp; [done|].
    intros Hrun. pose proof Hexp as (new & Hs & Hp' & _)%expand_queue. simpl in *.
    destruct (IH x' (past ++ [state])) as [Hempty Hseen]; [|done|].
    + rewrite Hs, Hp', Hdone, <- !app_assoc. done.
    + split; [done|]. by rewrite Hseen, <- app_assoc.
Qed.

(** Every state the loop has seen is reachable from the start state without
    leaving the stop state. *)
Lemma traverse_reachable startState fuel x xf :
  (forall n, n ∈ seenStates x -> reachable startState n) ->
  (forall n, n ∈ pipeline x -> n ∈ seenStates x) ->
  traverse fuel x = Some (inr xf) ->
  forall n, n ∈ seenStates xf -> reachable startState n.
Proof.
  revert x. induction fuel as [|fuel IH]; intros x Hreach Hsub; [done|].
  simpl. destruct (pipeline x) as [|state rest] eqn:Hp.
  - by intros [= <-].
  - destruct (expand state (setPipeline rest x)) as [e|x'] eqn:Hexp; [done|].
    pose proof Hexp as (new & Hs & Hp' & _ & Hnew)%expand_queue. simpl in *.
    apply IH.
    + intros n. rewrite Hs. intros [?|Hin]%elem_of_app; [by apply Hreach|].
      rewrite Forall_forall in Hnew. destruct (Hnew n Hin) as (Hstop & t & Ht & Hn).
      eapply reachable_next; [|done..]. apply Hreach, Hsub. by left.
    + intros n. rewrite Hs, Hp'. intros [?|?]%elem_of_app; apply elem_of_app;
        [left; apply Hsub; by right | by right].
Qed.

(** *** Counting nodes *)

Lemma callSitesAreSingle_spec s t :
  callSitesAreSingle = true ->
  t ∈ getTransitions s -> stateType (stateAt (target t)) = RULE_START ->
  getTransitions s = [t].
Proof.
  unfold callSitesAreSingle, getTransitions, stateAt. intros Hall Ht Hrule.
  destruct (states (atn data) !! s) as [st|] eqn:Hst; simpl in *;
    [|by apply elem_of_nil in Ht].
  rewrite forallb_forall in Hall.
  assert (Hst' : singleCall st = true).
  { apply Hall, list_elem_of_In. by eapply list_elem_of_lookup_2. }
  unfold singleCall in Hst'. rewrite forallb_forall in Hst'.
  specialize (Hst' t (proj1 (list_elem_of_In _ _) Ht)).
  apply orb_true_iff in Hst' as [Hno|Hone].
  - apply bool_decide_eq_true in Hno. done.
  - apply bool_decide_eq_true in Hone.
    destruct (transitions st) as [|t' [|t'' ts]]; simpl in Hone; try lia.
    apply list_elem_of_singleton in Ht. by subst.
Qed.

Lemma ruleCall_single s t :
  callSitesAreSingle = true ->
  t ∈ getTransitions s -> stateType (stateAt (target t)) = RULE_START ->
  ruleCall data s = Some t.
Proof.
  intros Hall Ht Hrule. unfold ruleCall.
  rewrite (callSitesAreSingle_spec s t Hall Ht Hrule). by rewrite decide_True.
Qed.

Lemma ensureATNNode_fresh_regular id' state x :
  stateToIndex x !! id' = None ->
  length (regular (result (snd (ensureATNNode id' state x)))) =
  S (length (regular (result x))).
Proof.
  intros Hfresh. destruct (ensureATNNode_fresh id' state x Hfresh) as [_ H].
  unfold regular. destruct (ruleCall data state) as [t|]; destruct H as (-> & _).
  - rewrite filter_app, length_app. rewrite filter_cons, decide_True by apply stateTypeTag_regular.
    rewrite filter_cons, decide_False by (intros H; by apply H). simpl. lia.
  - rewrite filter_app, length_app. rewrite filter_cons, decide_True by apply stateTypeTag_regular.
    simpl. lia.
Qed.

(** Every regular node has an owner among the states in [S]: distinct nodes
    have distinct owners, the number of an owner is a registered identifier,
    and so is the product registered for each of its transitions into a rule
    start state. *)
Definition counted (S : list nat) (x : Locals) : Prop :=
  exists owners : list nat,
    length (regular (result x)) = length owners /\
    NoDup owners /\
    (forall s, s ∈ owners -> s ∈ S) /\
    (forall s, s ∈ owners -> is_Some (stateToIndex x !! Z.of_nat s)) /\
    (forall s t, s ∈ owners -> t ∈ getTransitions s ->
                 stateType (stateAt (target t)) = RULE_START ->
                 is_Some (stateToIndex x !! (Z.of_nat s * Z.of_nat (target t)))).

Lemma counted_mono (S S' : list nat) x :
  (forall s, s ∈ S -> s ∈ S') -> counted S x -> counted S' x.
Proof. intros Hsub (owners & ? & ? & ? & ? & ?). exists owners. auto 10. Qed.

Lemma counted_same (S : list nat) x x' :
  nodes (result x') = nodes (result x) -> stateToIndex x' = stateToIndex x ->
  counted S x -> counted S x'.
Proof.
  intros Hn Hi (owners & ? & ? & ? & ? & ?). exists owners.
  unfold regular. rewrite Hn, Hi. auto 10.
Qed.

(** The step shared by both uses of [ensureATNNode]: a fresh identifier
    yields one more regular node, owned by a state that owns none yet. *)
Lemma counted_ensure (S : list nat) id' state owner x :
  counted S x -> owner ∈ S ->
  (stateToIndex x !! id' = None ->
     (forall owners : list nat,
        (forall s, s ∈ owners -> is_Some (stateToIndex x !! Z.of_nat s)) ->
        (forall s t, s ∈ owners -> t ∈ getTransitions s ->
                     stateType (stateAt (target t)) = RULE_START ->
                     is_Some (stateToIndex x !! (Z.of_nat s * Z.of_nat (target t)))) ->
        owner ∉ owners) /\
     let x' := snd (ensureATNNode id' state x) in
     is_Some (stateToIndex x' !! Z.of_nat owner) /\
     (forall t, t ∈ getTransitions owner -> stateType (stateAt (target t)) = RULE_START ->
                is_Some (stateToIndex x' !! (Z.of_nat owner * Z.of_nat (target t))))) ->
  counted S (snd (ensureATNNode id' state x)).
Proof.
  intros (owners & Hlen & Hnd & Hsub & HK & HJ) Hin Hfresh.
  destruct (stateToIndex x !! id') as [i|] eqn:Hid.
  { rewrite (ensureATNNode_known _ _ _ _ Hid). exists owners. auto 10. }
  destruct (Hfresh eq_refl) as (Hnew & HK' & HJ').
  exists (owners ++ [owner]). split; [|split; [|split; [|split]]].
  - rewrite ensureATNNode_fresh_regular by done. rewrite length_app. simpl. lia.
  - apply NoDup_app. repeat split; [done| |apply NoDup_singleton].
    intros s Hs ->%list_elem_of_singleton. by apply (Hnew owners).
  - intros s [?| ->%list_elem_of_singleton]%elem_of_app; auto.
  - intros s [Hs| ->%list_elem_of_singleton]%elem_of_app; [|done].
    apply ensureATNNode_dom. left. auto.
  - intros s t [Hs| ->%list_elem_of_singleton]%elem_of_app Ht Hrule; [|auto].
    apply ensureATNNode_dom. left. eauto.
Qed.

Section Counting.

Hypothesis single : callSitesAreSingle = true.

(** The node of a state under its own number. *)
Lemma counted_ensure_own (S : list nat) n x :
  counted S x -> n ∈ S -> counted S (snd (ensureATNNode (Z.of_nat n) n x)).
Proof.
  intros Hc Hin. apply (counted_ensure S _ _ n); [done..|].
  intros Hfresh. split.
  - intros owners HK _ Hn. apply HK in Hn. rewrite Hfresh in Hn. by destruct Hn.
  - split; [apply ensureATNNode_dom; by right|].
    intros t Ht Hrule. destruct (ensureATNNode_fresh _ n x Hfresh) as [_ H].
    rewrite (ruleCall_single n t single Ht Hrule) in H. destruct H as (_ & -> & _).
    by rewrite lookup_insert_eq.
Qed.

(** The node looked up under the product at a call site. *)
Lemma counted_ensure_marker (S : list nat) state t x :
  counted S x -> state ∈ S -> is_Some (stateToIndex x !! Z.of_nat state) ->
  t ∈ getTransitions state -> stateType (stateAt (target t)) = RULE_START ->
  counted S (snd (ensureATNNode (Z.of_nat (target t) * Z.of_nat state) (target t) x)).
Proof.
  intros Hc Hin Hown Ht Hrule. apply (counted_ensure S _ _ state); [done..|].
  intros Hfresh. split.
  - intros owners _ HJ Hs. specialize (HJ state t Hs Ht Hrule).
    rewrite Z.mul_comm, Hfresh in HJ. by destruct HJ.
  - split; [apply ensureATNNode_dom; by left|].
    intros t' Ht' Hrule'. apply ensureATNNode_dom. right.
    pose proof (callSitesAreSingle_spec state t single Ht Hrule) as H1.
    rewrite H1 in Ht'. apply list_elem_of_singleton in Ht'. subst t'. lia.
Qed.

Lemma counted_followTransition state sourceIndex x t x' :
  counted (seenStates x) x -> state ∈ seenStates x ->
  is_Some (stateToIndex x !! Z.of_nat state) -> t ∈ getTransitions state ->
  followTransition state sourceIndex x t = inr x' ->
  counted (seenStates x') x' /\ state ∈ seenStates x' /\
  is_Some (stateToIndex x' !! Z.of_nat state).
Proof.
  intros Hc Hin Hown Ht Hstep.
  assert (Hgrow : forall s, s ∈ seenStates x -> s ∈ seenStates x').
  { destruct (followTransition_queue _ _ _ _ _ Hstep) as [[-> _]|(n & _ & _ & _ & -> & _)];
      [done|]. intros s ?. apply elem_of_app. by left. }
  assert (Hnext : forall n, nextStateOf t = Some n -> Some state <> stopState ->
                            n ∈ seenStates x').
  { intros n Hn Hstop.
    destruct (followTransition_queue _ _ _ _ _ Hstep) as [[Hs _]|(n' & _ & Hn' & _ & -> & _)].
    - revert Hstep. unfold followTransition. rewrite decide_False by done.
      unfold nextStateOf in Hn.
      destruct (ensureATNNode _ (target t) x) as [targetIndex x1] eqn:E1.
      pose proof (ensureATNNode_frame (Z.of_nat (target t) *
          (if bool_decide (stateType (stateAt (target t)) = RULE_START)
           then Z.of_nat state else 1)) (target t) x) as F1.
      rewrite E1 in F1. simpl in F1. destruct F1 as (F1 & _).
      case_bool_decide as Hrule.
      + rewrite decide_True in Hn by done. rewrite Hn.
        match goal with |- context [ensureATNNode ?m ?s ?y] =>
          pose proof (ensureATNNode_frame m s y) as F2;
          destruct (ensureATNNode m s y) as [returnIndex x2] end.
        simpl in F2. destruct F2 as (F2 & _).
        case_decide as Hseen; intros [= <-]; simpl in *.
        * done.
        * apply elem_of_app. right. by apply list_elem_of_singleton.
      + rewrite decide_False in Hn by done. injection Hn as <-.
        case_decide as Hseen; intros [= <-]; simpl in *.
        * done.
        * apply elem_of_app. right. by apply list_elem_of_singleton.
    - rewrite Hn in Hn'. injection Hn' as <-. apply elem_of_app. right.
      by apply list_elem_of_singleton. }
  apply (counted_mono _ _ _ Hgrow) in Hc. apply Hgrow in Hin.
  revert Hstep. unfold followTransition.
  case_decide as Hstop; [by intros [= <-]|].
  specialize (fun n Hn => Hnext n Hn Hstop). unfold nextStateOf in Hnext.
  case_bool_decide as Hrule.
  - rewrite decide_True in Hnext by done.
    pose proof (counted_ensure_marker _ state t x Hc Hin Hown Ht Hrule) as Hc1.
    pose proof (ensureATNNode_dom (Z.of_nat (target t) * Z.of_nat state) (target t) x
                  (Z.of_nat state) (or_introl Hown)) as Hown1.
    destruct (ensureATNNode _ (target t) x) as [targetIndex x1]. simpl in Hc1, Hown1.
    destruct (followState t) as [nextState|]; [|intros ?; discriminate].
    match goal with |- context [ensureATNNode ?m ?s ?y] =>
      pose proof (counted_ensure_own (seenStates x') nextState y) as Hc2;
      pose proof (ensureATNNode_dom m s y (Z.of_nat state)) as Hown2;
      destruct (ensureATNNode m s y) as [returnIndex x2] end.
    simpl in Hc2, Hown2.
    assert (counted (seenStates x') x2) as Hc2' by (apply Hc2; [|by apply Hnext];
      by eapply counted_same; [| |exact Hc1]).
    assert (is_Some (stateToIndex x2 !! Z.of_nat state)) as Hown2' by (apply Hown2; by left).
    case_decide; intros [= <-]; (split; [|by split]);
      by eapply counted_same; [| |exact Hc2'].
  - rewrite decide_False in Hnext by done. rewrite Z.mul_1_r.
    pose proof (counted_ensure_own _ (target t) x Hc (Hnext _ eq_refl)) as Hc1.
    pose proof (ensureATNNode_dom (Z.of_nat (target t)) (target t) x
                  (Z.of_nat state) (or_introl Hown)) as Hown1.
    destruct (ensureATNNode _ (target t) x) as [targetIndex x1]. simpl in Hc1, Hown1.
    case_decide; intros [= <-]; (split; [|by split]);
      by eapply counted_same; [| |exact Hc1].
Qed.

Lemma counted_forTransitions state sourceIndex ts x x' :
  counted (seenStates x) x -> state ∈ seenStates x ->
  is_Some (stateToIndex x !! Z.of_nat state) ->
  (forall t, t ∈ ts -> t ∈ getTransitions state) ->
  forTransitions state sourceIndex ts x = inr x' ->
  counted (seenStates x') x'.
Proof.
  revert x. induction ts as [|t ts IH]; intros x Hc Hin Hown Hts; simpl.
  - by intros [= <-].
  - destruct (followTransition state sourceIndex x t) as [e|x1] eqn:Hstep;
      [intros ?; discriminate|].
    destruct (counted_followTransition _ _ _ _ _ Hc Hin Hown (Hts t ltac:(by left)) Hstep)
      as (Hc1 & Hin1 & Hown1).
    apply IH; [done..|]. intros t' ?. apply Hts. by right.
Qed.

Lemma counted_expand state x x' :
  counted (seenStates x) x -> state ∈ seenStates x ->
  expand state x = inr x' -> counted (seenStates x') x'.
Proof.
  intros Hc Hin. unfold expand.
  pose proof (counted_ensure_own _ state x Hc Hin) as Hc1.
  pose proof (ensureATNNode_dom (Z.of_nat state) state x (Z.of_nat state) (or_intror eq_refl))
    as Hown1.
  pose proof (ensureATNNode_frame (Z.of_nat state) state x) as F1.
  destruct (ensureATNNode (Z.of_nat state) state x) as [sourceIndex x1].
  simpl in *. destruct F1 as (F1 & _). rewrite <- F1 in Hc1, Hin.
  by apply counted_forTransitions.
Qed.

Lemma counted_traverse fuel x xf :
  counted (seenStates x) x -> (forall n, n ∈ pipeline x -> n ∈ seenStates x) ->
  traverse fuel x = Some (inr xf) -> counted (seenStates xf) xf.
Proof.
  revert x. induction fuel as [|fuel IH]; intros x Hc Hsub; [done|].
  simpl. destruct (pipeline x) as [|state rest] eqn:Hp; [by intros [= <-]|].
  destruct (expand state (setPipeline rest x)) as [e|x'] eqn:Hexp; [done|].
  pose proof Hexp as (new & Hs & Hp' & _)%expand_queue. simpl in *.
  apply IH.
  - eapply counted_expand; [| |exact Hexp]; simpl.
    + by eapply counted_same; [| |exact Hc].
    + apply Hsub. by left.
  - intros n. rewrite Hs, Hp'. intros [?|?]%elem_of_app; apply elem_of_app;
      [left; apply Hsub; by right | by right].
Qed.

End Counting.

Lemma counted_initial startState : counted [startState] (initial startState).
Proof.
  exists []. split; [done|]. split; [apply NoDup_nil_2|].
  split; [|split]; intros s; intros; by apply elem_of_nil in H.
Qed.

(** The traversal from the start state of a rule. *)
Lemma traverse_bounded startState :
  exists r, traverse (enough data) (initial startState) = Some r /\
    match r with
    | inl e => True
    | inr xf =>
        pipeline xf = [] /\
        seenStates xf = expansions (enough data) (initial startState) /\
        NoDup (seenStates xf) /\
        (forall n, n ∈ seenStates xf -> reachable startState n) /\
        (callSitesAreSingle = true ->
         (length (nodes (result xf))
          <= length (seenStates xf) + length (synthetic (result xf)))%nat)
    end.
Proof.
  destruct (traverse_terminates startState (enough data) (initial startState))
    as [r Hr]; [apply loopInvariant_initial | unfold enough; simpl; lia |].
  exists r. split; [done|]. destruct r as [e|xf]; [done|].
  destruct (traverse_expansions (enough data) (initial startState) [] xf eq_refl Hr)
    as [Hempty Hseen].
  split; [done|]. split; [done|]. split; [|split].
  - assert (Hnd : forall fuel x xf', NoDup (seenStates x) ->
                    traverse fuel x = Some (inr xf') -> NoDup (seenStates xf')).
    { induction fuel as [|fuel IH]; intros x xf' Hx; [done|]. simpl.
      destruct (pipeline x) as [|state rest]; [by intros [= <-]|].
      destruct (expand state (setPipeline rest x)) as [e|x'] eqn:Hexp; [done|].
      apply IH. apply expand_queue in Hexp as (new & _ & _ & Hnd & _). by apply Hnd. }
    eapply Hnd; [|exact Hr]. apply NoDup_singleton.
  - eapply traverse_reachable; [| |exact Hr]; simpl.
    + intros n ->%list_elem_of_singleton. constructor.
    + done.
  - intros Hsingle.
    destruct (counted_traverse Hsingle _ _ _ (counted_initial startState) ltac:(done) Hr)
      as (owners & Hlen & Hnd & Hsub & _).
    rewrite nodes_split, Hlen.
    assert (length owners <= length (seenStates xf))%nat
      by (apply submseteq_length, NoDup_submseteq; done).
    lia.
Qed.

(** *** Calls of other rules *)



(** A start set that is closed under the traversal's successor relation
    contains every reachable state. *)
Definition closedUnderNext (R : list nat) : bool :=
  forallb (fun s =>
             bool_decide (Some s = stopState) ||
             forallb (fun t => match nextStateOf t with
                               | Some n => bool_decide (n ∈ R)
                               | None => true
                               end)
                     (getTransitions s))
          R.

Lemma reachable_closed startState (R : list nat) :
  startState ∈ R -> closedUnderNext R = true ->
  forall n, reachable startState n -> n ∈ R.
Proof.
  intros Hstart Hclosed n Hn. induction Hn as [|s t n Hs IH Hstop Ht Hnext]; [done|].
  unfold closedUnderNext in Hclosed. rewrite forallb_forall in Hclosed.
  specialize (Hclosed s (proj1 (list_elem_of_In _ _) IH)).
  apply orb_true_iff in Hclosed as [Hc|Hc]; [by apply bool_decide_eq_true in Hc|].
  rewrite forallb_forall in Hc. specialize (Hc t (proj1 (list_elem_of_In _ _) Ht)).
  rewrite Hnext in Hc. by apply bool_decide_eq_true in Hc.
Qed.

End TraversalFacts.

(** ** Facts about [getATNGraph] *)

Section GetATNGraphFacts.

Variables (Tree Symbol DiagnosticEntry : Type).

Local Abbreviation SourceContext :=
  (Context.SourceContext Tree Symbol DiagnosticEntry InterpreterData).
Local Abbreviation selectRule := (selectRule Tree Symbol DiagnosticEntry).
Local Abbreviation runGraph := (runGraph Tree Symbol DiagnosticEntry).
Local Abbreviation getATNGraph := (getATNGraph Tree Symbol DiagnosticEntry).

(** The bound on the iterations is never reached: [getATNGraph] returns or
    throws. *)
Lemma getATNGraph_returns (this : SourceContext) rule : is_Some (getATNGraph this rule).
Proof.
  unfold getATNGraph, runGraph.
  destruct (selectRule this rule) as [e|[[[isLexerRule data] ruleIndex]|]]; [done| |done].
  destruct (ruleToStartState (atn data) !! ruleIndex) as [startState|]; [|done].
  destruct (traverse_bounded data isLexerRule (ruleToStopState (atn data) !! ruleIndex)
              startState) as (r & -> & _).
  by destruct r.
Qed.

(** C5 (amended).  For a rule whose interpreter data is loaded the traversal
    ends; the states it expands are exactly the states it has seen, each
    once; every one of them is reachable from the start state without leaving
    the stop state, whose expansion adds nothing but its own node; and when
    in the automaton a transition into a rule start state is always the only
    transition of its source state, the nodes produced are at most as many as
    the reachable states plus the nodes with tag 13. *)
Theorem getATNGraph_expands_each_state_once
    (this : SourceContext) rule isLexerRule data ruleIndex startState :
  selectRule this rule = inr (Some (isLexerRule, data, ruleIndex)) ->
  ruleToStartState (atn data) !! ruleIndex = Some startState ->
  let stopState := ruleToStopState (atn data) !! ruleIndex in
  exists r, runGraph (enough data) this rule = Some r /\
    match r with
    | inl e => getATNGraph this rule = Some (inl e)
    | inr None => False
    | inr (Some xf) =>
        getATNGraph this rule = Some (inr (Some (result xf))) /\
        seenStates xf =
          expansions data isLexerRule stopState (enough data) (initial startState) /\
        NoDup (seenStates xf) /\
        (forall n, n ∈ seenStates xf -> reachable data stopState startState n) /\
        (forall s x, Some s = stopState ->
           expand data isLexerRule stopState s x
           = inr (snd (ensureATNNode data (Z.of_nat s) s x))) /\
        (callSitesAreSingle data = true ->
         forall R : list nat,
           (forall n, reachable data stopState startState n -> n ∈ R) ->
           (length (nodes (result xf)) <= length R + length (synthetic (result xf)))%nat)
    end.
Proof.
  intros Hsel Hstart stopState.
  destruct (traverse_bounded data isLexerRule stopState startState)
    as (r & Hr & Hprops).
  unfold getATNGraph, runGraph.
  rewrite Hsel, Hstart. fold stopState. rewrite Hr.
  destruct r as [e|xf]; [by eexists|].
  eexists. split; [reflexivity|]. simpl.
  destruct Hprops as (_ & Hexp & Hnd & Hreach & Hbound).
  split; [done|]. split; [done|]. split; [done|]. split; [done|].
  split; [intros; by apply expand_stop|].
  intros Hsingle R HR. specialize (Hbound Hsingle).
  assert (length (seenStates xf) <= length R)%nat
    by (apply submseteq_length, NoDup_submseteq; auto).
  lia.
Qed.

(** C10.  The empty rule name makes the case test read a property of
    [undefined]: a type error.  For a non-empty name the case test and the
    selection of data and rule index do not throw; missing interpreter data
    for the kind of rule, or a name that is not in the rule map, yields
    [undefined]. *)
Theorem getATNGraph_needs_rule_name (this : SourceContext) :
  getATNGraph this "" = Some (inl TypeError) /\
  forall c rest,
    let rule := String c rest in
    let isLexerRule := bool_decide (String c "" = toUpperCase (String c "")) in
    isLexerRuleName rule = inr isLexerRule /\
    (exists r, selectRule this rule = inr r) /\
    ((if isLexerRule then grammarLexerData this else grammarParserData this) = None ->
     getATNGraph this rule = Some (inr None)) /\
    ((if isLexerRule then grammarLexerRuleMap this else grammarParserRuleMap this) !! rule
       = None ->
     getATNGraph this rule = Some (inr None)).
Proof.
  split; [done|]. intros c rest rule isLexerRule.
  split; [done|].
  unfold getATNGraph, runGraph, selectRule.
  simpl. fold isLexerRule.
  destruct (if isLexerRule then grammarLexerData this else grammarParserData this)
    as [data|] eqn:Hdata.
  - destruct ((if isLexerRule then grammarLexerRuleMap this else grammarParserRuleMap this)
                !! rule) as [ruleIndex|] eqn:Hindex.
    + split; [by eexists|]. split; intros; discriminate.
    + split; [by eexists|]. done.
  - split; [by eexists|]. done.
Qed.

End GetATNGraphFacts.

End Extraction.

(** ** Two automata, for concrete runs *)

Module Example.

Definition st (ty : ATNStateType) (r : nat) (ts : list Transition) : ATNState :=
  {| stateType := ty; ruleIndex := r; transitions := ts |}.

(** Upper case of the letters [a] to [z], other characters unchanged. *)
Definition upper (c : Ascii.ascii) : Ascii.ascii :=
  let n := Ascii.nat_of_ascii c in
  if decide (97 <= n <= 122)%nat then Ascii.ascii_of_nat (n - 32) else c.

Fixpoint toUpperCase (s : string) : string :=
  match s with
  | EmptyString => EmptyString
  | String c s' => String (upper c) (toUpperCase s')
  end.

Definition displayName (_ : unit) (token : Z) : string := pretty token.

(** A context that holds the given parser interpreter data and nothing
    else. *)
Definition parserContext (data : InterpreterData unit)
  : Context.SourceContext unit unit unit (InterpreterData unit) :=
  {| fileName := "T.g4";
     symbolTable := {| symbols := []; tableDependencies := []; tableTree := None |};
     info := {| Context.type := Context.Parser; unreferencedRules := []; imports := [] |};
     diagnostics := [];
     rrdScripts := None;
     semanticAnalysisDone := false;
     tokenStream := {| Context.source := ""; index := 0 |};
     parser := None;
     grammarLexerData := None;
     grammarLexerRuleMap := ∅;
     grammarParserData := Some data;
     grammarParserRuleMap := ruleIndexMap (ruleNames unit data);
     tree := None |}.

Definition graphOf (data : InterpreterData unit) (rule : string) :=
  getATNGraph unit displayName toUpperCase unit unit unit (parserContext data) rule.

(** [r : s ;  s : A ;] in the shape the generator gives it: start and stop
    states of the rules first, then the states of the bodies. *)
Definition calls : InterpreterData unit :=
  {| atn := {| states := [ st RULE_START 0 [EpsilonTransition 4];
                           st RULE_STOP 0 [];
                           st RULE_START 1 [EpsilonTransition 6];
                           st RULE_STOP 1 [EpsilonTransition 5];
                           st BASIC 0 [RuleTransition 2 1 0 5];
                           st BASIC 0 [EpsilonTransition 1];
                           st BASIC 1 [AtomTransition 7 1];
                           st BASIC 1 [EpsilonTransition 3] ];
               ruleToStartState := [0; 2]%nat;
               ruleToStopState := [1; 3]%nat |};
     ruleNames := ["r"; "s"];
     vocabulary := tt |}.

(** An automaton in which the states that call rule [x] also have an epsilon
    transition past the call. *)
Definition optionalCalls : InterpreterData unit :=
  {| atn := {| states := [ st RULE_START 0 [EpsilonTransition 1];
                           st RULE_STOP 0 [];
                           st RULE_START 1 [EpsilonTransition 3];
                           st RULE_STOP 1 [];
                           st RULE_START 2 [EpsilonTransition 6];
                           st RULE_STOP 2 [];
                           st BASIC 2 [RuleTransition 2 1 0 7; EpsilonTransition 7];
                           st BASIC 2 [RuleTransition 2 1 0 8; EpsilonTransition 8];
                           st BASIC 2 [RuleTransition 2 1 0 9; EpsilonTransition 9];
                           st BASIC 2 [RuleTransition 2 1 0 10; EpsilonTransition 10];
                           st BASIC 2 [RuleTransition 2 1 0 5; EpsilonTransition 5] ];
               ruleToStartState := [0; 2; 4]%nat;
               ruleToStopState := [1; 3; 5]%nat |};
     ruleNames := ["t"; "x"; "r"];
     vocabulary := tt |}.

(** [a : c | b ;] with the two calling states numbered 6 and 12 and the start
    states of [c] and [b] numbered 4 and 2, so that 6 * 4 = 12 * 2. *)
Definition alternatives : InterpreterData unit :=
  {| atn := {| states := [ st RULE_START 0 [EpsilonTransition 7];
                           st RULE_STOP 0 [];
                           st RULE_START 1 [EpsilonTransition 13];
                           st RULE_STOP 1 [];
                           st RULE_START 2 [EpsilonTransition 14];
                           st RULE_STOP 2 [];
                           st BASIC 0 [RuleTransition 4 2 0 8];
                           st BLOCK_START 0 [EpsilonTransition 6; EpsilonTransition 12];
                           st BASIC 0 [EpsilonTransition 9];
                           st BLOCK_END 0 [EpsilonTransition 1];
                           st BASIC 0 [EpsilonTransition 9];
                           st BASIC 0 [];
                           st BASIC 0 [RuleTransition 2 1 0 10];
                           st BASIC 1 [EpsilonTransition 3];
                           st BASIC 2 [EpsilonTransition 5] ];
               ruleToStartState := [0; 2; 4]%nat;
               ruleToStopState := [1; 3; 5]%nat |};
     ruleNames := ["a"; "b"; "c"];
     vocabulary := tt |}.

End Example.

Arguments atn {Vocabulary}.
Arguments ruleNames {Vocabulary}.
Arguments vocabulary {Vocabulary}.
Arguments stateAt {Vocabulary}.
Arguments getTransitions {Vocabulary}.
Arguments ensureATNNode {Vocabulary}.
Arguments reachable {Vocabulary}.
Arguments closedUnderNext {Vocabulary}.
Arguments callSitesAreSingle {Vocabulary}.
Arguments enough {Vocabulary}.

(** C5 (counterexample).  In the automaton whose calling states have a
    second transition, the graph of rule [r] has twelve nodes and none of
    them has tag 13, while seven states are reachable from the start state
    of the rule and the whole automaton has eleven states. *)
Lemma getATNGraph_more_nodes_than_states :
  exists g,
    Example.graphOf Example.optionalCalls "r" = Some (inr (Some g)) /\
    (forall n, reachable Example.optionalCalls (Some 5%nat) 4%nat n ->
               n ∈ [4; 6; 7; 8; 9; 10; 5]%nat) /\
    length (states (atn Example.optionalCalls)) = 11%nat /\
    length (synthetic g) = 0%nat /\
    length (nodes g) = 12%nat /\
    ~ (length (nodes g) <= 7 + length (synthetic g))%nat.
Proof.
  eexists. split; [vm_compute; reflexivity|]. split.
  - apply reachable_closed; [|by vm_compute]. apply list_elem_of_In. simpl. auto.
  - vm_compute. repeat split; lia.
Qed.

(** The graph of [r] in [r : s ;  s : A ;] stays within the bound of C5: four
    reachable states, one node with tag 13, five nodes. *)
Lemma getATNGraph_expands_each_state_once_witness :
  selectRule unit Example.toUpperCase unit unit unit
             (Example.parserContext Example.calls) "r"
    = inr (Some (false, Example.calls, 0%nat)) /\
  Example.calls.(atn).(ruleToStartState) !! 0%nat = Some 0%nat /\
  callSitesAreSingle Example.calls = true /\
  exists g,
    Example.graphOf Example.calls "r" = Some (inr (Some g)) /\
    (length (nodes g) <= 4 + length (synthetic g))%nat.
Proof.
  assert (Hsel : selectRule unit Example.toUpperCase unit unit unit
                   (Example.parserContext Example.calls) "r"
                 = inr (Some (false, Example.calls, 0%nat))) by (vm_compute; reflexivity).
  split; [exact Hsel|]. split; [reflexivity|]. split; [reflexivity|].
  destruct (getATNGraph_expands_each_state_once
              unit Example.displayName Example.toUpperCase unit unit unit
              (Example.parserContext Example.calls) "r" false Example.calls 0%nat 0%nat
              Hsel eq_refl) as (r & Hrun & Hr).
  destruct r as [e|[xf|]].
  - exfalso. vm_compute in Hrun. discriminate Hrun.
  - destruct Hr as (Hgraph & _ & _ & _ & _ & Hbound).
    exists (result xf). split; [exact Hgraph|].
    apply (Hbound eq_refl [0; 4; 5; 1]%nat).
    apply reachable_closed; [|by vm_compute]. apply list_elem_of_In. simpl. auto.
  - destruct Hr.
Defined.


(** Two call sites with the same product share the registration: in the
    graph of [a] the node made for the call of [c] (index 3) has no link at
    all, and the node of state 6 (index 2), which calls [c], is linked to the
    node named [b] (index 5). *)
Lemma equal_products_share_a_registration :
  exists g,
    Example.graphOf Example.alternatives "a" = Some (inr (Some g)) /\
    callSitesAreSingle Example.alternatives = true /\
    nodes g !! 2%nat = Some {| id := 6; name := Some "6"; type := 1 |} /\
    nodes g !! 3%nat = Some {| id := -1; name := Some "c"; type := 13 |} /\
    nodes g !! 5%nat = Some {| id := -2; name := Some "b"; type := 13 |} /\
    Forall (fun l => source l <> 3%nat /\ linkTarget l <> 3%nat) (links g) /\
    {| source := 2; linkTarget := 5; linkType := RULE; labels := ["ε"] |} ∈ links g.
Proof.
  eexists. split; [vm_compute; reflexivity|]. split; [reflexivity|].
  split; [reflexivity|]. split; [reflexivity|]. split; [reflexivity|]. split.
  - repeat (apply Forall_cons; split; [split; discriminate|]). by apply Forall_nil.
  - apply list_elem_of_In. simpl. auto 10.
Qed.


End ATN.

(** * The front door of sentence generation *)

Module Sentence.

Import Context ATN.

Local Open Scope string_scope.
Local Open Scope list_scope.

(** What the callback receives as its first argument: a sentence (or one of
    the bracketed placeholders), or whatever was caught. *)
Inductive Payload :=
| Text (sentence : string)
| Caught (e : Exception).

(** One invocation of the callback: first argument and index. *)
Definition Call : Type := Payload * Z.

(** Computations that invoke the callback and may throw. *)
Definition M (A : Type) : Type := list Call -> (Exception + A) * list Call.

Definition ret {A} (a : A) : M A := fun calls => (inr a, calls).

Definition throw {A} (e : Exception) : M A := fun calls => (inl e, calls).

Definition bind {A B} (m : M A) (k : A -> M B) : M B :=
  fun calls =>
    match m calls with
    | (inl e, calls') => (inl e, calls')
    | (inr a, calls') => k a calls'
    end.

(** [try { m } catch (e) { handler(e) }]. *)
Definition tryCatch {A} (m : M A) (handler : Exception -> M A) : M A :=
  fun calls =>
    match m calls with
    | (inl e, calls') => handler e calls'
    | (inr a, calls') => (inr a, calls')
    end.

(** The callback of the caller returns normally; its effect is the record of
    the invocation. *)
Definition callback (p : Payload) (index : Z) : M unit :=
  fun calls => (inr tt, calls ++ [(p, index)]).

Section GenerateSentence.

Variable Vocabulary : Type.
Variable toUpperCase : string -> string.
Variables (Tree Symbol DiagnosticEntry : Type).

Local Abbreviation InterpreterData := (ATN.InterpreterData Vocabulary).
Local Abbreviation SourceContext :=
  (Context.SourceContext Tree Symbol DiagnosticEntry InterpreterData).

(** The options of a generation request; only [count] and [actionFile] are
    read here. *)
Variable SentenceGenerationOptions : Type.
Variable count : SentenceGenerationOptions -> option Z.
Variable actionFile : SentenceGenerationOptions -> option string.

(** The sentence generator: its state, its constructor and [generate], both
    of which may throw. *)
Variable SentenceGenerator : Type.
Variable newSentenceGenerator :
  SourceContext -> InterpreterData -> option InterpreterData -> option string ->
  Exception + SentenceGenerator.
Variable generate :
  SentenceGenerator -> SentenceGenerationOptions -> option nat ->
  (Exception + string) * SentenceGenerator.

Definition isInterpreterDataLoaded (this : SourceContext) : bool :=
  bool_decide (is_Some (grammarLexerData this) \/ is_Some (grammarParserData this)).

(** The lexer data of the first lexer grammar among the dependencies. *)
Fixpoint lexerDataOfDependency (dependencies : list SourceContext) : option InterpreterData :=
  match dependencies with
  | [] => None
  | dependency :: rest =>
      match Context.type (info dependency) with
      | Lexer => grammarLexerData dependency
      | _ => lexerDataOfDependency rest
      end
  end.

(** The body of the [for] loop, [n] iterations from index [i]. *)
Fixpoint generateLoop (n : nat) (i : Z) (generator : SentenceGenerator)
    (options : SentenceGenerationOptions) (start : option nat) : M unit :=
  match n with
  | O => ret tt
  | S n' =>
      match generate generator options start with
      | (inl e, _) => throw e
      | (inr sentence, generator') =>
          bind (callback (Text sentence) i)
               (fun _ => generateLoop n' (i + 1) generator' options start)
      end
  end.

(** The [switch] on the grammar type: where the lexer data and the parser
    data come from. *)
Definition selectData (this : SourceContext) (dependencies : list SourceContext)
  : option InterpreterData * option InterpreterData :=
  match Context.type (info this) with
  | Combined => (grammarLexerData this, grammarParserData this)
  | Lexer => (grammarLexerData this, None)
  | Parser => (lexerDataOfDependency dependencies, grammarParserData this)
  | Unknown => (None, None)
  end.

(** The part of [generateSentence] before the [try] block: either the
    placeholder to deliver, or the lexer data, the parser data and the start
    state to generate from. *)
Definition prepare (this : SourceContext) (dependencies : list SourceContext) (rule : string)
  : string + (InterpreterData * option InterpreterData * option nat) :=
  if negb (isInterpreterDataLoaded this) then inl "[No grammar data available]"
  else
    match rule with
    | EmptyString => inl "[No rule specified]"
    | String c _ =>
        let isLexerRule := bool_decide (String c "" = toUpperCase (String c "")) in
        let '(lexerData, parserData) := selectData this dependencies in
        match lexerData with
        | None => inl "[No lexer data available]"
        | Some lexerData =>
            if negb isLexerRule && bool_decide (parserData = None)
            then inl "[No parser data available]"
            else if isLexerRule then
              match grammarLexerRuleMap this !! rule with
              | None => inl "[Virtual or undefined token]"
              | Some index =>
                  inr (lexerData, parserData, ruleToStartState (atn lexerData) !! index)
              end
            else
              match grammarParserRuleMap this !! rule with
              | None => inl "[Undefined rule]"
              | Some index =>
                  inr (lexerData, parserData,
                       parserData ≫= fun d => ruleToStartState (atn d) !! index)
              end
        end
    end.

(** [Math.max(options.count ?? 1, 1)]. *)
Definition requested (options : SentenceGenerationOptions) : nat :=
  Z.to_nat (Z.max (default 1 (count options)) 1).

Definition generateSentence (this : SourceContext) (dependencies : list SourceContext)
    (rule : string) (options : SentenceGenerationOptions) : M unit :=
  match prepare this dependencies rule with
  | inl placeholder => callback (Text placeholder) 0
  | inr (lexerData, parserData, start) =>
      tryCatch
        (match newSentenceGenerator this lexerData parserData (actionFile options) with
         | inl e => throw e
         | inr generator => generateLoop (requested options) 0 generator options start
         end)
        (fun e => callback (Caught e) 0)
  end.




(** ** Facts *)







End GenerateSentence.

(** ** A lexer grammar whose generator fails on its second sentence *)

Module Example.

Definition lexerData : ATN.InterpreterData unit :=
  {| atn := {| states := [ ATN.Example.st RULE_START 0 [AtomTransition 2 97];
                           ATN.Example.st RULE_STOP 0 [];
                           ATN.Example.st BASIC 0 [EpsilonTransition 1] ];
               ruleToStartState := [0%nat];
               ruleToStopState := [1%nat] |};
     ruleNames := ["A"];
     vocabulary := tt |}.

Definition lexerContext : Context.SourceContext unit unit unit (ATN.InterpreterData unit) :=
  {| fileName := "L.g4";
     symbolTable := {| symbols := []; tableDependencies := []; tableTree := None |};
     info := {| Context.type := Lexer; unreferencedRules := []; imports := [] |};
     diagnostics := [];
     rrdScripts := None;
     semanticAnalysisDone := false;
     tokenStream := {| Context.source := ""; index := 0 |};
     parser := None;
     grammarLexerData := Some lexerData;
     grammarLexerRuleMap := ruleIndexMap (ruleNames lexerData);
     grammarParserData := None;
     grammarParserRuleMap := ∅;
     tree := None |}.

(** The generator counts its calls; the second one throws. *)
Definition generate (calls : nat) (options : option Z) (start : option nat)
  : (Exception + string) * nat :=
  if decide (calls = 1%nat) then (inl (OtherError "no path"), S calls)
  else (inr "a", S calls).

Definition run (rule : string) (requested : option Z) : (Exception + unit) * list Call :=
  generateSentence unit ATN.Example.toUpperCase unit unit unit
                   (option Z) (fun o => o) (fun _ => None)
                   nat (fun _ _ _ _ => inr 0%nat) generate
                   lexerContext [] rule requested [].

End Example.


End Sentence.


(** * More of the reference mesh: removing a link, meshes without cycles *)

Module MeshOps.

Import Mesh.

(** Modelled from the spec: [SymbolTable.removeDependency], which lives in the
    symbol-table class and not in this file; the edge to the given table is
    taken out of the set, the other edges stay. *)
Definition removeTableDependency (m : mesh) (c : ctx) (table : ctx) : mesh :=
  {| references := references m;
     dependencies := <[c := filter (fun d => d <> table) (deps m c)]> (dependencies m) |}.

(** [this.removeDependency(context)]: [splice(index, 1)] on the position
    [indexOf] gives, when there is one. *)
Definition removeDependency (m : mesh) (this context : ctx) : mesh :=
  let index := indexOf (refs m context) this in
  let m1 :=
    if decide (-1 < index) then
      {| references := <[context := delete (Z.to_nat index) (refs m context)]> (references m);
         dependencies := dependencies m |}
    else m in
  removeTableDependency m1 this context.

(** A mesh without cycles: some rank decreases along every reference. *)
Definition ranked (m : mesh) (rank : ctx -> nat) : Prop :=
  forall c r, r ∈ refs m c -> (rank r < rank c)%nat.

(** The number of reference paths that start in a context, followed to
    depth [n]. *)
Fixpoint paths (n : nat) (m : mesh) (c : ctx) : nat :=
  match n with
  | O => 1
  | S n' => S (sum_list (map (paths n' m) (refs m c)))
  end.

Definition weight (m : mesh) (rank : ctx -> nat) (c : ctx) : nat := paths (rank c) m c.

(** The rank of the diamond: the lexer grammar on top. *)
Definition diamond_rank (c : ctx) : nat :=
  match c with
  | O => 2
  | S (S (S O)) => 0
  | _ => 1
  end%nat.

(** The diamond as the four calls leave it. *)
Definition diamond_mesh : mesh :=
  {| references := <[0%nat := [1; 2]%nat]> (<[2%nat := [3%nat]]> (<[1%nat := [3%nat]]> ∅));
     dependencies := <[2%nat := [0%nat]]> (<[1%nat := [0%nat]]> (<[3%nat := [1; 2]%nat]> ∅)) |}.

(** ** [indexOf] and [splice] *)

Lemma indexOf_absent {A} `{EqDecision A} (l : list A) (x : A) : x ∉ l -> indexOf l x = -1.
Proof.
  intros Hx. pose proof (indexOf_ge l x). pose proof (indexOf_found l x) as [H1 _].
  destruct (decide (-1 < indexOf l x)); [by apply H1 in l0 | lia].
Qed.

Lemma indexOf_lookup {A} `{EqDecision A} (l : list A) (x : A) :
  -1 < indexOf l x -> l !! Z.to_nat (indexOf l x) = Some x.
Proof.
  induction l as [|y l IH]; simpl; [lia|].
  destruct (decide (y = x)) as [->|Hne]; [done|].
  case_decide as Hi; [|lia]. intros _.
  replace (Z.to_nat (indexOf l x + 1)) with (S (Z.to_nat (indexOf l x))) by lia.
  simpl. by apply IH.
Qed.

Lemma indexOf_first {A} `{EqDecision A} (l : list A) (x : A) (i : nat) :
  (i < Z.to_nat (indexOf l x))%nat -> l !! i <> Some x.
Proof.
  revert i. induction l as [|y l IH]; intros i; simpl; [lia|].
  destruct (decide (y = x)) as [->|Hne]; [simpl; lia|].
  case_decide as Hi; [|simpl; lia].
  replace (Z.to_nat (indexOf l x + 1)) with (S (Z.to_nat (indexOf l x))) by lia.
  destruct i as [|i]; simpl; [congruence|]. intros ?. apply IH. lia.
Qed.

Lemma indexOf_app_fresh {A} `{EqDecision A} (l : list A) (x : A) :
  x ∉ l -> indexOf (l ++ [x]) x = Z.of_nat (length l).
Proof.
  induction l as [|y l IH]; simpl.
  - intros _. by rewrite decide_True.
  - intros Hx. apply not_elem_of_cons in Hx as [Hne Hx].
    rewrite decide_False by done. rewrite (IH Hx). rewrite decide_True by lia. lia.
Qed.

Lemma delete_last {A} (l : list A) (x : A) : delete (length l) (l ++ [x]) = l.
Proof. induction l as [|y l IH]; simpl; [done | by rewrite IH]. Qed.

(** ** [removeDependency] *)

Lemma refs_removeTableDependency m c table c' :
  refs (removeTableDependency m c table) c' = refs m c'.
Proof. done. Qed.

Lemma refs_set_eq (r d : gmap ctx (list ctx)) context l :
  refs {| references := <[context := l]> r; dependencies := d |} context = l.
Proof. unfold refs; simpl. by rewrite lookup_insert_eq. Qed.

Lemma refs_set_ne (r d : gmap ctx (list ctx)) context l c :
  c <> context ->
  refs {| references := <[context := l]> r; dependencies := d |} c = default [] (r !! c).
Proof. intros. unfold refs; simpl. by rewrite lookup_insert_ne. Qed.

(** The arrays of the other contexts are not touched, and where the array of
    [context] held [this] it loses the first occurrence and nothing else. *)
Theorem removeDependency_references m this context :
  (forall c, c <> context -> refs (removeDependency m this context) c = refs m c) /\
  (this ∉ refs m context -> refs (removeDependency m this context) context = refs m context) /\
  (this ∈ refs m context ->
   exists before after,
     refs m context = before ++ this :: after /\ (this ∉ before) /\
     refs (removeDependency m this context) context = before ++ after).
Proof.
  unfold removeDependency. split; [|split].
  - intros c Hne. rewrite refs_removeTableDependency. case_decide; [|done].
    by rewrite refs_set_ne.
  - intros Hx. rewrite refs_removeTableDependency.
    rewrite decide_False; [done|]. rewrite indexOf_absent by done. lia.
  - intros Hx. rewrite refs_removeTableDependency.
    apply indexOf_found in Hx. rewrite decide_True by done.
    rewrite refs_set_eq.
    pose proof (indexOf_lookup _ _ Hx) as Hlook.
    pose proof (indexOf_first (refs m context) this) as Hfirst.
    set (i := Z.to_nat (indexOf (refs m context) this)) in *.
    exists (take i (refs m context)), (drop (S i) (refs m context)).
    split; [by rewrite <- (take_drop_middle _ _ _ Hlook) at 1|]. split.
    + intros [j Hj]%list_elem_of_lookup_1.
      pose proof (lookup_lt_Some _ _ _ Hj) as Hlen. rewrite length_take in Hlen.
      rewrite lookup_take_lt in Hj by lia. apply (Hfirst j); [lia | done].
    + by rewrite delete_take_drop.
Qed.

(** Linking and unlinking again gives back the arrays of references as they
    were, provided the link was not there before. *)
Theorem add_then_remove fuel m this context m' :
  addAsReferenceTo fuel m this context = Some m' ->
  this ∉ refs m context ->
  forall c, refs (removeDependency m' this context) c = refs m c.
Proof.
  unfold addAsReferenceTo. intros Hadd Hfresh c.
  destruct (walk fuel m this [context]) as [[|]|]; [| |done]; injection Hadd as <-.
  - unfold removeDependency. rewrite (indexOf_absent _ _ Hfresh).
    by rewrite decide_False by lia.
  - unfold removeDependency. rewrite refs_removeTableDependency.
    rewrite !refs_addDependencies, refs_pushReference_eq.
    rewrite (indexOf_app_fresh _ _ Hfresh). rewrite decide_True by lia.
    rewrite Nat2Z.id, delete_last.
    destruct (decide (c = context)) as [->|Hne]; [by rewrite refs_set_eq|].
    rewrite refs_set_ne by done.
    change (default [] (references (addDependencies (pushReference m context this)
                                                    this context) !! c))
      with (refs (addDependencies (pushReference m context this) this context) c).
    by rewrite refs_addDependencies, refs_pushReference_ne.
Qed.

(** ** Meshes without cycles *)

Section Ranked.

Variables (m : mesh) (rank : ctx -> nat).
Hypothesis acyclic : ranked m rank.

Lemma paths_stable n c : (rank c <= n)%nat -> paths (S n) m c = paths n m c.
Proof.
  revert c. induction n as [|n IH]; intros c Hc.
  - simpl. destruct (refs m c) as [|r l] eqn:Hr; [done|].
    assert (rank r < rank c)%nat by (apply acyclic; rewrite Hr; by left). lia.
  - change (paths (S (S n)) m c) with (S (sum_list (map (paths (S n) m) (refs m c)))).
    change (paths (S n) m c) with (S (sum_list (map (paths n m) (refs m c)))).
    f_equal. f_equal. apply map_ext_in. intros r Hr%list_elem_of_In.
    apply IH. apply acyclic in Hr. lia.
Qed.

Lemma paths_weight n c : (rank c <= n)%nat -> paths n m c = weight m rank c.
Proof.
  unfold weight. induction n as [|n IH]; intros Hc.
  - by replace (rank c) with 0%nat by lia.
  - destruct (decide (rank c = S n)) as [->|Hne]; [done|].
    rewrite paths_stable by lia. apply IH. lia.
Qed.

Lemma weight_unfold c :
  weight m rank c = S (sum_list (map (weight m rank) (refs m c))).
Proof.
  rewrite <- (paths_weight (S (rank c))) by lia. simpl. f_equal. f_equal.
  apply map_ext_in. intros r Hr%list_elem_of_In. apply paths_weight.
  apply acyclic in Hr. lia.
Qed.

Lemma sum_list_app (l1 l2 : list nat) :
  sum_list (l1 ++ l2) = (sum_list l1 + sum_list l2)%nat.
Proof. induction l1 as [|x l1 IH]; simpl; [done | lia]. Qed.

(** Every iteration of the walk lowers the total weight of the pipeline by
    one, so the loop ends. *)
Lemma walk_terminates fuel this pipeline :
  (sum_list (map (weight m rank) pipeline) < fuel)%nat ->
  exists b, walk fuel m this pipeline = Some b.
Proof.
  revert pipeline. induction fuel as [|fuel IH]; intros pipeline Hfuel; [lia|].
  simpl. destruct pipeline as [|current rest]; [by eexists|].
  case_decide; [by eexists|]. apply IH.
  rewrite map_app, sum_list_app. simpl in Hfuel. rewrite weight_unfold in Hfuel. lia.
Qed.

(** On a mesh without cycles [addAsReferenceTo] returns, and a larger bound
    on the iterations changes nothing. *)
Theorem addAsReferenceTo_returns_without_cycles this context :
  exists m',
    forall fuel, (weight m rank context < fuel)%nat ->
                 addAsReferenceTo fuel m this context = Some m'.
Proof.
  destruct (walk_terminates (S (weight m rank context)) this [context]) as [b Hb];
    [simpl; lia|].
  exists (if b then m else addDependencies (pushReference m context this) this context).
  intros fuel Hfuel. unfold addAsReferenceTo.
  rewrite (walk_fuel_mono _ _ _ _ _ Hb fuel) by lia. by destruct b.
Qed.

Section Count.

Variable localCount : ctx -> string -> nat.




End Count.

End Ranked.

(** ** The diamond *)

Lemma diamond_eq : diamond = Some diamond_mesh.
Proof. vm_compute. reflexivity. Qed.

Lemma diamond_refs c :
  refs diamond_mesh c =
    match c with
    | O => [1; 2]%nat
    | S O => [3%nat]
    | S (S O) => [3%nat]
    | _ => []
    end.
Proof.
  unfold refs, diamond_mesh; simpl.
  destruct c as [|[|[|c]]]; [done..|].
  by rewrite !lookup_insert_ne, lookup_empty by lia.
Qed.

Lemma diamond_ranked : ranked diamond_mesh diamond_rank.
Proof.
  intros c r. rewrite diamond_refs. destruct c as [|[|[|c]]]; simpl;
    rewrite ?elem_of_cons, ?elem_of_nil; intros H; simpl;
    repeat (destruct H as [->|H]; [simpl; lia|]); done.
Qed.

(** In the diamond the parser grammar 1 is the first entry of the array of
    the lexer grammar 0; unlinking it leaves the entry for grammar 2. *)
Lemma removeDependency_references_witness :
  1%nat ∈ refs diamond_mesh 0%nat /\
  exists before after,
    refs diamond_mesh 0%nat = before ++ 1%nat :: after /\ (1%nat ∉ before) /\
    refs (removeDependency diamond_mesh 1%nat 0%nat) 0%nat = before ++ after.
Proof.
  assert (Hin : 1%nat ∈ refs diamond_mesh 0%nat) by (rewrite diamond_refs; by left).
  split; [exact Hin|].
  exact (proj2 (proj2 (removeDependency_references diamond_mesh 1%nat 0%nat)) Hin).
Defined.

Lemma add_then_remove_witness :
  addAsReferenceTo 2 empty_mesh P L = Some (addDependencies (pushReference empty_mesh L P) P L) /\
  refs (removeDependency (addDependencies (pushReference empty_mesh L P) P L) P L) L = [].
Proof.
  assert (Hadd : addAsReferenceTo 2 empty_mesh P L
                 = Some (addDependencies (pushReference empty_mesh L P) P L))
    by (vm_compute; reflexivity).
  split; [exact Hadd|].
  refine (add_then_remove 2 empty_mesh P L _ Hadd _ L).
  vm_compute. intros H. by apply elem_of_nil in H.
Defined.

Lemma addAsReferenceTo_repeat_witness :
  addAsReferenceTo 2 empty_mesh P L = Some (addDependencies (pushReference empty_mesh L P) P L) /\
  addAsReferenceTo 2 (addDependencies (pushReference empty_mesh L P) P L) P L
    = Some (addDependencies (pushReference empty_mesh L P) P L).
Proof.
  assert (Hadd : addAsReferenceTo 2 empty_mesh P L
                 = Some (addDependencies (pushReference empty_mesh L P) P L))
    by (vm_compute; reflexivity).
  split; [exact Hadd|]. exact (addAsReferenceTo_repeat 2 empty_mesh P L _ Hadd).
Defined.

Lemma addAsReferenceTo_NoDup_witness :
  addAsReferenceTo 2 empty_mesh P L = Some (addDependencies (pushReference empty_mesh L P) P L) /\
  NoDup (refs (addDependencies (pushReference empty_mesh L P) P L) L).
Proof.
  assert (Hadd : addAsReferenceTo 2 empty_mesh P L
                 = Some (addDependencies (pushReference empty_mesh L P) P L))
    by (vm_compute; reflexivity).
  split; [exact Hadd|].
  refine (addAsReferenceTo_NoDup 2 empty_mesh P L _ Hadd _ L).
  intros c. unfold refs, empty_mesh; simpl. rewrite lookup_empty. apply NoDup_nil_2.
Defined.

Lemma addAsReferenceTo_returns_without_cycles_witness :
  ranked diamond_mesh diamond_rank /\
  exists m', addAsReferenceTo 6 diamond_mesh 3%nat 0%nat = Some m'.
Proof.
  split; [exact diamond_ranked|].
  destruct (addAsReferenceTo_returns_without_cycles diamond_mesh diamond_rank
              diamond_ranked 3%nat 0%nat) as [m' Hm'].
  exists m'. apply Hm'. vm_compute. lia.
Defined.


End MeshOps.


(** * Positions in the parse tree *)

Module Position.

Import Context.

Local Open Scope string_scope.
Local Open Scope list_scope.

Record Token := {
  line : Z;
  charPositionInLine : Z;
  startIndex : Z;
  stopIndex : Z;
  tokenText : string;
}.

Local Set Warnings "-register-all".

(** A terminal node with its token, or a rule context with its rule index,
    its first and last token and its children; [None] is the host's
    [undefined]. *)
Inductive ParseTree :=
| TerminalNode (symbol : Token)
| ParserRuleContext (ruleIndex : Z) (start stop : option Token)
                    (children : option (list ParseTree)).

(** A reference to a node of a tree: the node and the chain of its [parent]
    fields, nearest first. *)
Definition NodeRef : Type := ParseTree * list ParseTree.

(** Where a token ends, as both branches of [parseTreeFromPosition] compute
    it. *)
Definition tokenStop (t : Token) : Z :=
  charPositionInLine t + (stopIndex t - startIndex t + 1).

(** [parseTreeFromPosition], called on a node whose parents are [parents]. *)
Fixpoint parseTreeFromPosition (parents : list ParseTree) (root : ParseTree)
    (column row : Z) {struct root} : option NodeRef :=
  match root with
  | TerminalNode token =>
      if decide (line token <> row) then None
      else if decide (charPositionInLine token <= column /\ tokenStop token >= column)
           then Some (root, parents)
           else None
  | ParserRuleContext _ start stop children =>
      match start, stop with
      | Some start, Some stop =>
          if decide (line start > row \/
                     (line start = row /\ column < charPositionInLine start))
          then None
          else if decide (line stop < row \/ (line stop = row /\ tokenStop stop < column))
          then None
          else
            let fromChildren :=
              match children with
              | Some l =>
                  (fix firstResult (l : list ParseTree) : option NodeRef :=
                     match l with
                     | [] => None
                     | child :: l' =>
                         match parseTreeFromPosition (root :: parents) child column row with
                         | Some result => Some result
                         | None => firstResult l'
                         end
                     end) l
              | None => None
              end in
            match fromChildren with
            | Some result => Some result
            | None => Some (root, parents)
            end
      | _, _ => None
      end
  end.

(** The loop over the children, on its own. *)
Fixpoint firstResult (parents : list ParseTree) (l : list ParseTree) (column row : Z)
  : option NodeRef :=
  match l with
  | [] => None
  | child :: l' =>
      match parseTreeFromPosition parents child column row with
      | Some result => Some result
      | None => firstResult parents l' column row
      end
  end.

(** The position lies between the start of the node's first token and the
    end of its last token, lines first. *)
Definition covers (n : ParseTree) (column row : Z) : Prop :=
  match n with
  | TerminalNode token =>
      line token = row /\ charPositionInLine token <= column <= tokenStop token
  | ParserRuleContext _ (Some start) (Some stop) _ =>
      (line start < row \/ (line start = row /\ charPositionInLine start <= column)) /\
      (row < line stop \/ (line stop = row /\ column <= tokenStop stop))
  | ParserRuleContext _ _ _ _ => False
  end.

Definition childrenOf (n : ParseTree) : list ParseTree :=
  match n with
  | ParserRuleContext _ _ _ (Some l) => l
  | _ => []
  end.

(** [path] leads from the parent of [n] up to [root], each node a child of
    the next. *)
Fixpoint leadsTo (n : ParseTree) (path : list ParseTree) (root : ParseTree) : Prop :=
  match path with
  | [] => n = root
  | p :: path' => n ∈ childrenOf p /\ leadsTo p path' root
  end.

(** ** [ruleFromPosition] and [definitionForContext] *)

Definition ruleIndexOf (n : ParseTree) : option Z :=
  match n with
  | TerminalNode _ => None
  | ParserRuleContext ruleIndex _ _ _ => Some ruleIndex
  end.

Record Point := { column : Z; row : Z }.

Record LexicalRange := { rangeStart : Point; rangeEnd : Point }.

(** The [Definition] record of the facade. *)
Record DefinitionInfo := { text : string; range : LexicalRange }.

(** The three characters that count as quotes. *)
Definition quoteChars : list Ascii.ascii :=
  [Ascii.ascii_of_nat 34; Ascii.ascii_of_nat 96; Ascii.ascii_of_nat 39].

(** The end of [definitionForContext]: a text of at least two characters
    that starts and ends with the same quote loses both. *)
Definition withoutQuotes (keepQuotes : bool) (t : string) : string :=
  if keepQuotes || bool_decide (String.length t < 2)%nat then t
  else
    match String.get 0 t, String.get (String.length t - 1) t with
    | Some quoteChar, Some last =>
        if bool_decide (quoteChar ∈ quoteChars) && bool_decide (quoteChar = last)
        then String.substring 1 (String.length t - 2) t
        else t
    | _, _ => t
    end.

Section WithGrammar.

(** The rule indexes of the grammar of grammars and the accessors of its
    contexts, from the generated parser; an accessor throws when the context
    has no such child. *)
Variables RULE_parserRuleSpec RULE_lexerRuleSpec RULE_modeSpec RULE_grammarSpec : Z.
Variable RULE_REF_text : ParseTree -> Exception + string.
Variable TOKEN_REF_text : ParseTree -> Exception + string.
Variable SEMI : ParseTree -> Exception + Token.
Variable grammarTypeStart : ParseTree -> Exception + Token.

(** [cs.getText(range)] on the character stream behind a token, which throws
    when the token has no source. *)
Variable getText : Token -> Z -> Z -> Exception + string.

Variables (Symbol DiagnosticEntry InterpreterData : Type).

Local Abbreviation SourceContext :=
  (Context.SourceContext ParseTree Symbol DiagnosticEntry InterpreterData).

(** The [while] loop of [ruleFromPosition]: up the parents to the first rule
    specification. *)
Fixpoint enclosingRule (context : ParseTree) (parents : list ParseTree) : option ParseTree :=
  if bool_decide (ruleIndexOf context <> Some RULE_parserRuleSpec
                  /\ ruleIndexOf context <> Some RULE_lexerRuleSpec)
  then match parents with
       | [] => None
       | parent :: parents' => enclosingRule parent parents'
       end
  else Some context.

Definition ruleFromPosition (this : SourceContext) (column row : Z)
  : Exception + (option string * option nat) :=
  match tree this with
  | None => inl TypeError
  | Some root =>
      match parseTreeFromPosition [] root column row with
      | None => inr (None, None)
      | Some (node, parents) =>
          match enclosingRule node parents with
          | Some context =>
              if bool_decide (ruleIndexOf context = Some RULE_parserRuleSpec) then
                match RULE_REF_text context with
                | inl e => inl e
                | inr ruleName =>
                    inr (Some ruleName,
                         match grammarParserData this with
                         | Some _ => grammarParserRuleMap this !! ruleName
                         | None => None
                         end)
                end
              else
                match TOKEN_REF_text context with
                | inl e => inl e
                | inr name =>
                    inr (Some name,
                         match grammarLexerData this with
                         | Some _ => grammarLexerRuleMap this !! name
                         | None => None
                         end)
                end
          | None => inr (None, None)
          end
      end
  end.

(** The interval of the text and the range of a rule context, as
    [definitionForContext] adjusts them for mode and grammar specifications. *)
Definition contextRange (context : ParseTree) (ruleIndex : Z) (start stop : Token)
  : Exception + (Z * Z * Point * Point) :=
  let a := startIndex start in
  let b := stopIndex stop in
  let first := {| column := charPositionInLine start; row := line start |} in
  let last := {| column := charPositionInLine stop; row := line stop |} in
  if decide (ruleIndex = RULE_modeSpec) then
    match SEMI context with
    | inl e => inl e
    | inr semi =>
        inr (a, stopIndex semi, first,
             {| column := charPositionInLine semi; row := line semi |})
    end
  else if decide (ruleIndex = RULE_grammarSpec) then
    match SEMI context with
    | inl e => inl e
    | inr semi =>
        match grammarTypeStart context with
        | inl e => inl e
        | inr typeStart =>
            inr (startIndex typeStart, stopIndex semi,
                 {| column := charPositionInLine typeStart; row := line typeStart |},
                 {| column := charPositionInLine semi; row := line semi |})
        end
    end
  else inr (a, b, first, last).

Definition definitionForContext (ctx : option ParseTree) (keepQuotes : bool)
  : Exception + option DefinitionInfo :=
  match ctx with
  | None => inr None
  | Some (ParserRuleContext ruleIndex start stop _ as context) =>
      match start, stop with
      | Some start, Some stop =>
          match contextRange context ruleIndex start stop with
          | inl e => inl e
          | inr (a, b, first, last) =>
              match getText start a b with
              | inl e => inl e
              | inr raw =>
                  inr (Some {| text := withoutQuotes keepQuotes raw;
                               range := {| rangeStart := first; rangeEnd := last |} |})
              end
          end
      | _, _ => inl TypeError
      end
  | Some (TerminalNode symbol) =>
      let raw := tokenText symbol in
      inr (Some {| text := withoutQuotes keepQuotes raw;
                   range :=
                     {| rangeStart := {| column := charPositionInLine symbol;
                                         row := line symbol |};
                        rangeEnd := {| column := charPositionInLine symbol
                                                 + Z.of_nat (String.length raw);
                                       row := line symbol |} |} |})
  end.

End WithGrammar.

(** ** Induction on trees *)

Lemma ParseTree_induction (Q : ParseTree -> Prop) :
  (forall token, Q (TerminalNode token)) ->
  (forall ruleIndex start stop, Q (ParserRuleContext ruleIndex start stop None)) ->
  (forall ruleIndex start stop l,
     Forall Q l -> Q (ParserRuleContext ruleIndex start stop (Some l))) ->
  forall t, Q t.
Proof.
  intros Hterminal Hnone Hsome.
  fix IH 1. intros [token | ruleIndex start stop [l|]].
  - apply Hterminal.
  - apply Hsome. induction l as [|c l IHl]; constructor; [apply IH | apply IHl].
  - apply Hnone.
Qed.

Lemma parseTreeFromPosition_context parents ruleIndex start stop children column row :
  parseTreeFromPosition parents (ParserRuleContext ruleIndex start stop children) column row =
  match start, stop with
  | Some start', Some stop' =>
      if decide (line start' > row \/
                 (line start' = row /\ column < charPositionInLine start'))
      then None
      else if decide (line stop' < row \/ (line stop' = row /\ tokenStop stop' < column))
      then None
      else
        match firstResult (ParserRuleContext ruleIndex start stop children :: parents)
                          (default [] children) column row with
        | Some result => Some result
        | None => Some (ParserRuleContext ruleIndex start stop children, parents)
        end
  | _, _ => None
  end.
Proof.
  simpl. destruct start as [start'|]; [|done]. destruct stop as [stop'|]; [|done].
  repeat case_decide; try done.
  destruct children as [l|]; [|done]. simpl.
  set (root := ParserRuleContext ruleIndex (Some start') (Some stop') (Some l)).
  assert (Heq : forall l0,
    (fix firstResult (l1 : list ParseTree) : option NodeRef :=
       match l1 with
       | [] => None
       | child :: l' =>
           match parseTreeFromPosition (root :: parents) child column row with
           | Some result => Some result
           | None => firstResult l'
           end
       end) l0 = firstResult (root :: parents) l0 column row).
  { induction l0 as [|c l0 IHl]; [done|]. simpl. by rewrite IHl. }
  by rewrite Heq.
Qed.

(** ** What is found *)

Lemma found_iff_covers parents root column row :
  is_Some (parseTreeFromPosition parents root column row) <-> covers root column row.
Proof.
  destruct root as [token | ruleIndex start stop children].
  - simpl. repeat case_decide; split; intros Hyp; try done; try (by destruct Hyp); try lia.
  - rewrite parseTreeFromPosition_context. simpl.
    destruct start as [start'|], stop as [stop'|]; try (split; [by intros [? ?] | done]).
    repeat case_decide.
    + split; [by intros [? ?] | lia].
    + split; [by intros [? ?] | lia].
    + split; [lia|]. intros _.
      by destruct (firstResult _ _ column row); eexists.
Qed.

(** A node is found exactly when the root covers the position: outside the
    root the answer is [undefined], inside it never is. *)
Theorem parseTreeFromPosition_found parents root column row :
  (covers root column row -> is_Some (parseTreeFromPosition parents root column row)) /\
  (~ covers root column row -> parseTreeFromPosition parents root column row = None).
Proof.
  split.
  - apply found_iff_covers.
  - intros Hout. destruct (parseTreeFromPosition parents root column row) eqn:Hfound; [|done].
    exfalso. apply Hout, (found_iff_covers parents). rewrite Hfound. by eexists.
Qed.

Lemma found_path root :
  forall parents column row n ancestors,
    parseTreeFromPosition parents root column row = Some (n, ancestors) ->
    exists path,
      ancestors = path ++ parents /\
      leadsTo n path root /\
      covers n column row /\
      Forall (fun p => covers p column row) path /\
      Forall (fun c => ~ covers c column row) (childrenOf n).
Proof.
  induction root as [token | ruleIndex start stop | ruleIndex start stop l IH]
    using ParseTree_induction; intros parents column row n ancestors.
  - intros Hfound.
    assert (Hcov : covers (TerminalNode token) column row)
      by (apply (found_iff_covers parents); rewrite Hfound; by eexists).
    simpl in Hfound. repeat case_decide; try done. injection Hfound as <- <-.
    exists []. split; [done|]. split; [done|]. split; [exact Hcov|].
    split; apply Forall_nil_2.
  - intros Hfound.
    assert (Hcov : covers (ParserRuleContext ruleIndex start stop None) column row)
      by (apply (found_iff_covers parents); rewrite Hfound; by eexists).
    rewrite parseTreeFromPosition_context in Hfound.
    destruct start as [start'|], stop as [stop'|]; try done.
    repeat case_decide; try done. simpl in Hfound. injection Hfound as <- <-.
    exists []. split; [done|]. split; [done|]. split; [exact Hcov|].
    split; apply Forall_nil_2.
  - intros Hfound.
    set (root := ParserRuleContext ruleIndex start stop (Some l)) in *.
    assert (Hcov : covers root column row)
      by (apply (found_iff_covers parents); rewrite Hfound; by eexists).
    unfold root in Hfound. rewrite parseTreeFromPosition_context in Hfound. fold root in Hfound.
    destruct start as [start'|], stop as [stop'|]; try done.
    repeat case_decide; try done. simpl in Hfound.
    assert (Hchildren :
      forall l0, Forall (fun c => forall parents column row n ancestors,
                   parseTreeFromPosition parents c column row = Some (n, ancestors) ->
                   exists path,
                     ancestors = path ++ parents /\ leadsTo n path c /\
                     covers n column row /\ Forall (fun p => covers p column row) path /\
                     Forall (fun c => ~ covers c column row) (childrenOf n)) l0 ->
        match firstResult (root :: parents) l0 column row with
        | Some (n, ancestors) =>
            exists c path, c ∈ l0 /\ ancestors = path ++ root :: parents /\
              leadsTo n path c /\ covers n column row /\
              Forall (fun p => covers p column row) path /\
              Forall (fun c => ~ covers c column row) (childrenOf n)
        | None => Forall (fun c => ~ covers c column row) l0
        end).
    { induction l0 as [|c l0 IHl]; intros Hall; simpl; [apply Forall_nil_2|].
      apply Forall_cons in Hall as [Hc Hall].
      destruct (parseTreeFromPosition (root :: parents) c column row) as [[n' anc']|] eqn:Hc'.
      - destruct (Hc _ _ _ _ _ Hc') as (path & -> & ? & ? & ? & ?).
        exists c, path. split; [by left | done].
      - specialize (IHl Hall).
        destruct (firstResult (root :: parents) l0 column row) as [[n' anc']|].
        + destruct IHl as (c' & path & ? & ?). exists c', path. split; [by right | done].
        + apply Forall_cons. split; [|done]. intros Hcc.
          apply (found_iff_covers (root :: parents)) in Hcc.
          rewrite Hc' in Hcc. by destruct Hcc. }
    specialize (Hchildren l IH).
    destruct (firstResult (root :: parents) l column row) as [[n' anc']|].
    + injection Hfound as <- <-.
      destruct Hchildren as (c & path & Hin & -> & Hlead & Hn & Hpath & Hlow).
      exists (path ++ [root]). rewrite <- app_assoc. split; [done|]. split.
      { clear -Hlead Hin. revert n' Hlead. induction path as [|p path IHp]; intros n' Hlead.
        - simpl in *. subst. done.
        - simpl in *. destruct Hlead as [? ?]. split; [done|]. by apply IHp. }
      split; [done|]. split; [|done].
      apply Forall_app. split; [done|]. apply Forall_cons. split; [done | apply Forall_nil_2].
    + injection Hfound as <- <-. exists []. split; [done|]. split; [done|].
      split; [exact Hcov|]. split; [apply Forall_nil_2 | exact Hchildren].
Qed.

(** The node that is found covers the position, and so does every node on
    the way up to the root; none of its children covers the position. *)
Theorem parseTreeFromPosition_lowest root column row n ancestors :
  parseTreeFromPosition [] root column row = Some (n, ancestors) ->
  leadsTo n ancestors root /\
  covers n column row /\
  Forall (fun p => covers p column row) ancestors /\
  Forall (fun c => ~ covers c column row) (childrenOf n).
Proof.
  intros (path & -> & Hpath)%found_path. by rewrite app_nil_r.
Qed.

(** ** Quotes *)

Lemma get_append_last (s : string) (c : Ascii.ascii) :
  String.get (String.length s) (s ++ String c "")%string = Some c.
Proof. induction s as [|c' s IH]; [done | exact IH]. Qed.

Lemma length_append (s1 s2 : string) :
  String.length (s1 ++ s2)%string = (String.length s1 + String.length s2)%nat.
Proof. induction s1 as [|c s1 IH]; simpl; [done | by rewrite IH]. Qed.

Lemma substring_all_but_last (s : string) (c : Ascii.ascii) :
  String.substring 0 (String.length s) (s ++ String c "")%string = s.
Proof. induction s as [|c' s IH]; simpl; [done | by rewrite IH]. Qed.

Lemma string_snoc (t : string) :
  t <> "" -> exists s c, t = (s ++ String c "")%string.
Proof.
  induction t as [|c' t IH]; [done|]. intros _. destruct t as [|c'' t].
  - by exists "", c'.
  - destruct IH as (s & c & Heq); [done|]. exists (String c' s), c. by rewrite Heq.
Qed.

Lemma split_last (t : string) (c : Ascii.ascii) :
  t <> "" ->
  String.get (String.length t - 1) t = Some c ->
  t = (String.substring 0 (String.length t - 1) t ++ String c "")%string.
Proof.
  intros (s & c' & ->)%string_snoc. rewrite length_append. simpl String.length.
  replace (String.length s + 1 - 1)%nat with (String.length s) by lia.
  rewrite get_append_last, substring_all_but_last. by intros [= ->].
Qed.

(** Without [keepQuotes] a text that is wrapped in one of the three quote
    characters comes back without its first and its last character, and any
    other text comes back as it is. *)
Lemma withoutQuotes_spec (t : string) :
  withoutQuotes true t = t /\
  (withoutQuotes false t = t \/
   exists q, q ∈ quoteChars /\ t = String q (withoutQuotes false t ++ String q "")) /\
  (forall q inner, q ∈ quoteChars -> t = String q (inner ++ String q "") ->
                   withoutQuotes false t = inner).
Proof.
  split; [done|]. unfold withoutQuotes. rewrite orb_false_l. split.
  - case_bool_decide as Hlen; [by left|].
    destruct t as [|q t]; [simpl in Hlen; lia|].
    assert (Hne : t <> "") by (intros ->; simpl in Hlen; lia).
    replace (String.length (String q t) - 1)%nat with (S (String.length t - 1))
      by (destruct t; [done | simpl; lia]).
    replace (String.length (String q t) - 2)%nat with (String.length t - 1)%nat
      by (simpl; lia).
    change (String.get 0 (String q t)) with (Some q).
    change (String.get (S (String.length t - 1)) (String q t))
      with (String.get (String.length t - 1) t).
    change (String.substring 1 (String.length t - 1) (String q t))
      with (String.substring 0 (String.length t - 1) t).
    destruct (String.get (String.length t - 1) t) as [last|] eqn:Hlast; [|by left].
    case_bool_decide as Hq; [|by left]. case_bool_decide as Heq; [|by left]. subst last.
    right. exists q. split; [done|]. f_equal. by apply split_last.
  - intros q inner Hq ->. rewrite bool_decide_eq_false_2.
    2:{ simpl. rewrite length_append. simpl. lia. }
    replace (String.length (String q (inner ++ String q "")) - 1)%nat
      with (S (String.length inner)) by (simpl; rewrite length_append; simpl; lia).
    replace (String.length (String q (inner ++ String q "")) - 2)%nat
      with (String.length inner) by (simpl; rewrite length_append; simpl; lia).
    change (String.get 0 (String q (inner ++ String q ""))) with (Some q).
    change (String.get (S (String.length inner)) (String q (inner ++ String q "")))
      with (String.get (String.length inner) (inner ++ String q "")).
    change (String.substring 1 (String.length inner) (String q (inner ++ String q "")))
      with (String.substring 0 (String.length inner) (inner ++ String q "")).
    rewrite get_append_last, !bool_decide_eq_true_2 by done.
    apply substring_all_but_last.
Qed.

Section GrammarFacts.

Variables RULE_parserRuleSpec RULE_lexerRuleSpec RULE_modeSpec RULE_grammarSpec : Z.
Variable RULE_REF_text : ParseTree -> Exception + string.
Variable TOKEN_REF_text : ParseTree -> Exception + string.
Variable SEMI : ParseTree -> Exception + Token.
Variable grammarTypeStart : ParseTree -> Exception + Token.
Variable getText : Token -> Z -> Z -> Exception + string.
Variables (Symbol DiagnosticEntry InterpreterData : Type).

Local Abbreviation SourceContext :=
  (Context.SourceContext ParseTree Symbol DiagnosticEntry InterpreterData).
Local Abbreviation enclosingRule := (enclosingRule RULE_parserRuleSpec RULE_lexerRuleSpec).
Local Abbreviation ruleFromPosition :=
  (ruleFromPosition RULE_parserRuleSpec RULE_lexerRuleSpec RULE_REF_text TOKEN_REF_text
                    Symbol DiagnosticEntry InterpreterData).
Local Abbreviation definitionForContext :=
  (definitionForContext RULE_modeSpec RULE_grammarSpec SEMI grammarTypeStart getText).

(** [keepQuotes] decides about the text only: outcome and range are the same
    with and without it, and the text without it is the text with it minus a
    pair of equal quote characters around it, if there is one. *)
Theorem definitionForContext_keepQuotes ctx :
  match definitionForContext ctx true, definitionForContext ctx false with
  | inr (Some raw), inr (Some d) =>
      range d = range raw /\
      (text d = text raw \/
       exists q, q ∈ quoteChars /\ text raw = String q (text d ++ String q "")) /\
      (forall q inner, q ∈ quoteChars -> text raw = String q (inner ++ String q "") ->
                       text d = inner)
  | inr None, inr None => True
  | inl e, inl e' => e = e'
  | _, _ => False
  end.
Proof.
  unfold definitionForContext.
  destruct ctx as [[symbol | ruleIndex [start|] [stop|] children]|]; try done.
  - simpl. split; [done|]. apply withoutQuotes_spec.
  - simpl.
    destruct (contextRange _ _ _ _ _ _ _ _) as [e|[[[a b] first] last]]; [done|].
    destruct (getText start a b) as [e|raw]; [done|]. simpl.
    split; [done|]. apply withoutQuotes_spec.
Qed.

Lemma enclosingRule_spec context parents rule :
  enclosingRule context parents = Some rule ->
  rule ∈ context :: parents /\
  (ruleIndexOf rule = Some RULE_parserRuleSpec \/ ruleIndexOf rule = Some RULE_lexerRuleSpec).
Proof.
  revert context. induction parents as [|parent parents IH]; intros context; simpl.
  - case_bool_decide as Hrule; [done|]. intros [= <-]. split; [by left|].
    destruct (decide (ruleIndexOf context = Some RULE_parserRuleSpec)); [by left|].
    destruct (decide (ruleIndexOf context = Some RULE_lexerRuleSpec)); [by right|].
    by destruct Hrule.
  - case_bool_decide as Hrule.
    + intros [? ?]%IH. split; [by right | done].
    + intros [= <-]. split; [by left|].
      destruct (decide (ruleIndexOf context = Some RULE_parserRuleSpec)); [by left|].
      destruct (decide (ruleIndexOf context = Some RULE_lexerRuleSpec)); [by right|].
      by destruct Hrule.
Qed.

(** Outside the tree [ruleFromPosition] names no rule.  The rule it names is
    a rule specification that covers the position, and it comes with an index
    only when the interpreter data of its kind is loaded: the index the rule
    map of that kind holds for it. *)
Theorem ruleFromPosition_names_covering_rule (this : SourceContext) root column row :
  tree this = Some root ->
  (~ covers root column row -> ruleFromPosition this column row = inr (None, None)) /\
  (forall name index,
     ruleFromPosition this column row = inr (name, index) ->
     match name with
     | None => index = None
     | Some ruleName =>
         exists rule,
           covers rule column row /\
           ((ruleIndexOf rule = Some RULE_parserRuleSpec /\
             RULE_REF_text rule = inr ruleName /\
             index = (grammarParserData this ≫= fun _ => grammarParserRuleMap this !! ruleName))
            \/
            (ruleIndexOf rule = Some RULE_lexerRuleSpec /\
             TOKEN_REF_text rule = inr ruleName /\
             index = (grammarLexerData this ≫= fun _ => grammarLexerRuleMap this !! ruleName)))
     end).
Proof.
  intros Htree. unfold ruleFromPosition. rewrite Htree. split.
  - intros Hout.
    destruct (parseTreeFromPosition [] root column row) as [[node parents]|] eqn:Hfound;
      [|done].
    exfalso. apply Hout, (found_iff_covers []). rewrite Hfound. by eexists.
  - intros name index.
    destruct (parseTreeFromPosition [] root column row) as [[node parents]|] eqn:Hfound;
      [|by intros [= <- <-]].
    apply found_path in Hfound as (path & -> & _ & Hnode & Hpath & _).
    rewrite app_nil_r.
    destruct (enclosingRule node path) as [rule|] eqn:Hrule; [|by intros [= <- <-]].
    apply enclosingRule_spec in Hrule as [Hin Hkind].
    assert (Hrc : covers rule column row).
    { apply elem_of_cons in Hin as [->|Hin]; [done|].
      rewrite Forall_forall in Hpath. by apply Hpath. }
    case_bool_decide as Hparser.
    + destruct (RULE_REF_text rule) as [e|ruleName] eqn:Htext; [done|].
      intros [= <- <-]. exists rule. split; [done|]. left.
      split; [done|]. split; [done|]. by destruct (grammarParserData this).
    + destruct Hkind as [?|Hlexer]; [done|].
      destruct (TOKEN_REF_text rule) as [e|ruleName] eqn:Htext; [done|].
      intros [= <- <-]. exists rule. split; [done|]. right.
      split; [done|]. split; [done|]. by destruct (grammarLexerData this).
Qed.

End GrammarFacts.

Module Example.

Definition token (l c first last : Z) (t : string) : Token :=
  {| line := l; charPositionInLine := c; startIndex := first; stopIndex := last;
     tokenText := t |}.

(** The two lines [grammar T;] and [r: 'a' ;]. *)
Definition kwGrammar := token 1 0 0 6 "grammar".
Definition nameT := token 1 8 8 8 "T".
Definition semi1 := token 1 9 9 9 ";".
Definition nameR := token 2 0 11 11 "r".
Definition colon := token 2 1 12 12 ":".
Definition literalA := token 2 3 14 16 "'a'".
Definition semi2 := token 2 7 18 18 ";".

Definition RULE_grammarSpec : Z := 0.
Definition RULE_parserRuleSpec : Z := 1.
Definition RULE_lexerRuleSpec : Z := 2.

Definition ruleR : ParseTree :=
  ParserRuleContext RULE_parserRuleSpec (Some nameR) (Some semi2)
    (Some [TerminalNode nameR; TerminalNode colon; TerminalNode literalA; TerminalNode semi2]).

Definition root : ParseTree :=
  ParserRuleContext RULE_grammarSpec (Some kwGrammar) (Some semi2)
    (Some [TerminalNode kwGrammar; TerminalNode nameT; TerminalNode semi1; ruleR]).

(** The text of the first child, when it is a terminal. *)
Definition firstTerminal (n : ParseTree) : Exception + string :=
  match n with
  | ParserRuleContext _ _ _ (Some (TerminalNode t :: _)) => inr (tokenText t)
  | _ => inl (OtherError "The specified token does not exist")
  end.

(** A context with the tree above and parser interpreter data for it. *)
Definition context : Context.SourceContext ParseTree unit unit (list string) :=
  {| fileName := "T.g4";
     symbolTable := {| symbols := []; tableDependencies := []; tableTree := Some root |};
     info := {| type := Parser; unreferencedRules := []; imports := [] |};
     diagnostics := [];
     rrdScripts := None;
     semanticAnalysisDone := false;
     tokenStream := {| source := "grammar T; r: 'a' ;"; index := 0 |};
     parser := None;
     grammarLexerData := None;
     grammarLexerRuleMap := ∅;
     grammarParserData := Some ["r"];
     grammarParserRuleMap := {[ "r" := 0%nat ]};
     tree := Some root |}.

Definition ruleFromPosition :=
  ruleFromPosition RULE_parserRuleSpec RULE_lexerRuleSpec firstTerminal firstTerminal
                   unit unit (list string).

End Example.

(** On the example the literal is found under its rule, and the position
    after the end of the last line is outside the tree. *)
Lemma parseTreeFromPosition_found_witness :
  covers Example.root 4 2 /\ is_Some (parseTreeFromPosition [] Example.root 4 2) /\
  ~ covers Example.root 0 3 /\ parseTreeFromPosition [] Example.root 0 3 = None.
Proof.
  assert (Hin : covers Example.root 4 2) by (cbv -[Z.lt Z.le Z.add Z.sub]; lia).
  assert (Hout : ~ covers Example.root 0 3) by (cbv -[Z.lt Z.le Z.add Z.sub]; lia).
  split; [exact Hin|]. split; [exact (proj1 (parseTreeFromPosition_found _ _ _ _) Hin)|].
  split; [exact Hout|]. exact (proj2 (parseTreeFromPosition_found _ _ _ _) Hout).
Defined.

Lemma parseTreeFromPosition_lowest_witness :
  parseTreeFromPosition [] Example.root 4 2
  = Some (TerminalNode Example.literalA, [Example.ruleR; Example.root]) /\
  leadsTo (TerminalNode Example.literalA) [Example.ruleR; Example.root] Example.root /\
  covers (TerminalNode Example.literalA) 4 2 /\
  Forall (fun p => covers p 4 2) [Example.ruleR; Example.root] /\
  Forall (fun c => ~ covers c 4 2) (childrenOf (TerminalNode Example.literalA)).
Proof.
  assert (Hfound : parseTreeFromPosition [] Example.root 4 2
                   = Some (TerminalNode Example.literalA, [Example.ruleR; Example.root]))
    by reflexivity.
  split; [exact Hfound|]. exact (parseTreeFromPosition_lowest _ _ _ _ _ Hfound).
Defined.

Lemma ruleFromPosition_names_covering_rule_witness :
  tree Example.context = Some Example.root /\
  Example.ruleFromPosition Example.context 4 2 = inr (Some "r", Some 0%nat) /\
  exists rule,
    covers rule 4 2 /\
    ((ruleIndexOf rule = Some Example.RULE_parserRuleSpec /\
      Example.firstTerminal rule = inr "r" /\
      Some 0%nat = (grammarParserData Example.context
                    ≫= fun _ => grammarParserRuleMap Example.context !! "r"))
     \/
     (ruleIndexOf rule = Some Example.RULE_lexerRuleSpec /\
      Example.firstTerminal rule = inr "r" /\
      Some 0%nat = (grammarLexerData Example.context
                    ≫= fun _ => grammarLexerRuleMap Example.context !! "r"))).
Proof.
  assert (Htree : tree Example.context = Some Example.root) by reflexivity.
  assert (Hrule : Example.ruleFromPosition Example.context 4 2 = inr (Some "r", Some 0%nat))
    by (vm_compute; reflexivity).
  split; [exact Htree|]. split; [exact Hrule|].
  exact (proj2 (ruleFromPosition_names_covering_rule
                  Example.RULE_parserRuleSpec Example.RULE_lexerRuleSpec
                  Example.firstTerminal Example.firstTerminal unit unit (list string)
                  Example.context Example.root 4 2 Htree) _ _ Hrule).
Defined.

End Position.

(** * The shape of the graph of a rule *)

Module Graph.

Import Context ATN.

Local Open Scope string_scope.
Local Open Scope list_scope.

Section Links.

Variable Vocabulary : Type.
Variable getDisplayName : Vocabulary -> Z -> string.
Variable data : InterpreterData Vocabulary.
Variable isLexerRule : bool.
Variable stopState : option nat.

Local Abbreviation ensureATNNode := (ensureATNNode data).
Local Abbreviation followTransition :=
  (followTransition Vocabulary getDisplayName data isLexerRule stopState).
Local Abbreviation forTransitions :=
  (forTransitions Vocabulary getDisplayName data isLexerRule stopState).
Local Abbreviation expand := (expand Vocabulary getDisplayName data isLexerRule stopState).
Local Abbreviation traverse := (traverse Vocabulary getDisplayName data isLexerRule stopState).

(** Every registered index and both ends of every link are positions in
    [nodes]. *)
Definition closed (x : Locals) : Prop :=
  (forall k i, stateToIndex x !! k = Some i -> (i < length (nodes (result x)))%nat) /\
  Forall (fun l => (source l < length (nodes (result x)))%nat /\
                   (linkTarget l < length (nodes (result x)))%nat)
         (links (result x)).

(** The graph grows at the end only. *)
Definition extends (x x' : Locals) : Prop := nodes (result x) `prefix_of` nodes (result x').

Lemma extends_length x x' :
  extends x x' -> (length (nodes (result x)) <= length (nodes (result x')))%nat.
Proof. apply prefix_length. Qed.

Lemma extends_refl x : extends x x.
Proof. unfold extends. reflexivity. Qed.

Lemma extends_trans x y z : extends x y -> extends y z -> extends x z.
Proof. unfold extends. intros. by etrans. Qed.

Lemma closed_pushLink l x :
  closed x ->
  (source l < length (nodes (result x)))%nat ->
  (linkTarget l < length (nodes (result x)))%nat ->
  closed (pushLink l x).
Proof.
  intros [Hindex Hlinks] Hs Ht. split; [exact Hindex|]. simpl.
  apply Forall_app. split; [exact Hlinks|]. by apply Forall_singleton.
Qed.

Lemma ensureATNNode_closed id' state x :
  closed x ->
  closed (snd (ensureATNNode id' state x)) /\
  extends x (snd (ensureATNNode id' state x)) /\
  (fst (ensureATNNode id' state x) < length (nodes (result (snd (ensureATNNode id' state x)))))%nat.
Proof.
  intros [Hindex Hlinks]. unfold ATN.ensureATNNode.
  destruct (stateToIndex x !! id') as [index|] eqn:Hid; simpl.
  - split; [by split|]. split; [apply extends_refl|]. by eapply Hindex.
  - destruct (ruleCall _ _ _) as [t|]; unfold closed, extends, decrementRuleIndex, pushNode, setIndex; simpl.
    + split; [split|split].
      * intros k i [[_ <-]|[_ [[_ <-]|[_ Hk]]%lookup_insert_Some]]%lookup_insert_Some;
          rewrite ?length_app; simpl; try lia.
        apply Hindex in Hk. lia.
      * eapply Forall_impl; [exact Hlinks|]. intros l [? ?]. rewrite !length_app. simpl. lia.
      * unfold extends. simpl. rewrite <- app_assoc. by apply prefix_app_r.
      * rewrite !length_app. simpl. lia.
    + split; [split|split].
      * intros k i [[_ <-]|[_ Hk]]%lookup_insert_Some; rewrite ?length_app; simpl; [lia|].
        apply Hindex in Hk. lia.
      * eapply Forall_impl; [exact Hlinks|]. intros l [? ?]. rewrite !length_app. simpl. lia.
      * unfold extends. simpl. by apply prefix_app_r.
      * rewrite !length_app. simpl. lia.
Qed.

Lemma followTransition_closed state sourceIndex x transition x' :
  closed x -> (sourceIndex < length (nodes (result x)))%nat ->
  followTransition state sourceIndex x transition = inr x' ->
  closed x' /\ extends x x'.
Proof.
  intros Hx Hsource. unfold ATN.followTransition.
  case_decide; [intros [= <-]; split; [done | apply extends_refl]|].
  set (marker := (_ * _)%Z).
  pose proof (ensureATNNode_closed marker (target transition) x Hx) as (Hc1 & He1 & Hi1).
  destruct (ensureATNNode marker (target transition) x) as [targetIndex x1]. simpl in *.
  pose proof (extends_length _ _ He1) as Hlen1.
  assert (Hc2 : closed (pushLink {| source := sourceIndex; linkTarget := targetIndex;
                                    linkType := serializationType transition;
                                    labels := linkLabels Vocabulary getDisplayName data
                                                         isLexerRule transition |} x1))
    by (apply closed_pushLink; simpl; [done | lia | done]).
  case_bool_decide.
  - destruct (followState transition) as [nextState|]; [|done].
    match goal with |- context [ensureATNNode ?k ?n ?y] =>
      pose proof (ensureATNNode_closed k n y Hc2) as (Hc3 & He3 & Hi3);
      destruct (ensureATNNode k n y) as [returnIndex x3]
    end.
    simpl in *. pose proof (extends_length _ _ He3) as Hlen3. simpl in Hlen3.
    assert (Hc4 : closed (pushLink {| source := targetIndex; linkTarget := returnIndex;
                                      linkType := RULE; labels := ["ε"] |} x3))
      by (apply closed_pushLink; simpl; [done | lia | done]).
    assert (He4 : extends x x3) by (unfold extends in *; simpl in *; by etrans).
    case_decide; intros [= <-]; by split.
  - case_decide; intros [= <-]; by split.
Qed.

Lemma forTransitions_closed state sourceIndex ts : forall x x',
  closed x -> (sourceIndex < length (nodes (result x)))%nat ->
  forTransitions state sourceIndex ts x = inr x' ->
  closed x' /\ extends x x'.
Proof.
  induction ts as [|transition ts IH]; intros x x' Hx Hsource; simpl.
  - intros [= <-]. split; [done | apply extends_refl].
  - destruct (followTransition state sourceIndex x transition) as [e|x1] eqn:Hfollow; [done|].
    apply followTransition_closed in Hfollow as [Hc1 He1]; [|done|done].
    intros Hrest. apply IH in Hrest as [Hc2 He2]; [|done|].
    + split; [done|]. by eapply extends_trans.
    + pose proof (extends_length _ _ He1). lia.
Qed.

Lemma expand_closed state x x' :
  closed x -> expand state x = inr x' -> closed x' /\ extends x x'.
Proof.
  intros Hx. unfold ATN.expand.
  pose proof (ensureATNNode_closed (Z.of_nat state) state x Hx) as (Hc1 & He1 & Hi1).
  destruct (ensureATNNode (Z.of_nat state) state x) as [sourceIndex x1]. simpl in *.
  intros [Hc2 He2]%forTransitions_closed; [|done|done].
  split; [done|]. by eapply extends_trans.
Qed.

Lemma traverse_closed fuel : forall x x',
  closed x -> traverse fuel x = Some (inr x') -> closed x' /\ extends x x'.
Proof.
  induction fuel as [|fuel IH]; intros x x' Hx; simpl; [done|].
  destruct (pipeline x) as [|state rest] eqn:Hpipeline;
    [intros [= <-]; split; [done | apply extends_refl]|].
  destruct (expand state (setPipeline rest x)) as [e|x1] eqn:Hexpand; [done|].
  apply expand_closed in Hexpand as [Hc1 He1]; [|done].
  intros [Hc2 He2]%IH; [|done]. split; [done|]. by eapply extends_trans.
Qed.

Lemma closed_initial startState : closed (initial startState).
Proof. split; [done | apply Forall_nil_2]. Qed.

(** The first iteration of the loop puts the node of the start state at the
    head of [nodes]. *)
Lemma traverse_first fuel startState x' :
  traverse fuel (initial startState) = Some (inr x') ->
  exists rest,
    nodes (result x')
    = {| id := Z.of_nat startState; name := Some (pretty (Z.of_nat startState));
         type := stateTypeTag (stateType (stateAt data startState)) |} :: rest.
Proof.
  destruct fuel as [|fuel]; [done|]. simpl.
  destruct (expand startState (setPipeline [] (initial startState))) as [e|x1] eqn:Hexpand;
    [done|].
  intros [_ He2]%traverse_closed.
  2:{ apply expand_closed in Hexpand as [? _]; [done|]. apply closed_initial. }
  unfold ATN.expand in Hexpand.
  pose proof (ensureATNNode_closed (Z.of_nat startState) startState
                (setPipeline [] (initial startState)) (closed_initial startState))
    as (Hc0 & _ & Hi0).
  assert (Hhead : exists rest0,
    nodes (result (snd (ensureATNNode (Z.of_nat startState) startState
                                      (setPipeline [] (initial startState)))))
    = {| id := Z.of_nat startState; name := Some (pretty (Z.of_nat startState));
         type := stateTypeTag (stateType (stateAt data startState)) |} :: rest0).
  { unfold ATN.ensureATNNode. simpl. rewrite lookup_empty.
    destruct (ruleCall _ _ _); simpl; by eexists. }
  destruct (ensureATNNode (Z.of_nat startState) startState _) as [sourceIndex x0].
  simpl in *. destruct Hhead as [rest0 Hhead].
  apply forTransitions_closed in Hexpand as [_ He1]; [|done|done].
  destruct (extends_trans _ _ _ He1 He2) as [rest Hrest]. rewrite Hrest, Hhead.
  by eexists.
Qed.

End Links.

Section GetATNGraph.

Variable Vocabulary : Type.
Variable getDisplayName : Vocabulary -> Z -> string.
Variable toUpperCase : string -> string.
Variables (Tree Symbol DiagnosticEntry : Type).

Local Abbreviation SourceContext :=
  (Context.SourceContext Tree Symbol DiagnosticEntry (InterpreterData Vocabulary)).
Local Abbreviation getATNGraph :=
  (getATNGraph Vocabulary getDisplayName toUpperCase Tree Symbol DiagnosticEntry).
Local Abbreviation selectRule :=
  (selectRule Vocabulary toUpperCase Tree Symbol DiagnosticEntry).

Lemma getATNGraph_traversal (this : SourceContext) rule graph :
  getATNGraph this rule = Some (inr (Some graph)) ->
  exists isLexerRule data ruleIndex startState fuel x,
    selectRule this rule = inr (Some (isLexerRule, data, ruleIndex)) /\
    ruleToStartState (atn data) !! ruleIndex = Some startState /\
    traverse Vocabulary getDisplayName data isLexerRule
             (ruleToStopState (atn data) !! ruleIndex) fuel (initial startState)
    = Some (inr x) /\
    graph = result x.
Proof.
  unfold ATN.getATNGraph, ATN.runGraph.
  destruct (selectRule this rule) as [e|[[[isLexerRule data] ruleIndex]|]]; [done| |done].
  destruct (ruleToStartState (atn data) !! ruleIndex) as [startState|] eqn:Hstart; [|done].
  destruct (traverse _ _ _ _ _ _ _) as [[e|x]|] eqn:Htraverse; [done| |done].
  intros [= <-]. by eexists _, _, _, _, _, _.
Qed.

(** Both ends of every link of the graph are positions in its list of
    nodes. *)
Theorem getATNGraph_links_join_nodes (this : SourceContext) rule graph :
  getATNGraph this rule = Some (inr (Some graph)) ->
  Forall (fun l => (source l < length (nodes graph))%nat /\
                   (linkTarget l < length (nodes graph))%nat)
         (links graph).
Proof.
  intros (isLexerRule & data & ruleIndex & startState & fuel & x & _ & _ & Htraverse & ->)
    %getATNGraph_traversal.
  apply traverse_closed in Htraverse as [[_ Hlinks] _]; [done | apply closed_initial].
Qed.

(** The graph of a rule begins with the node of the start state of that
    rule, named by its state number. *)
Theorem getATNGraph_begins_with_start_state (this : SourceContext) rule graph :
  getATNGraph this rule = Some (inr (Some graph)) ->
  exists isLexerRule data ruleIndex startState rest,
    selectRule this rule = inr (Some (isLexerRule, data, ruleIndex)) /\
    ruleToStartState (atn data) !! ruleIndex = Some startState /\
    nodes graph
    = {| id := Z.of_nat startState; name := Some (pretty (Z.of_nat startState));
         type := stateTypeTag (stateType (stateAt data startState)) |} :: rest.
Proof.
  intros (isLexerRule & data & ruleIndex & startState & fuel & x & Hselect & Hstart
          & Htraverse & ->)%getATNGraph_traversal.
  apply traverse_first in Htraverse as [rest Hrest].
  by exists isLexerRule, data, ruleIndex, startState, rest.
Qed.

End GetATNGraph.

(** In the graph of [r] in [r : s ;  s : A ;] every link joins two of the
    nodes. *)
Lemma getATNGraph_links_join_nodes_witness :
  exists graph,
    Example.graphOf Example.calls "r" = Some (inr (Some graph)) /\
    links graph <> [] /\
    Forall (fun l => (source l < length (nodes graph))%nat /\
                     (linkTarget l < length (nodes graph))%nat)
           (links graph).
Proof.
  eexists. split; [vm_compute; reflexivity|]. split; [discriminate|].
  apply (getATNGraph_links_join_nodes unit Example.displayName Example.toUpperCase
           unit unit unit (Example.parserContext Example.calls) "r").
  vm_compute. reflexivity.
Defined.

(** The graph of [s] in the same grammar begins with state 2, the start
    state of [s]. *)
Lemma getATNGraph_begins_with_start_state_witness :
  exists graph isLexerRule data ruleIndex startState rest,
    Example.graphOf Example.calls "s" = Some (inr (Some graph)) /\
    selectRule unit Example.toUpperCase unit unit unit
               (Example.parserContext Example.calls) "s"
    = inr (Some (isLexerRule, data, ruleIndex)) /\
    ruleToStartState (atn data) !! ruleIndex = Some startState /\
    nodes graph
    = {| id := Z.of_nat startState; name := Some (pretty (Z.of_nat startState));
         type := stateTypeTag (stateType (stateAt data startState)) |} :: rest.
Proof.
  eexists.
  assert (Hgraph : getATNGraph unit Example.displayName Example.toUpperCase unit unit unit
                     (Example.parserContext Example.calls) "s" = Some (inr (Some _)))
    by (vm_compute; reflexivity).
  destruct (getATNGraph_begins_with_start_state
              unit Example.displayName Example.toUpperCase unit unit unit
              (Example.parserContext Example.calls) "s" _ Hgraph)
    as (isLexerRule & data & ruleIndex & startState & rest & Hselect & Hstart & Hnodes).
  exists isLexerRule, data, ruleIndex, startState, rest.
  split; [exact Hgraph|]. by split.
Defined.

End Graph.

(** * The labels of character transitions *)

Module Labels.

Import ATN.

Local Open Scope string_scope.

(** The value of a hexadecimal digit and of a string of such digits. *)
Definition digitValue (c : Ascii.ascii) : Z :=
  let k := Z.of_nat (Ascii.nat_of_ascii c) in
  if decide (k < 58) then k - 48 else k - 55.

Fixpoint hexValue (acc : Z) (s : string) : Z :=
  match s with
  | EmptyString => acc
  | String c s' => hexValue (16 * acc + digitValue c) s'
  end.

Lemma digitValue_hexDigit d : 0 <= d < 16 -> digitValue (hexDigit d) = d.
Proof.
  intros Hd. unfold digitValue, hexDigit.
  rewrite Ascii.nat_ascii_embedding by (case_decide; lia).
  rewrite Z2Nat.id by (case_decide; lia).
  repeat case_decide; lia.
Qed.

Lemma hexValue_toHex fuel : forall n acc,
  0 <= n < 16 ^ Z.of_nat fuel -> hexValue 0 (toHex fuel n acc) = hexValue n acc.
Proof.
  induction fuel as [|fuel IH]; intros n acc Hn.
  - simpl in *. by replace n with 0 by lia.
  - simpl toHex. cbv zeta.
    assert (Hdigit : 0 <= n `mod` 16 < 16) by (apply Z.mod_pos_bound; lia).
    case_decide as Hdiv.
    + simpl. rewrite digitValue_hexDigit by done.
      f_equal. pose proof (Z.div_mod n 16). lia.
    + rewrite IH.
      * simpl. rewrite digitValue_hexDigit by done.
        f_equal. pose proof (Z.div_mod n 16). lia.
      * rewrite Nat2Z.inj_succ, Z.pow_succ_r in Hn by lia.
        split; [apply Z.div_pos; lia|]. apply Z.div_lt_upper_bound; lia.
Qed.

(** Reading the digits of [toString(16)] gives the number back. *)
Lemma hexValue_toStringHexUpper n : 0 <= n -> hexValue 0 (toStringHexUpper n) = n.
Proof.
  intros Hn. unfold toStringHexUpper. rewrite hexValue_toHex; [done|].
  split; [done|]. rewrite Nat2Z.inj_succ, Z2Nat.id by apply Z.log2_nonneg.
  destruct (decide (n = 0)) as [->|Hpos]; [done|].
  pose proof (Z.log2_spec n) as [_ Hlt]; [lia|].
  eapply Z.lt_le_trans; [exact Hlt|].
  apply Z.pow_le_mono_l. pose proof (Z.log2_nonneg n). lia.
Qed.

(** Different code points have different representations: the label of a
    character transition tells which character it is. *)
Theorem characterRepresentation_distinct a b :
  0 <= a -> 0 <= b -> a <> b ->
  characterRepresentation a <> characterRepresentation b.
Proof.
  intros Ha Hb Hne Hsame. apply Hne. revert Hsame. unfold characterRepresentation.
  destruct (decide (a < 0)); [lia|]. destruct (decide (b < 0)); [lia|].
  remember (toStringHexUpper a) as hexA eqn:HhexA.
  remember (toStringHexUpper b) as hexB eqn:HhexB.
  case_decide as Hqa; case_decide as Hqb; simpl.
  - intros [= Heq]. apply (f_equal Ascii.nat_of_ascii) in Heq.
    rewrite !Ascii.nat_ascii_embedding in Heq by lia. lia.
  - intros Heq. discriminate Heq.
  - intros Heq. discriminate Heq.
  - intros [= Heq]. rewrite HhexA, HhexB in Heq.
    change (toStringHexUpper a = toStringHexUpper b) in Heq. apply (f_equal (hexValue 0)) in Heq.
    by rewrite !hexValue_toStringHexUpper in Heq.
Qed.

(** The letter A and the code point 0x20AC have different labels. *)
Lemma characterRepresentation_distinct_witness :
  characterRepresentation 65 = "'A'" /\
  characterRepresentation 8364 = "\u20AC" /\
  characterRepresentation 65 <> characterRepresentation 8364.
Proof.
  split; [reflexivity|]. split; [reflexivity|].
  apply characterRepresentation_distinct; lia.
Defined.

End Labels.

(** * The token under the caret *)

Module Completion.

Import Context.

Local Open Scope string_scope.
Local Open Scope list_scope.

(** The token type of the end of the input. *)
Definition EOF : Z := -1.

(** What the search reads of a token. *)
Record StreamToken := {
  tokenType : Z;
  tokenLine : Z;
  tokenColumn : Z;
  tokenText : option string;
}.

(** [token.text ? token.text.length : 0]. *)
Definition textLength (token : StreamToken) : Z :=
  match tokenText token with
  | Some t => Z.of_nat (String.length t)
  | None => 0
  end.

(** The loop of [getCodeCompletionCandidates] that searches the index of the
    token at the caret, over the tokens from [index] on.  The stream throws
    when the index passes its last token. *)
Fixpoint caretTokenIndex (tokens : list StreamToken) (index : nat) (column row : Z)
  : Exception + nat :=
  match tokens with
  | [] => inl (OtherError "token index out of range")
  | token :: rest =>
      if bool_decide (tokenType token = EOF \/ tokenLine token > row) then inr index
      else if bool_decide (tokenLine token < row) then caretTokenIndex rest (S index) column row
      else if bool_decide (tokenColumn token + textLength token >= column) then inr index
      else caretTokenIndex rest (S index) column row
  end.

(** The loop stops at the end of the input, at a token on a later line and at
    a token on the line of the caret that ends at or after the caret. *)
Definition stopsAt (token : StreamToken) (column row : Z) : Prop :=
  tokenType token = EOF \/ tokenLine token > row \/
  (tokenLine token = row /\ tokenColumn token + textLength token >= column).

Lemma caretTokenIndex_spec tokens column row : forall index,
  match caretTokenIndex tokens index column row with
  | inr found =>
      exists k token,
        found = (index + k)%nat /\ tokens !! k = Some token /\ stopsAt token column row /\
        forall j t, (j < k)%nat -> tokens !! j = Some t -> ~ stopsAt t column row
  | inl _ => Forall (fun t => ~ stopsAt t column row) tokens
  end.
Proof.
  induction tokens as [|token rest IH]; intros index; simpl; [apply Forall_nil_2|].
  case_bool_decide as Hfirst.
  { exists 0%nat, token. split; [lia|]. split; [done|]. split; [|intros j t Hj; lia].
    unfold stopsAt. tauto. }
  assert (Hstep :
    ~ stopsAt token column row ->
    match caretTokenIndex rest (S index) column row with
    | inr found =>
        exists k token0,
          found = (index + k)%nat /\ (token :: rest) !! k = Some token0 /\
          stopsAt token0 column row /\
          forall j t, (j < k)%nat -> (token :: rest) !! j = Some t -> ~ stopsAt t column row
    | inl _ => Forall (fun t => ~ stopsAt t column row) (token :: rest)
    end).
  { intros Hnot. specialize (IH (S index)).
    destruct (caretTokenIndex rest (S index) column row) as [e|found].
    - by apply Forall_cons.
    - destruct IH as (k & token0 & -> & Hk & Hstop & Hleast).
      exists (S k), token0. split; [lia|]. split; [done|]. split; [done|].
      intros [|j] t Hj; simpl; [by intros [= <-]|]. apply Hleast. lia. }
  case_bool_decide as Hbefore.
  { apply Hstep. unfold stopsAt. lia. }
  case_bool_decide as Hcovers.
  { exists 0%nat, token. split; [lia|]. split; [done|]. split; [|intros j t Hj; lia].
    unfold stopsAt. lia. }
  apply Hstep. unfold stopsAt. lia.
Qed.

(** On a stream that ends with the end-of-input token the search returns,
    and what it returns is the index of the first token at which the loop
    stops; on a stream without such a token it throws. *)
Theorem caretTokenIndex_first_stop tokens column row :
  (Exists (fun t => tokenType t = EOF) tokens ->
   exists index token,
     caretTokenIndex tokens 0 column row = inr index /\
     tokens !! index = Some token /\ stopsAt token column row /\
     forall j t, (j < index)%nat -> tokens !! j = Some t -> ~ stopsAt t column row) /\
  (Forall (fun t => ~ stopsAt t column row) tokens ->
   exists e, caretTokenIndex tokens 0 column row = inl e).
Proof.
  pose proof (caretTokenIndex_spec tokens column row 0) as Hspec.
  destruct (caretTokenIndex tokens 0 column row) as [e|found]; split.
  - intros (t & Hin & Heof)%Exists_exists. rewrite Forall_forall in Hspec.
    destruct (Hspec t Hin). by left.
  - intros _. by exists e.
  - intros _. destruct Hspec as (k & token & -> & ? & ? & ?). by exists k, token.
  - intros Hnone. destruct Hspec as (k & token & _ & Hk & Hstop & _).
    rewrite Forall_forall in Hnone. destruct (Hnone token); [|done].
    by eapply list_elem_of_lookup_2.
Qed.

Module Example.

Definition token (type l c : Z) (t : string) : StreamToken :=
  {| tokenType := type; tokenLine := l; tokenColumn := c; tokenText := Some t |}.

(** The tokens of [grammar T;] and [r: 'a' ;] and the end of the input. *)
Definition tokens : list StreamToken :=
  [ token 19 1 0 "grammar"; token 2 1 8 "T"; token 32 1 9 ";";
    token 2 2 0 "r"; token 29 2 1 ":"; token 8 2 3 "'a'"; token 32 2 7 ";";
    {| tokenType := EOF; tokenLine := 2; tokenColumn := 8; tokenText := None |} ].

End Example.

(** In the example the caret at column 4 of line 2 is in the literal, the
    sixth token. *)
Lemma caretTokenIndex_first_stop_witness :
  Exists (fun t => tokenType t = EOF) Example.tokens /\
  caretTokenIndex Example.tokens 0 4 2 = inr 5%nat /\
  exists index token,
    caretTokenIndex Example.tokens 0 4 2 = inr index /\
    Example.tokens !! index = Some token /\ stopsAt token 4 2 /\
    forall j t, (j < index)%nat -> Example.tokens !! j = Some t -> ~ stopsAt t 4 2.
Proof.
  assert (Heof : Exists (fun t => tokenType t = EOF) Example.tokens)
    by (do 7 apply Exists_cons_tl; apply Exists_cons_hd; reflexivity).
  split; [exact Heof|]. split; [reflexivity|].
  exact (proj1 (caretTokenIndex_first_stop Example.tokens 4 2) Heof).
Defined.

End Completion.

(** * The rule maps of the interpreter data *)

Module Interpreters.

Import Context.

Local Open Scope string_scope.
Local Open Scope list_scope.

Lemma ruleIndexMap_snoc (names : list string) (n : string) :
  ruleIndexMap (names ++ [n]) = <[n := length names]> (ruleIndexMap names).
Proof.
  unfold ruleIndexMap. rewrite imap_app, foldl_app. simpl.
  by rewrite Nat.add_0_r.
Qed.

Lemma ruleIndexMap_sound (names : list string) (n : string) (i : nat) :
  ruleIndexMap names !! n = Some i -> names !! i = Some n.
Proof.
  induction names as [|x names IH] using rev_ind; [done|].
  rewrite ruleIndexMap_snoc. destruct (decide (n = x)) as [->|Hne].
  - rewrite lookup_insert_eq. intros [= <-]. by rewrite list_lookup_middle.
  - rewrite lookup_insert_ne by done. intros Hi%IH.
    rewrite lookup_app_l; [done|]. by eapply lookup_lt_Some.
Qed.

(** The loop that fills a rule map sends each rule name to the last position
    it has in the list of rule names, and holds nothing else. *)
Theorem ruleIndexMap_last_index (names : list string) (n : string) (i : nat) :
  ruleIndexMap names !! n = Some i <->
  names !! i = Some n /\ forall j, (i < j)%nat -> names !! j <> Some n.
Proof.
  induction names as [|x names IH] using rev_ind.
  - split; [done | by intros [? _]].
  - rewrite ruleIndexMap_snoc. destruct (decide (n = x)) as [->|Hne].
    + rewrite lookup_insert_eq. split.
      * intros [= <-]. split; [by rewrite list_lookup_middle|].
        intros j Hj. rewrite lookup_ge_None_2; [done|]. rewrite length_app. simpl. lia.
      * intros [Hi Hlast]. f_equal.
        destruct (Nat.lt_trichotomy i (length names)) as [Hlt|[->|Hgt]]; [|done|].
        -- exfalso. apply (Hlast (length names) Hlt). by rewrite list_lookup_middle.
        -- rewrite lookup_ge_None_2 in Hi; [done|]. rewrite length_app. simpl. lia.
    + rewrite lookup_insert_ne by done. rewrite IH. split.
      * intros [Hi Hlast]. pose proof (lookup_lt_Some _ _ _ Hi) as Hlt.
        split; [by rewrite lookup_app_l|].
        intros j Hj Hjn. apply lookup_app_Some in Hjn as [Hjn|[_ Hjn]].
        -- by apply (Hlast j).
        -- apply list_lookup_singleton_Some in Hjn as [_ ->]. done.
      * intros [Hi Hlast]. apply lookup_app_Some in Hi as [Hi|[_ Hi]].
        -- split; [done|]. intros j Hj Hjn. apply (Hlast j Hj).
           rewrite lookup_app_l; [done|]. by eapply lookup_lt_Some.
        -- apply list_lookup_singleton_Some in Hi as [_ ->]. done.
Qed.

(** ** Sequences of operations on a context *)

(** A step of a client: one of the operations of [perform], or [parse]. *)
Inductive Step :=
| Do (o : Operation)
| Parse.

Section Maps.

Variables (Tree Symbol DiagnosticEntry InterpreterData Runtime : Type).
Variable grammarSpec :
  ANTLRv4Parser -> CommonTokenStream -> Runtime -> ParseRun Tree DiagnosticEntry * Runtime.
Variable childCount : Tree -> nat.
Variable grammarType : Tree -> option (bool * bool).
Variable detailsListener : Tree -> list Symbol * list string.
Variable getUnreferencedSymbols : ContextSymbolTable Tree Symbol -> list string.
Variable semanticListener :
  Tree -> ContextSymbolTable Tree Symbol ->
  list DiagnosticEntry * ContextSymbolTable Tree Symbol.
Variable ruleVisitor : Tree -> gmap string string.
Variable ReferenceGraph : Type.
Variable referenceGraphOf : ContextSymbolTable Tree Symbol -> ReferenceGraph.
Variable path_basename : string -> string -> string.
Variable path_dirname : string -> string.
Variable path_join : string -> string -> string.
Variable existsSync : string -> bool.
Variable parseFile : string -> InterpreterData.
Variable ruleNames : InterpreterData -> list string.

Local Abbreviation SourceContext :=
  (Context.SourceContext Tree Symbol DiagnosticEntry InterpreterData).
Local Abbreviation parse :=
  (Context.parse Tree Symbol DiagnosticEntry InterpreterData Runtime grammarSpec childCount
                 grammarType detailsListener getUnreferencedSymbols).
Local Abbreviation perform :=
  (Context.perform Tree Symbol DiagnosticEntry InterpreterData semanticListener ruleVisitor
                   ReferenceGraph referenceGraphOf path_basename path_dirname path_join
                   existsSync parseFile ruleNames).
Local Abbreviation setupInterpreters :=
  (Context.setupInterpreters Tree Symbol DiagnosticEntry InterpreterData path_basename
                             path_dirname path_join existsSync parseFile ruleNames).
Local Abbreviation interpreterFiles :=
  (Context.interpreterFiles Tree Symbol DiagnosticEntry InterpreterData path_basename
                            path_dirname path_join).

Fixpoint run (steps : list Step) (s : SourceContext) (r : Runtime) : SourceContext * Runtime :=
  match steps with
  | [] => (s, r)
  | Do o :: rest => run rest (perform o s) r
  | Parse :: rest => let '(_, s', r') := parse s r in run rest s' r'
  end.

(** The rule map of a kind whose data is loaded is the index map of the rule
    names of that data. *)
Definition indexed (s : SourceContext) : Prop :=
  (forall d, grammarLexerData s = Some d ->
             grammarLexerRuleMap s = ruleIndexMap (ruleNames d)) /\
  (forall d, grammarParserData s = Some d ->
             grammarParserRuleMap s = ruleIndexMap (ruleNames d)).

Lemma setupInterpreters_fields outputDir s :
  let s' := setupInterpreters outputDir s in
  let '(lexerFile, parserFile) := interpreterFiles outputDir s in
  (if existsSync lexerFile
   then grammarLexerData s' = Some (parseFile lexerFile) /\
        grammarLexerRuleMap s' = ruleIndexMap (ruleNames (parseFile lexerFile))
   else grammarLexerData s' = None /\ grammarLexerRuleMap s' = ∅) /\
  (if existsSync parserFile
   then grammarParserData s' = Some (parseFile parserFile) /\
        grammarParserRuleMap s' = ruleIndexMap (ruleNames (parseFile parserFile))
   else grammarParserData s' = None /\ grammarParserRuleMap s' = ∅) /\
  info s' = info s /\ tree s' = tree s.
Proof.
  unfold Context.setupInterpreters.
  destruct (interpreterFiles outputDir s) as [lexerFile parserFile].
  by destruct (existsSync lexerFile), (existsSync parserFile).
Qed.

(** After [setupInterpreters] every entry of a rule map is a position in the
    rule names of the data that was just loaded, whatever the maps held
    before; a kind without data has an empty map. *)
Theorem setupInterpreters_maps_index_loaded_data outputDir s :
  let s' := setupInterpreters outputDir s in
  (forall n i, grammarLexerRuleMap s' !! n = Some i ->
     exists d, grammarLexerData s' = Some d /\ ruleNames d !! i = Some n) /\
  (forall n i, grammarParserRuleMap s' !! n = Some i ->
     exists d, grammarParserData s' = Some d /\ ruleNames d !! i = Some n).
Proof.
  pose proof (setupInterpreters_fields outputDir s) as Hfields. simpl in *.
  destruct (interpreterFiles outputDir s) as [lexerFile parserFile].
  destruct Hfields as (Hlexer & Hparser & _). split.
  - intros n i. destruct (existsSync lexerFile); destruct Hlexer as [-> ->]; [|done].
    intros Hi%ruleIndexMap_sound. by eexists.
  - intros n i. destruct (existsSync parserFile); destruct Hparser as [-> ->]; [|done].
    intros Hi%ruleIndexMap_sound. by eexists.
Qed.

Lemma perform_indexed o s : indexed s -> indexed (perform o s).
Proof.
  intros [Hlexer Hparser]. destruct o as [q|text|outputDir].
  - simpl. rewrite serve_runs. unfold runSemanticAnalysisIfNeeded.
    destruct (semanticAnalysisDone s); [done|]. simpl.
    destruct (tree s) as [t|]; [|done]. by destruct (semanticListener t (symbolTable s)).
  - done.
  - pose proof (setupInterpreters_fields outputDir s) as Hfields. simpl in *.
    destruct (interpreterFiles outputDir s) as [lexerFile parserFile].
    destruct Hfields as (Hl & Hp & _). split.
    + intros d. destruct (existsSync lexerFile); destruct Hl as [-> ->]; [|done].
      by intros [= <-].
    + intros d. destruct (existsSync parserFile); destruct Hp as [-> ->]; [|done].
      by intros [= <-].
Qed.

Lemma parse_indexed s r : indexed (snd (fst (parse s r))).
Proof.
  pose proof (parse_rebuilt Tree Symbol DiagnosticEntry InterpreterData Runtime grammarSpec
                childCount grammarType detailsListener getUnreferencedSymbols s r) as Hp.
  destruct (parse s r) as [[result s'] r']. simpl.
  destruct (rebuilt _ _ _ _ _) as [out ds]. destruct Hp as (_ & _ & Hl & Hp & _).
  split; intros d; [by rewrite Hl | by rewrite Hp].
Qed.

Lemma run_indexed steps : forall s r, indexed s -> indexed (fst (run steps s r)).
Proof.
  induction steps as [|[o|] steps IH]; intros s r Hs; simpl; [done| |].
  - by apply IH, perform_indexed.
  - pose proof (parse_indexed s r) as Hp. destruct (parse s r) as [[result s'] r'].
    by apply IH.
Qed.

End Maps.

(** ** The clients of the rule maps *)

Section Clients.

Import Position.

Variable Vocabulary : Type.
Variable getDisplayName : Vocabulary -> Z -> string.
Variable toUpperCase : string -> string.
Variables (Symbol DiagnosticEntry Runtime : Type).

Local Abbreviation InterpreterData := (ATN.InterpreterData Vocabulary).
Local Abbreviation SourceContext :=
  (Context.SourceContext ParseTree Symbol DiagnosticEntry InterpreterData).

Variables RULE_parserRuleSpec RULE_lexerRuleSpec : Z.
Variable RULE_REF_text : ParseTree -> Exception + string.
Variable TOKEN_REF_text : ParseTree -> Exception + string.

Variable grammarSpec :
  ANTLRv4Parser -> CommonTokenStream -> Runtime -> ParseRun ParseTree DiagnosticEntry * Runtime.
Variable childCount : ParseTree -> nat.
Variable grammarType : ParseTree -> option (bool * bool).
Variable detailsListener : ParseTree -> list Symbol * list string.
Variable getUnreferencedSymbols : ContextSymbolTable ParseTree Symbol -> list string.
Variable semanticListener :
  ParseTree -> ContextSymbolTable ParseTree Symbol ->
  list DiagnosticEntry * ContextSymbolTable ParseTree Symbol.
Variable ruleVisitor : ParseTree -> gmap string string.
Variable ReferenceGraph : Type.
Variable referenceGraphOf : ContextSymbolTable ParseTree Symbol -> ReferenceGraph.
Variable path_basename : string -> string -> string.
Variable path_dirname : string -> string.
Variable path_join : string -> string -> string.
Variable existsSync : string -> bool.
Variable parseFile : string -> InterpreterData.

Variable SentenceGenerationOptions : Type.
Variable count : SentenceGenerationOptions -> option Z.
Variable actionFile : SentenceGenerationOptions -> option string.
Variable SentenceGenerator : Type.
Variable newSentenceGenerator :
  SourceContext -> InterpreterData -> option InterpreterData -> option string ->
  Exception + SentenceGenerator.
Variable generate :
  SentenceGenerator -> SentenceGenerationOptions -> option nat ->
  (Exception + string) * SentenceGenerator.

Local Abbreviation run :=
  (run ParseTree Symbol DiagnosticEntry InterpreterData Runtime grammarSpec childCount
       grammarType detailsListener getUnreferencedSymbols semanticListener ruleVisitor
       ReferenceGraph referenceGraphOf path_basename path_dirname path_join existsSync
       parseFile (@ATN.ruleNames Vocabulary)).
Local Abbreviation indexed :=
  (indexed ParseTree Symbol DiagnosticEntry InterpreterData (@ATN.ruleNames Vocabulary)).
Local Abbreviation parse :=
  (Context.parse ParseTree Symbol DiagnosticEntry InterpreterData Runtime grammarSpec
                 childCount grammarType detailsListener getUnreferencedSymbols).
Local Abbreviation setupInterpreters :=
  (Context.setupInterpreters ParseTree Symbol DiagnosticEntry InterpreterData path_basename
                             path_dirname path_join existsSync parseFile
                             (@ATN.ruleNames Vocabulary)).
Local Abbreviation ruleFromPosition :=
  (ruleFromPosition RULE_parserRuleSpec RULE_lexerRuleSpec RULE_REF_text TOKEN_REF_text
                    Symbol DiagnosticEntry InterpreterData).
Local Abbreviation getATNGraph :=
  (ATN.getATNGraph Vocabulary getDisplayName toUpperCase ParseTree Symbol DiagnosticEntry).
Local Abbreviation prepare :=
  (Sentence.prepare Vocabulary toUpperCase ParseTree Symbol DiagnosticEntry).
Local Abbreviation generateSentence :=
  (Sentence.generateSentence Vocabulary toUpperCase ParseTree Symbol DiagnosticEntry
                             SentenceGenerationOptions count actionFile SentenceGenerator
                             newSentenceGenerator generate).

Lemma ruleFromPosition_index (this : SourceContext) column row name i :
  ruleFromPosition this column row = inr (Some name, Some i) ->
  (is_Some (grammarParserData this) /\ grammarParserRuleMap this !! name = Some i) \/
  (is_Some (grammarLexerData this) /\ grammarLexerRuleMap this !! name = Some i).
Proof.
  unfold Position.ruleFromPosition. destruct (tree this) as [root|]; [|done].
  destruct (parseTreeFromPosition [] root column row) as [[node parents]|]; [|done].
  destruct (enclosingRule _ _ node parents) as [rule|]; [|done].
  case_bool_decide.
  - destruct (RULE_REF_text rule) as [e|ruleName]; [done|].
    destruct (grammarParserData this) as [d|]; [|done]. intros [= <- Hi]. left. by split.
  - destruct (TOKEN_REF_text rule) as [e|ruleName]; [done|].
    destruct (grammarLexerData this) as [d|]; [|done]. intros [= <- Hi]. right. by split.
Qed.

(** Whatever the client does with a context, the index [ruleFromPosition]
    reports for a rule is a position of the rule's name in the rule names of
    loaded interpreter data. *)
Theorem ruleFromPosition_index_in_rule_names steps (s : SourceContext) r column row name i :
  indexed s ->
  ruleFromPosition (fst (run steps s r)) column row = inr (Some name, Some i) ->
  exists d,
    ATN.ruleNames d !! i = Some name /\
    (grammarParserData (fst (run steps s r)) = Some d \/
     grammarLexerData (fst (run steps s r)) = Some d).
Proof.
  intros Hs Hrule.
  destruct (run_indexed ParseTree Symbol DiagnosticEntry InterpreterData Runtime grammarSpec
              childCount grammarType detailsListener getUnreferencedSymbols semanticListener
              ruleVisitor ReferenceGraph referenceGraphOf path_basename path_dirname
              path_join existsSync parseFile (@ATN.ruleNames Vocabulary) steps s r Hs)
    as [Hlexer Hparser].
  apply ruleFromPosition_index in Hrule as [[[d Hd] Hi]|[[d Hd] Hi]].
  - exists d. rewrite (Hparser d Hd) in Hi. split; [by apply ruleIndexMap_sound | by left].
  - exists d. rewrite (Hlexer d Hd) in Hi. split; [by apply ruleIndexMap_sound | by right].
Qed.

(** While no parser data is loaded the parser rule map is not read: the
    graph of a rule, the choice [generateSentence] makes before it generates
    and the rule at a position are the same for every content of the map. *)
Theorem unloaded_parser_rule_map_is_not_read (this : SourceContext) (m : gmap string nat) :
  grammarParserData this = None ->
  let this' := set_grammarParserRuleMap _ _ _ _ m this in
  (forall rule, getATNGraph this' rule = getATNGraph this rule) /\
  (forall dependencies rule, prepare this' dependencies rule = prepare this dependencies rule) /\
  (forall column row, ruleFromPosition this' column row = ruleFromPosition this column row).
Proof.
  intros Hdata. simpl. split; [|split].
  - intros rule.
    assert (Hselect : ATN.selectRule Vocabulary toUpperCase ParseTree Symbol DiagnosticEntry
                        (set_grammarParserRuleMap _ _ _ _ m this) rule
                      = ATN.selectRule Vocabulary toUpperCase ParseTree Symbol DiagnosticEntry
                          this rule).
    { unfold ATN.selectRule. destruct (ATN.isLexerRuleName toUpperCase rule) as [e|[|]];
        [done|done|]. simpl. by rewrite Hdata. }
    unfold ATN.getATNGraph, ATN.runGraph. by rewrite Hselect.
  - intros dependencies rule. unfold Sentence.prepare.
    replace (Sentence.isInterpreterDataLoaded _ _ _ _ (set_grammarParserRuleMap _ _ _ _ m this))
      with (Sentence.isInterpreterDataLoaded _ _ _ _ this) by done.
    destruct (negb _); [done|]. destruct rule as [|c rest]; [done|].
    replace (Sentence.selectData _ _ _ _ (set_grammarParserRuleMap _ _ _ _ m this) dependencies)
      with (Sentence.selectData _ _ _ _ this dependencies) by done.
    assert (Hparser : snd (Sentence.selectData _ _ _ _ this dependencies) = None).
    { unfold Sentence.selectData. by destruct (type (info this)). }
    destruct (Sentence.selectData _ _ _ _ this dependencies) as [[lexerData|] parserData];
      [|done].
    simpl in Hparser. subst parserData.
    by destruct (bool_decide (String c "" = toUpperCase (String c ""))).
  - intros column row. unfold Position.ruleFromPosition. simpl. by rewrite Hdata.
Qed.

(** From [parse] to the next [setupInterpreters] the features that need
    interpreter data are off, whatever was loaded before: a rule at a position
    comes without index, a rule has no graph, and a request for a sentence is
    answered with the placeholder for missing data. *)
Theorem parse_turns_interpreter_features_off (s : SourceContext) r :
  let s' := snd (fst (parse s r)) in
  (forall column row name index,
     ruleFromPosition s' column row = inr (name, index) -> index = None) /\
  (forall c rest, getATNGraph s' (String c rest) = Some (inr None)) /\
  (forall dependencies rule options calls,
     generateSentence s' dependencies rule options calls
     = (inr tt, calls ++ [(Sentence.Text "[No grammar data available]", 0)])).
Proof.
  pose proof (parse_rebuilt ParseTree Symbol DiagnosticEntry InterpreterData Runtime
                grammarSpec childCount grammarType detailsListener getUnreferencedSymbols
                s r) as Hp.
  destruct (parse s r) as [[result s'] r']. simpl.
  destruct (rebuilt _ _ _ _ _) as [out ds]. destruct Hp as (_ & _ & Hlexer & Hparser & _).
  split; [|split].
  - intros column row name index. unfold Position.ruleFromPosition.
    destruct (tree s') as [root|]; [|done].
    destruct (parseTreeFromPosition [] root column row) as [[node parents]|];
      [|by intros [= _ <-]].
    destruct (enclosingRule _ _ node parents) as [rule|]; [|by intros [= _ <-]].
    rewrite Hlexer, Hparser. case_bool_decide.
    + destruct (RULE_REF_text rule); [done | by intros [= _ <-]].
    + destruct (TOKEN_REF_text rule); [done | by intros [= _ <-]].
  - intros c rest. unfold ATN.getATNGraph, ATN.runGraph, ATN.selectRule. simpl.
    rewrite Hlexer, Hparser. by destruct (bool_decide _).
  - intros dependencies rule options calls.
    unfold Sentence.generateSentence, Sentence.prepare, Sentence.isInterpreterDataLoaded.
    rewrite Hlexer, Hparser. rewrite bool_decide_eq_false_2; [done|].
    by intros [[? ?]|[? ?]].
Qed.

(** A context of a parser grammar has no lexer rule map of its own, and
    [generateSentence] looks lexer rules up in nothing else: after
    [setupInterpreters] it answers every lexer rule with one call of the
    callback, on a placeholder, and generates nothing. *)
Theorem parser_grammar_generates_no_token_sentence
    (s : SourceContext) outputDir dependencies c rest options :
  existsSync "" = false ->
  type (info s) = Parser ->
  String c "" = toUpperCase (String c "") ->
  let s' := setupInterpreters outputDir s in
  exists placeholder,
    generateSentence s' dependencies (String c rest) options
    = Sentence.callback (Sentence.Text placeholder) 0 /\
    placeholder ∈ ["[No grammar data available]"; "[No lexer data available]";
                   "[Virtual or undefined token]"] /\
    (is_Some (grammarParserData s') ->
     is_Some (Sentence.lexerDataOfDependency _ _ _ _ dependencies) ->
     placeholder = "[Virtual or undefined token]").
Proof.
  intros Hnone Htype Hupper s'.
  pose proof (setupInterpreters_fields ParseTree Symbol DiagnosticEntry InterpreterData
                path_basename path_dirname path_join existsSync parseFile
                (@ATN.ruleNames Vocabulary) outputDir s) as Hfields.
  simpl in Hfields. fold s' in Hfields.
  unfold Context.interpreterFiles in Hfields. rewrite Htype in Hfields.
  rewrite Hnone in Hfields. destruct Hfields as ([Hdata Hmap] & _ & Hinfo & _).
  unfold Sentence.generateSentence, Sentence.prepare.
  destruct (Sentence.isInterpreterDataLoaded _ _ _ _ s') eqn:Hloaded; simpl.
  2:{ eexists. split; [done|]. split; [set_solver|]. intros [d Hd] _.
      unfold Sentence.isInterpreterDataLoaded in Hloaded.
      apply bool_decide_eq_false in Hloaded. destruct Hloaded. right. by eexists. }
  unfold Sentence.selectData. rewrite Hinfo, Htype.
  destruct (Sentence.lexerDataOfDependency _ _ _ _ dependencies) as [lexerData|].
  2:{ eexists. split; [done|]. split; [set_solver|]. by intros _ [? ?]. }
  rewrite bool_decide_eq_true_2 by done. simpl. rewrite Hmap, lookup_empty.
  eexists. split; [done|]. split; [set_solver | done].
Qed.

End Clients.

Module Example.

Import Position.

(** A fresh context for the file [T.g4]: nothing parsed, nothing loaded. *)
Definition fresh : Context.SourceContext ParseTree unit unit (ATN.InterpreterData unit) :=
  {| fileName := "T.g4";
     symbolTable := {| symbols := []; tableDependencies := []; tableTree := None |};
     info := {| type := Unknown; unreferencedRules := []; imports := [] |};
     diagnostics := [];
     rrdScripts := None;
     semanticAnalysisDone := false;
     tokenStream := {| source := "grammar T; r: 'a' ;"; index := 0 |};
     parser := None;
     grammarLexerData := None;
     grammarLexerRuleMap := ∅;
     grammarParserData := None;
     grammarParserRuleMap := ∅;
     tree := None |}.

(** A parser grammar whose data was loaded before the last [parse]: the data
    is gone, the parser rule map is still there. *)
Definition reparsed : Context.SourceContext ParseTree unit unit (ATN.InterpreterData unit) :=
  {| fileName := "T.g4";
     symbolTable := {| symbols := []; tableDependencies := []; tableTree := Some Example.root |};
     info := {| type := Parser; unreferencedRules := []; imports := [] |};
     diagnostics := [];
     rrdScripts := None;
     semanticAnalysisDone := false;
     tokenStream := {| source := "grammar T; r: 'a' ;"; index := 0 |};
     parser := None;
     grammarLexerData := None;
     grammarLexerRuleMap := ∅;
     grammarParserData := None;
     grammarParserRuleMap := {[ "r" := 0%nat ]};
     tree := Some Example.root |}.

(** The parser returns the tree of the example and calls it a parser
    grammar. *)
Definition grammarSpec (p : ANTLRv4Parser) (ts : CommonTokenStream) (r : unit)
  : ParseRun ParseTree unit * unit :=
  ({| outcome := inr Example.root; reported := []; position := String.length (source ts) |}, r).

(** Every file with a name exists and holds the data of [r : s ; s : A ;]. *)
Definition existsSync (file : string) : bool := bool_decide (file <> "").

Definition path_join (a b : string) : string := a +:+ "/" +:+ b.

Definition path_basename (file extension : string) : string := "T".

Definition path_dirname (file : string) : string := ".".

Definition parseFile (file : string) : ATN.InterpreterData unit := ATN.Example.calls.

Abbreviation run :=
  (run ParseTree unit unit (ATN.InterpreterData unit) unit grammarSpec
       (fun _ => 1%nat) (fun _ => Some (false, true)) (fun _ => ([], [])) (fun _ => [])
       (fun _ table => ([], table)) (fun _ => ∅) unit (fun _ => tt)
       path_basename path_dirname path_join existsSync parseFile (@ATN.ruleNames unit)).

Abbreviation setupInterpreters :=
  (Context.setupInterpreters ParseTree unit unit (ATN.InterpreterData unit)
       path_basename path_dirname path_join existsSync parseFile (@ATN.ruleNames unit)).

Abbreviation ruleFromPosition :=
  (ruleFromPosition Example.RULE_parserRuleSpec Example.RULE_lexerRuleSpec
                    Example.firstTerminal Example.firstTerminal
                    unit unit (ATN.InterpreterData unit)).

Definition options : Type := option Z * option string.

(** A generator that always delivers the same sentence. *)
Definition newSentenceGenerator
    (this : Context.SourceContext ParseTree unit unit (ATN.InterpreterData unit))
    (lexerData : ATN.InterpreterData unit) (parserData : option (ATN.InterpreterData unit))
    (actionFile : option string) : Exception + unit := inr tt.

Definition generate (generator : unit) (o : options) (start : option nat)
  : (Exception + string) * unit := (inr "a", generator).

Abbreviation generateSentence :=
  (Sentence.generateSentence unit ATN.Example.toUpperCase ParseTree unit unit
       options fst snd unit newSentenceGenerator generate).

(** The lexer grammar the parser grammar depends on, with its data loaded. *)
Definition lexerContext : Context.SourceContext ParseTree unit unit (ATN.InterpreterData unit) :=
  {| fileName := "L.g4";
     symbolTable := {| symbols := []; tableDependencies := []; tableTree := None |};
     info := {| type := Lexer; unreferencedRules := []; imports := [] |};
     diagnostics := [];
     rrdScripts := None;
     semanticAnalysisDone := false;
     tokenStream := {| source := ""; index := 0 |};
     parser := None;
     grammarLexerData := Some Sentence.Example.lexerData;
     grammarLexerRuleMap := ruleIndexMap (ATN.ruleNames Sentence.Example.lexerData);
     grammarParserData := None;
     grammarParserRuleMap := ∅;
     tree := None |}.

End Example.

(** Loading the data of [r : s ; s : A ;] maps [s] to 1, its position in the
    rule names. *)
Lemma setupInterpreters_maps_index_loaded_data_witness :
  let s' := Example.setupInterpreters None Example.reparsed in
  grammarParserRuleMap s' !! "s" = Some 1%nat /\
  exists d, grammarParserData s' = Some d /\ ATN.ruleNames d !! 1%nat = Some "s".
Proof.
  assert (Hmap : grammarParserRuleMap (Example.setupInterpreters None Example.reparsed) !! "s"
                 = Some 1%nat) by (vm_compute; reflexivity).
  split; [exact Hmap|].
  exact (proj2 (setupInterpreters_maps_index_loaded_data
                  Position.ParseTree unit unit (ATN.InterpreterData unit)
                  Example.path_basename Example.path_dirname Example.path_join
                  Example.existsSync Example.parseFile (@ATN.ruleNames unit)
                  None Example.reparsed) "s" 1%nat Hmap).
Defined.

(** After a parse and a load the rule under the caret has index 0, the
    position of [r] in the rule names of the loaded parser data. *)
Lemma ruleFromPosition_index_in_rule_names_witness :
  let s' := fst (Example.run [Parse; Do (SetupInterpreters None)] Example.fresh tt) in
  Example.ruleFromPosition s' 4 2 = inr (Some "r", Some 0%nat) /\
  exists d,
    ATN.ruleNames d !! 0%nat = Some "r" /\
    (grammarParserData s' = Some d \/ grammarLexerData s' = Some d).
Proof.
  assert (Hfresh : indexed Position.ParseTree unit unit (ATN.InterpreterData unit)
                           (@ATN.ruleNames unit) Example.fresh)
    by (split; intros d Hd; discriminate Hd).
  assert (Hrule : Example.ruleFromPosition
                    (fst (Example.run [Parse; Do (SetupInterpreters None)] Example.fresh tt))
                    4 2 = inr (Some "r", Some 0%nat))
    by (vm_compute; reflexivity).
  split; [exact Hrule|].
  exact (ruleFromPosition_index_in_rule_names
           unit unit unit unit Position.Example.RULE_parserRuleSpec
           Position.Example.RULE_lexerRuleSpec Position.Example.firstTerminal
           Position.Example.firstTerminal Example.grammarSpec
           (fun _ => 1%nat) (fun _ => Some (false, true)) (fun _ => ([], [])) (fun _ => [])
           (fun _ table => ([], table)) (fun _ => ∅) unit (fun _ => tt)
           Example.path_basename Example.path_dirname Example.path_join Example.existsSync
           Example.parseFile
           [Parse; Do (SetupInterpreters None)] Example.fresh tt 4 2 "r" 0%nat Hfresh Hrule).
Defined.

Lemma unloaded_parser_rule_map_is_not_read_witness :
  let this' := set_grammarParserRuleMap _ _ _ _ ∅ Example.reparsed in
  grammarParserData Example.reparsed = None /\
  grammarParserRuleMap Example.reparsed !! "r" = Some 0%nat /\
  (forall rule,
     ATN.getATNGraph unit ATN.Example.displayName ATN.Example.toUpperCase
                     Position.ParseTree unit unit this' rule
     = ATN.getATNGraph unit ATN.Example.displayName ATN.Example.toUpperCase
                       Position.ParseTree unit unit Example.reparsed rule) /\
  (forall dependencies rule,
     Sentence.prepare unit ATN.Example.toUpperCase Position.ParseTree unit unit
                      this' dependencies rule
     = Sentence.prepare unit ATN.Example.toUpperCase Position.ParseTree unit unit
                        Example.reparsed dependencies rule) /\
  (forall column row,
     Example.ruleFromPosition this' column row
     = Example.ruleFromPosition Example.reparsed column row).
Proof.
  split; [reflexivity|]. split; [vm_compute; reflexivity|].
  exact (unloaded_parser_rule_map_is_not_read
           unit ATN.Example.displayName ATN.Example.toUpperCase unit unit
           Position.Example.RULE_parserRuleSpec Position.Example.RULE_lexerRuleSpec
           Position.Example.firstTerminal Position.Example.firstTerminal
           Example.reparsed ∅ eq_refl).
Defined.

(** The parser grammar of the example, loaded, with a lexer grammar among its
    dependencies: the token [A] gets the placeholder. *)
Lemma parser_grammar_generates_no_token_sentence_witness :
  let s' := Example.setupInterpreters None Example.reparsed in
  Example.existsSync "" = false /\
  type (info Example.reparsed) = Parser /\
  "A" = ATN.Example.toUpperCase "A" /\
  exists placeholder,
    Example.generateSentence s' [Example.lexerContext] "A" (None, None)
    = Sentence.callback (Sentence.Text placeholder) 0 /\
    placeholder ∈ ["[No grammar data available]"; "[No lexer data available]";
                   "[Virtual or undefined token]"] /\
    (is_Some (grammarParserData s') ->
     is_Some (Sentence.lexerDataOfDependency _ _ _ _ [Example.lexerContext]) ->
     placeholder = "[Virtual or undefined token]").
Proof.
  split; [reflexivity|]. split; [reflexivity|]. split; [reflexivity|].
  exact (parser_grammar_generates_no_token_sentence
           unit ATN.Example.toUpperCase unit unit
           Example.path_basename Example.path_dirname Example.path_join Example.existsSync
           Example.parseFile
           Example.options fst snd unit Example.newSentenceGenerator Example.generate
           Example.reparsed None [Example.lexerContext] (Ascii.ascii_of_nat 65) "" (None, None)
           eq_refl eq_refl eq_refl).
Defined.

End Interpreters.

